(** * Brain Games: a shallow embedding of the trial generators, response
    handlers and scorers, and the properties the specification states
    about them.

    Conventions of the embedding.
    - A JavaScript [number] that only ever holds an integer (counters,
      indices, milliseconds, array lengths) is a [nat] or a [Z].
    - A [number] that a scorer or a handler obtains by a division, a
      product or a difference is a binary64 value: a rational [Q] that is
      the exact result rounded by [Binary64.round].
    - [Math.random()] reads the next value of an oracle [rng : nat -> Q];
      the position in the oracle is threaded through the generators.  The
      product that a generator hands to [Math.floor] and the constant that
      it compares a random value with are taken exactly; the statements
      about the generators do not depend on which index or which side a
      random value gives, only on the range of the index.
    - React state is a record; an event handler or a timer callback is a
      function from the record (and the handler's arguments) to the record
      obtained after all its [setX] calls are applied. *)

From Stdlib Require Import QArith Qround Qabs Qpower Lqa.
From Stdlib Require PrimFloat FloatOps SpecFloat Uint63.
From stdpp Require Import base option list relations strings gmap.

Local Open Scope nat_scope.

(** ** Binary64 arithmetic

    The finite values of IEEE 754 binary64, the [number] type of
    JavaScript, are the rationals [m * 2^e] with [|m| < 2^53] and
    [e >= -1074].  An arithmetic operation returns the exact result rounded
    to the nearest such value, a tie going to the value with even [m].
    [NaN] and the infinities are not represented: a quotient with divisor 0
    has no meaning here, and no figure of the games comes near the overflow
    threshold 2^1024. *)

Module Binary64.
Local Open Scope Q_scope.

(** The position of the leading binary digit of [p/q]: the [l] with
    [2^l <= p/q < 2^(l+1)]. *)
Definition ilog2 (p q : positive) : Z :=
  let d := (Z.log2 (Zpos p) - Z.log2 (Zpos q))%Z in
  if Qle_bool (2 ^ d) (Zpos p # q) then d else (d - 1)%Z.

(** The nearest integer, a tie going to the even one. *)
Definition nearest_even (y : Q) : Z :=
  let f := Qfloor y in
  match Qcompare (y - inject_Z f) (1 # 2) with
  | Lt => f
  | Gt => (f + 1)%Z
  | Eq => if Z.even f then f else (f + 1)%Z
  end.

(** The weight of the last of the 53 digits kept for a value whose leading
    digit is at [l]; it does not go below 2^-1074 (the subnormal range). *)
Definition exponent (l : Z) : Z := Z.max (l - 52) (-1074).

Definition round_pos (p q : positive) : Q :=
  let e := exponent (ilog2 p q) in
  inject_Z (nearest_even ((Zpos p # q) * 2 ^ (- e))) * 2 ^ e.

(** Rounding to nearest, ties to even; the result is a reduced fraction. *)
Definition round (x : Q) : Q :=
  Qred match Qnum x with
       | Z0 => 0
       | Zpos p => round_pos p (Qden x)
       | Zneg p => - round_pos p (Qden x)
       end.

End Binary64.

(** ** JavaScript primitives shared by the games *)

Module JS.

(** The source of [Math.random()] values, and the property the language
    guarantees for them. *)
Definition Rng := nat -> Q.

Definition in01 (rng : Rng) : Prop := forall k, (0 <= rng k)%Q /\ (rng k < 1)%Q.

(** [Math.floor(r * m)] for an integer [m].  The product is exact here; the
    source rounds it to binary64 before the floor, which can move the index
    by one (for the binary64 value nearest 0.7 and [m = 20] the source gives
    14, the exact product 13) but keeps it in [0 .. m - 1], the one property
    of the index that the statements below use. *)
Definition floor_mul (r : Q) (m : nat) : Z := Qfloor (r * inject_Z (Z.of_nat m)).

(** [arr[j]] for a number [j]: [undefined] (here [None]) outside the array. *)
Definition get {A} (arr : list A) (j : Z) : option A :=
  if (j <? 0)%Z then None else arr !! Z.to_nat j.

(** [[arr[i], arr[j]] = [arr[j], arr[i]]]: both reads happen first, then
    [arr[i]] and [arr[j]] are written in that order.  Reading outside the
    array would store [undefined]; the embedding has no such value and
    answers [None] there. *)
Definition swap {A} (arr : list A) (i : nat) (j : Z) : option (list A) :=
  match get arr j, arr !! i with
  | Some aj, Some ai => Some (<[Z.to_nat j := ai]> (<[i := aj]> arr))
  | _, _ => None
  end.

(** The Fisher-Yates loop that the generators share:
    [for (let i = arr.length - 1; i > 0; i--) { j = floor(random * (i+1)); swap }].
    The first argument is the loop variable [i]; [k] is the oracle position. *)
Fixpoint shuffle_from {A} (rng : Rng) (i : nat) (arr : list A) (k : nat)
  : option (list A * nat) :=
  match i with
  | O => Some (arr, k)
  | S i' =>
      let j := floor_mul (rng k) (i + 1) in
      match swap arr i j with
      | Some arr' => shuffle_from rng i' arr' (S k)
      | None => None
      end
  end.

Definition shuffle {A} (rng : Rng) (arr : list A) (k : nat) : option (list A * nat) :=
  shuffle_from rng (length arr - 1) arr k.

(** [for (let i = 0; i < n; i++) arr.push(x)] *)
Fixpoint push_times {A} (n : nat) (x : A) (arr : list A) : list A :=
  match n with
  | O => arr
  | S n' => push_times n' x (arr ++ [x])
  end.

(** Truthiness of a value that is an object or [undefined]/[null]. *)
Definition defined {A} (v : option A) : bool :=
  match v with Some _ => true | None => false end.

(** A count or a length used as a [number] in a division; an array length
    is an integer below 2^32 and so a binary64 value. *)
Definition num (n : nat) : Q := inject_Z (Z.of_nat n).

(** [xs.reduce((sum, x) => sum + x, 0)] over millisecond values.  The
    addends are integers and the sums of a session stay far below 2^53,
    where binary64 addition of integers is exact; the embedding adds the
    integers. *)
Definition sumZ (xs : list Z) : Q := inject_Z (fold_left Z.add xs 0%Z).

(** The operators [+], [-], [*] and [/] on [number]s.  With a divisor 0 the
    language gives [NaN] or an infinity, which the embedding does not
    have; what [div] answers there stands for nothing. *)
Definition add (a b : Q) : Q := Binary64.round (a + b).
Definition sub (a b : Q) : Q := Binary64.round (a - b).
Definition mul (a b : Q) : Q := Binary64.round (a * b).
Definition div (a b : Q) : Q := Binary64.round (a / b).

End JS.

(** ** The kernel's binary64

    Rocq's primitive floating-point numbers are the binary64 values of the
    processor.  They are used for one thing: to test, on the figures of
    whole sessions, that the arithmetic of [JS.add], [JS.sub], [JS.mul]
    and [JS.div] is the arithmetic of the hardware. *)

Module Hardware.

(** The rational that a finite float stands for. *)
Definition toQ (f : PrimFloat.float) : option Q :=
  match FloatOps.Prim2SF f with
  | SpecFloat.S754_zero _ => Some 0%Q
  | SpecFloat.S754_finite s m e =>
      Some ((if s then -1 else 1) * inject_Z (Zpos m) * 2 ^ e)%Q
  | _ => None
  end.

(** An integer below 2^62 in absolute value, as a float. *)
Definition ofZ (z : Z) : PrimFloat.float :=
  if (z <? 0)%Z then PrimFloat.opp (PrimFloat.of_uint63 (Uint63.of_Z (- z)))
  else PrimFloat.of_uint63 (Uint63.of_Z z).

Definition same (f : PrimFloat.float) (q : Q) : bool :=
  match toQ f with
  | Some v => Qeq_bool v q
  | None => false
  end.

(** [(c / n) * 100] on the processor. *)
Definition percentage (c n : nat) : PrimFloat.float :=
  PrimFloat.mul (PrimFloat.div (ofZ (Z.of_nat c)) (ofZ (Z.of_nat n))) (ofZ 100).

(** [s1 / n1 - s2 / n2] on the processor. *)
Definition difference (s1 : Z) (n1 : nat) (s2 : Z) (n2 : nat) : PrimFloat.float :=
  PrimFloat.sub (PrimFloat.div (ofZ s1) (ofZ (Z.of_nat n1)))
                (PrimFloat.div (ofZ s2) (ofZ (Z.of_nat n2))).

End Hardware.

(** Sequencing of state updates: [s |> setA a |> setB b]. *)
Notation "s |> f" := (f s) (at level 45, left associativity, only parsing).

(** ** Go/No-Go (games/attention-inhibition/GoNoGo.tsx) *)

Module GoNoGo.

Inductive GamePhase := Instructions | Countdown | Playing | Feedback | Results.
Inductive TrialType := go | nogo.
Inductive Shape := circle | square.

Record Trial := { type : TrialType; shape : Shape }.

(** The fields of a result carry the prefix [r_]: the component state has
    variables named [responded] and (in other games) [trial] as well. *)
Record TrialResult := {
  r_trial : Trial;
  r_responded : bool;
  r_correct : bool;
  r_responseTime : option Z;   (* number | null *)
}.

Definition TOTAL_TRIALS : nat := 30.
(** 0.7; in binary64 the product 30 * 0.7 rounds to exactly 21, the value of
    the exact product below. *)
Definition GO_RATIO : Q := 7 # 10.

Definition GamePhase_eqb (a b : GamePhase) : bool :=
  match a, b with
  | Instructions, Instructions | Countdown, Countdown | Playing, Playing
  | Feedback, Feedback | Results, Results => true
  | _, _ => false
  end.

Definition TrialType_eqb (a b : TrialType) : bool :=
  match a, b with go, go | nogo, nogo => true | _, _ => false end.

Definition goCount : nat :=
  Z.to_nat (Qfloor (inject_Z (Z.of_nat TOTAL_TRIALS) * GO_RATIO)).
Definition nogoCount : nat := TOTAL_TRIALS - goCount.

(** The array after the two [push] loops, before the shuffle. *)
Definition unshuffled : list Trial :=
  JS.push_times nogoCount {| type := nogo; shape := square |}
    (JS.push_times goCount {| type := go; shape := circle |} []).

Definition generateTrials (rng : JS.Rng) (k : nat) : option (list Trial * nat) :=
  JS.shuffle rng unshuffled k.

(** Number of trials of a given type in a sequence. *)
Definition countType (t : TrialType) (trials : list Trial) : nat :=
  length (List.filter (fun tr => TrialType_eqb (type tr) t) trials).

(** *** Component state *)

Inductive FeedbackKind := Correct | Incorrect.

Record State := {
  phase : GamePhase;
  countdown : nat;
  trials : list Trial;
  currentTrial : nat;
  trialStart : Z;
  results : list TrialResult;
  feedback : option FeedbackKind;
  showFixation : bool;
  showStimulus : bool;
  responded : bool;
}.

Definition initial : State := {|
  phase := Instructions; countdown := 3; trials := []; currentTrial := 0;
  trialStart := 0; results := []; feedback := None;
  showFixation := false; showStimulus := false; responded := false |}.

Definition setPhase v s := {|
  phase := v; countdown := countdown s; trials := trials s;
  currentTrial := currentTrial s; trialStart := trialStart s;
  results := results s; feedback := feedback s;
  showFixation := showFixation s; showStimulus := showStimulus s;
  responded := responded s |}.
Definition setCountdown v s := {|
  phase := phase s; countdown := v; trials := trials s;
  currentTrial := currentTrial s; trialStart := trialStart s;
  results := results s; feedback := feedback s;
  showFixation := showFixation s; showStimulus := showStimulus s;
  responded := responded s |}.
Definition setTrials v s := {|
  phase := phase s; countdown := countdown s; trials := v;
  currentTrial := currentTrial s; trialStart := trialStart s;
  results := results s; feedback := feedback s;
  showFixation := showFixation s; showStimulus := showStimulus s;
  responded := responded s |}.
Definition setCurrentTrial (f : nat -> nat) s := {|
  phase := phase s; countdown := countdown s; trials := trials s;
  currentTrial := f (currentTrial s); trialStart := trialStart s;
  results := results s; feedback := feedback s;
  showFixation := showFixation s; showStimulus := showStimulus s;
  responded := responded s |}.
Definition setTrialStart v s := {|
  phase := phase s; countdown := countdown s; trials := trials s;
  currentTrial := currentTrial s; trialStart := v;
  results := results s; feedback := feedback s;
  showFixation := showFixation s; showStimulus := showStimulus s;
  responded := responded s |}.
Definition setResults (f : list TrialResult -> list TrialResult) s := {|
  phase := phase s; countdown := countdown s; trials := trials s;
  currentTrial := currentTrial s; trialStart := trialStart s;
  results := f (results s); feedback := feedback s;
  showFixation := showFixation s; showStimulus := showStimulus s;
  responded := responded s |}.
Definition setFeedback v s := {|
  phase := phase s; countdown := countdown s; trials := trials s;
  currentTrial := currentTrial s; trialStart := trialStart s;
  results := results s; feedback := v;
  showFixation := showFixation s; showStimulus := showStimulus s;
  responded := responded s |}.
Definition setShowFixation v s := {|
  phase := phase s; countdown := countdown s; trials := trials s;
  currentTrial := currentTrial s; trialStart := trialStart s;
  results := results s; feedback := feedback s;
  showFixation := v; showStimulus := showStimulus s;
  responded := responded s |}.
Definition setShowStimulus v s := {|
  phase := phase s; countdown := countdown s; trials := trials s;
  currentTrial := currentTrial s; trialStart := trialStart s;
  results := results s; feedback := feedback s;
  showFixation := showFixation s; showStimulus := v;
  responded := responded s |}.
Definition setResponded v s := {|
  phase := phase s; countdown := countdown s; trials := trials s;
  currentTrial := currentTrial s; trialStart := trialStart s;
  results := results s; feedback := feedback s;
  showFixation := showFixation s; showStimulus := showStimulus s;
  responded := v |}.

Definition startGame (rng : JS.Rng) (k : nat) (s : State) : option State :=
  match generateTrials rng k with
  | Some (ts, _) => Some (s |> setTrials ts |> setPhase Countdown |> setCountdown 3)
  | None => None
  end.

(** The countdown effect: one tick of its timer, or the switch to play. *)
Definition countdownEffect (s : State) : State :=
  if GamePhase_eqb (phase s) Countdown && (0 <? countdown s) then
    s |> setCountdown (countdown s - 1)
  else if GamePhase_eqb (phase s) Countdown && (countdown s =? 0) then
    s |> setPhase Playing |> setCurrentTrial (fun _ => 0) |> setResults (fun _ => [])
      |> setShowFixation true |> setResponded false
  else s.

(** The fixation timer; [now] is [Date.now()] when it fires. *)
Definition fixationTimer (now : Z) (s : State) : State :=
  if GamePhase_eqb (phase s) Playing && showFixation s then
    s |> setShowFixation false |> setShowStimulus true |> setTrialStart now
      |> setResponded false
  else s.

Definition feedbackOf (correct : bool) : option FeedbackKind :=
  Some (if correct then Correct else Incorrect).

(** The stimulus timer: nobody responded within [STIMULUS_DURATION].  With
    no current trial, reading [trial.type] throws before any update. *)
Definition stimulusTimeout (s : State) : State :=
  if GamePhase_eqb (phase s) Playing && showStimulus s && negb (responded s) then
    match trials s !! currentTrial s with
    | None => s
    | Some trial =>
        let correct := TrialType_eqb (type trial) nogo in
        let result := {| r_trial := trial; r_responded := false;
                         r_correct := correct; r_responseTime := None |} in
        s |> setResults (fun prev => prev ++ [result])
          |> setFeedback (feedbackOf correct)
          |> setShowStimulus false
          |> setPhase Feedback
    end
  else s.

(** [handleResponse]; [now] is [Date.now()].  With no current trial, reading
    [trial.type] throws after [setResponded(true)] was issued. *)
Definition handleResponse (now : Z) (s : State) : State :=
  if negb (GamePhase_eqb (phase s) Playing) || negb (showStimulus s) || responded s
  then s
  else
    let responseTime := (now - trialStart s)%Z in
    match trials s !! currentTrial s with
    | None => s |> setResponded true
    | Some trial =>
        let correct := TrialType_eqb (type trial) go in
        let result := {| r_trial := trial; r_responded := true;
                         r_correct := correct;
                         r_responseTime := Some responseTime |} in
        s |> setResponded true
          |> setResults (fun prev => prev ++ [result])
          |> setFeedback (feedbackOf correct)
          |> setShowStimulus false
          |> setPhase Feedback
    end.

Definition feedbackTimer (s : State) : State :=
  if GamePhase_eqb (phase s) Feedback then
    let s1 := s |> setFeedback None in
    if TOTAL_TRIALS <=? currentTrial s + 1 then s1 |> setPhase Results
    else s1 |> setCurrentTrial (fun prev => prev + 1) |> setShowFixation true
            |> setPhase Playing
  else s.

(** One transition of the component: a button, a key or a timer. *)
Inductive step : State -> State -> Prop :=
| step_startGame rng k s s' :
    JS.in01 rng -> startGame rng k s = Some s' -> step s s'
| step_countdown s : step s (countdownEffect s)
| step_fixation now s : step s (fixationTimer now s)
| step_timeout s : step s (stimulusTimeout s)
| step_response now s : step s (handleResponse now s)
| step_feedback s : step s (feedbackTimer s).

Definition reachable : State -> Prop := rtc step initial.

(** [overallAccuracy] and the other figures of the results screen. *)
Record Stats := {
  hitRate : Q;
  correctRejectionRate : Q;
  falseAlarmRate : Q;
  avgGoRT : Q;
  overallAccuracy : Q;
}.

(** [calculateStats].  The quotients are binary64 ([JS.div], [JS.mul],
    [JS.sub]).  A figure that the source divides without a guard is
    0/0 = [NaN] for an empty [results]; the embedding has no [NaN], and the
    statements about such a figure take [results] non-empty. *)
Definition calculateStats (results : list TrialResult) : Stats :=
  let goTrials := List.filter (fun r => TrialType_eqb (type (r_trial r)) go) results in
  let nogoTrials := List.filter (fun r => TrialType_eqb (type (r_trial r)) nogo) results in
  let goCorrect := List.filter r_correct goTrials in
  let nogoCorrect := List.filter r_correct nogoTrials in
  let hitRate :=
    if 0 <? length goTrials
    then JS.mul (JS.div (JS.num (length goCorrect))
                         (JS.num (length goTrials))) 100 else 0%Q in
  let correctRejectionRate :=
    if 0 <? length nogoTrials
    then JS.mul (JS.div (JS.num (length nogoCorrect))
                         (JS.num (length nogoTrials))) 100 else 0%Q in
  let falseAlarmRate :=
    if 0 <? length nogoTrials
    then JS.mul (JS.div (JS.num (length nogoTrials - length nogoCorrect))
                         (JS.num (length nogoTrials))) 100
    else 0%Q in
  (* filter(r => r.responseTime !== null).map(r => r.responseTime) *)
  let goResponseTimes := omap r_responseTime goCorrect in
  let avgGoRT :=
    if 0 <? length goResponseTimes
    then JS.div (JS.sumZ goResponseTimes)
                 (JS.num (length goResponseTimes)) else 0%Q in
  let overallAccuracy :=
    JS.mul (JS.div (JS.num (length (List.filter r_correct results)))
                    (JS.num (length results))) 100 in
  {| hitRate := hitRate; correctRejectionRate := correctRejectionRate;
     falseAlarmRate := falseAlarmRate; avgGoRT := avgGoRT;
     overallAccuracy := overallAccuracy |}.

End GoNoGo.

(** ** Flanker (games/attention-inhibition/FlankerTask.tsx) *)

Module FlankerTask.

Inductive GamePhase := Instructions | Countdown | Playing | Feedback | Results.
Inductive TrialType := congruent | incongruent | neutral.
Inductive Direction := left | right.

Record Trial := {
  arrows : string;
  targetDirection : Direction;
  type : TrialType;
}.

Record TrialResult := {
  r_trial : Trial;
  r_response : Direction;
  r_correct : bool;
  r_responseTime : Z;
}.

Definition TOTAL_TRIALS : nat := 24.

Definition GamePhase_eqb (a b : GamePhase) : bool :=
  match a, b with
  | Instructions, Instructions | Countdown, Countdown | Playing, Playing
  | Feedback, Feedback | Results, Results => true
  | _, _ => false
  end.

Definition TrialType_eqb (a b : TrialType) : bool :=
  match a, b with
  | congruent, congruent | incongruent, incongruent | neutral, neutral => true
  | _, _ => false
  end.

Definition Direction_eqb (a b : Direction) : bool :=
  match a, b with left, left | right, right => true | _, _ => false end.

Inductive FeedbackKind := Correct | Incorrect.

Record State := {
  phase : GamePhase;
  countdown : nat;
  trials : list Trial;
  currentTrial : nat;
  trialStart : Z;
  results : list TrialResult;
  feedback : option FeedbackKind;
  showFixation : bool;
}.

Definition setPhase v s := {|
  phase := v; countdown := countdown s; trials := trials s;
  currentTrial := currentTrial s; trialStart := trialStart s;
  results := results s; feedback := feedback s; showFixation := showFixation s |}.
Definition setResults (f : list TrialResult -> list TrialResult) s := {|
  phase := phase s; countdown := countdown s; trials := trials s;
  currentTrial := currentTrial s; trialStart := trialStart s;
  results := f (results s); feedback := feedback s;
  showFixation := showFixation s |}.
Definition setFeedback v s := {|
  phase := phase s; countdown := countdown s; trials := trials s;
  currentTrial := currentTrial s; trialStart := trialStart s;
  results := results s; feedback := v; showFixation := showFixation s |}.

(** [handleResponse(response)]; [now] is [Date.now()]. *)
Definition handleResponse (response : Direction) (now : Z) (s : State) : State :=
  if negb (GamePhase_eqb (phase s) Playing) || showFixation s
     || negb (JS.defined (trials s !! currentTrial s))
  then s
  else
    match trials s !! currentTrial s with
    | Some trial =>
        let responseTime := (now - trialStart s)%Z in
        let correct := Direction_eqb response (targetDirection trial) in
        let result := {| r_trial := trial; r_response := response;
                         r_correct := correct; r_responseTime := responseTime |} in
        s |> setResults (fun prev => prev ++ [result])
          |> setFeedback (Some (if correct then Correct else Incorrect))
          |> setPhase Feedback
    | None => s      (* excluded by the guard *)
    end.

Record Stats := {
  accuracy : Q;
  avgResponseTime : Q;
  flankerEffect : Q;
  congruentRT : Q;
  incongruentRT : Q;
  congruentAcc : Q;
  incongruentAcc : Q;
}.

(** [calculateStats].  The quotients are binary64 ([JS.div], [JS.mul],
    [JS.sub]).  A figure that the source divides without a guard is
    0/0 = [NaN] for an empty [results]; the embedding has no [NaN], and the
    statements about such a figure take [results] non-empty. *)
Definition calculateStats (results : list TrialResult) : Stats :=
  let correctTrials := List.filter r_correct results in
  let accuracy := JS.mul (JS.div (JS.num (length correctTrials))
                                  (JS.num (length results))) 100 in
  let avgResponseTime :=
    JS.div (JS.sumZ (map r_responseTime results)) (JS.num (length results)) in
  let congruentTrials :=
    List.filter (fun r => TrialType_eqb (type (r_trial r)) congruent) results in
  let incongruentTrials :=
    List.filter (fun r => TrialType_eqb (type (r_trial r)) incongruent) results in
  let congruentRT :=
    if 0 <? length congruentTrials
    then JS.div (JS.sumZ (map r_responseTime congruentTrials))
                 (JS.num (length congruentTrials))
    else 0%Q in
  let incongruentRT :=
    if 0 <? length incongruentTrials
    then JS.div (JS.sumZ (map r_responseTime incongruentTrials))
                 (JS.num (length incongruentTrials))
    else 0%Q in
  let flankerEffect := JS.sub incongruentRT congruentRT in
  let congruentAcc :=
    if 0 <? length congruentTrials
    then JS.mul (JS.div (JS.num (length (List.filter r_correct congruentTrials)))
                         (JS.num (length congruentTrials))) 100
    else 0%Q in
  let incongruentAcc :=
    if 0 <? length incongruentTrials
    then JS.mul (JS.div (JS.num (length (List.filter r_correct incongruentTrials)))
                         (JS.num (length incongruentTrials))) 100
    else 0%Q in
  {| accuracy := accuracy; avgResponseTime := avgResponseTime;
     flankerEffect := flankerEffect; congruentRT := congruentRT;
     incongruentRT := incongruentRT; congruentAcc := congruentAcc;
     incongruentAcc := incongruentAcc |}.

(** The arrow string of a trial, built as the template literals of the
    [switch] do. *)
Definition arrowsFor (ty : TrialType) (dir : Direction) : string :=
  let target := match dir with left => "←" | right => "→" end in
  let opposite := match dir with left => "→" | right => "←" end in
  match ty with
  | congruent => target +:+ target +:+ target +:+ target +:+ target
  | incongruent => opposite +:+ opposite +:+ target +:+ opposite +:+ opposite
  | neutral => "—" +:+ target +:+ "—"
  end.

Definition types : list TrialType :=
  [congruent; congruent; incongruent; incongruent; neutral; neutral].
Definition directions : list Direction := [left; right].

(** The loop [for (let i = 0; i < TOTAL_TRIALS; i++)] that fills [trials]
    before the shuffle, with [todo] rounds left.  An index past [types] or
    [directions] cannot arise from [i % length]; the embedding answers
    [None] there. *)
Fixpoint fillFrom (todo i : nat) (trials : list Trial) : option (list Trial) :=
  match todo with
  | O => Some trials
  | S todo' =>
      match types !! (i mod length types), directions !! (i mod 2) with
      | Some ty, Some dir =>
          fillFrom todo' (S i)
            (trials ++ [{| arrows := arrowsFor ty dir;
                           targetDirection := dir;
                           type := ty |}])
      | _, _ => None
      end
  end.

Definition generateTrials (rng : JS.Rng) (k : nat) : option (list Trial * nat) :=
  match fillFrom TOTAL_TRIALS 0 [] with
  | Some trials => JS.shuffle rng trials k
  | None => None
  end.

End FlankerTask.

(** ** Stroop (games/attention-inhibition/StroopTask.tsx) *)

Module StroopTask.

Inductive GamePhase := Instructions | Countdown | Playing | Feedback | Results.
Inductive SpeedLevel := slow | normal | fast.

Record Trial := {
  word : string;
  backgroundColor : string;
  backgroundColorName : string;
  isMatch : bool;
}.

Record TrialResult := {
  r_trial : Trial;
  r_response : bool;
  r_correct : bool;
  r_responseTime : Z;
}.

(** [SPEED_SETTINGS[level].trialDuration] *)
Definition trialDuration (level : SpeedLevel) : Z :=
  match level with slow => 3000 | normal => 2000 | fast => 1200 end.

Definition TOTAL_TRIALS : nat := 20.

Definition GamePhase_eqb (a b : GamePhase) : bool :=
  match a, b with
  | Instructions, Instructions | Countdown, Countdown | Playing, Playing
  | Feedback, Feedback | Results, Results => true
  | _, _ => false
  end.

Inductive FeedbackKind := Correct | Incorrect | Timeout.

Record State := {
  phase : GamePhase;
  speedLevel : SpeedLevel;
  countdown : nat;
  currentTrial : nat;
  trial : option Trial;
  trialStart : Z;
  timeLeft : Z;
  results : list TrialResult;
  feedback : option FeedbackKind;
}.

Definition setPhase v s := {|
  phase := v; speedLevel := speedLevel s; countdown := countdown s;
  currentTrial := currentTrial s; trial := trial s; trialStart := trialStart s;
  timeLeft := timeLeft s; results := results s; feedback := feedback s |}.
Definition setTimeLeft (f : Z -> Z) s := {|
  phase := phase s; speedLevel := speedLevel s; countdown := countdown s;
  currentTrial := currentTrial s; trial := trial s; trialStart := trialStart s;
  timeLeft := f (timeLeft s); results := results s; feedback := feedback s |}.
Definition setResults (f : list TrialResult -> list TrialResult) s := {|
  phase := phase s; speedLevel := speedLevel s; countdown := countdown s;
  currentTrial := currentTrial s; trial := trial s; trialStart := trialStart s;
  timeLeft := timeLeft s; results := f (results s); feedback := feedback s |}.
Definition setFeedback v s := {|
  phase := phase s; speedLevel := speedLevel s; countdown := countdown s;
  currentTrial := currentTrial s; trial := trial s; trialStart := trialStart s;
  timeLeft := timeLeft s; results := results s; feedback := v |}.

(** The per-trial clock: a 100 ms tick, or the timeout when it reaches 0. *)
Definition timerEffect (s : State) : State :=
  if GamePhase_eqb (phase s) Playing && (0 <? timeLeft s)%Z then
    s |> setTimeLeft (fun prev => Z.max 0 (prev - 100))
  else if GamePhase_eqb (phase s) Playing && (timeLeft s =? 0)%Z then
    match trial s with
    | Some t =>
        let result := {| r_trial := t; r_response := false; r_correct := false;
                         r_responseTime := trialDuration (speedLevel s) |} in
        s |> setResults (fun prev => prev ++ [result])
          |> setFeedback (Some Timeout)
          |> setPhase Feedback
    | None => s
    end
  else s.

(** [handleResponse(userSaysMatch)]; [now] is [Date.now()]. *)
Definition handleResponse (userSaysMatch : bool) (now : Z) (s : State) : State :=
  if negb (GamePhase_eqb (phase s) Playing) || negb (JS.defined (trial s)) then s
  else
    match trial s with
    | Some t =>
        let responseTime := (now - trialStart s)%Z in
        let correct := Bool.eqb userSaysMatch (isMatch t) in
        let result := {| r_trial := t; r_response := userSaysMatch;
                         r_correct := correct; r_responseTime := responseTime |} in
        s |> setResults (fun prev => prev ++ [result])
          |> setFeedback (Some (if correct then Correct else Incorrect))
          |> setPhase Feedback
    | None => s      (* excluded by the guard *)
    end.

Record Stats := {
  accuracy : Q;
  avgResponseTime : Q;
  matchAccuracy : Q;
  noMatchAccuracy : Q;
  timeouts : nat;
}.

(** [calculateStats].  The quotients are binary64 ([JS.div], [JS.mul],
    [JS.sub]).  A figure that the source divides without a guard is
    0/0 = [NaN] for an empty [results]; the embedding has no [NaN], and the
    statements about such a figure take [results] non-empty. *)
Definition calculateStats (speedLevel : SpeedLevel) (results : list TrialResult)
  : Stats :=
  let answeredTrials :=
    List.filter (fun r => (r_responseTime r <? trialDuration speedLevel)%Z) results in
  let correctTrials := List.filter r_correct results in
  let accuracy := JS.mul (JS.div (JS.num (length correctTrials))
                                  (JS.num (length results))) 100 in
  let avgResponseTime :=
    if 0 <? length answeredTrials
    then JS.div (JS.sumZ (map r_responseTime answeredTrials))
                 (JS.num (length answeredTrials))
    else 0%Q in
  let matchTrials := List.filter (fun r => isMatch (r_trial r)) results in
  let noMatchTrials := List.filter (fun r => negb (isMatch (r_trial r))) results in
  let matchAccuracy :=
    if 0 <? length matchTrials
    then JS.mul (JS.div (JS.num (length (List.filter r_correct matchTrials)))
                         (JS.num (length matchTrials))) 100
    else 0%Q in
  let noMatchAccuracy :=
    if 0 <? length noMatchTrials
    then JS.mul (JS.div (JS.num (length (List.filter r_correct noMatchTrials)))
                         (JS.num (length noMatchTrials))) 100
    else 0%Q in
  let timeouts :=
    length (List.filter (fun r => (trialDuration speedLevel <=? r_responseTime r)%Z)
              results) in
  {| accuracy := accuracy; avgResponseTime := avgResponseTime;
     matchAccuracy := matchAccuracy; noMatchAccuracy := noMatchAccuracy;
     timeouts := timeouts |}.

Record Color := { name : string; hex : string }.

Definition COLORS : list Color :=
  [ {| name := "RED"; hex := "#ef4444" |};
    {| name := "BLUE"; hex := "#3b82f6" |};
    {| name := "GREEN"; hex := "#22c55e" |};
    {| name := "YELLOW"; hex := "#eab308" |};
    {| name := "PURPLE"; hex := "#a855f7" |} ].

(** [do { backgroundIndex = floor(random * COLORS.length) }
     while (backgroundIndex === wordIndex)]; [fuel] bounds the rounds. *)
Fixpoint drawBackground (rng : JS.Rng) (fuel : nat) (wordIndex : Z) (k : nat)
  : option (Z * nat) :=
  match fuel with
  | O => None
  | S fuel' =>
      let backgroundIndex := JS.floor_mul (rng k) (length COLORS) in
      if (backgroundIndex =? wordIndex)%Z
      then drawBackground rng fuel' wordIndex (S k)
      else Some (backgroundIndex, S k)
  end.

(** [generateTrial].  Reading [.name] or [.hex] of an entry outside [COLORS]
    would throw; the embedding answers [None] there, as it does when the
    fuel of the loop runs out. *)
Definition generateTrial (rng : JS.Rng) (fuel k : nat) : option (Trial * nat) :=
  let isMatch := if Qlt_le_dec (1 # 2) (rng k) then true else false in
  let wordIndex := JS.floor_mul (rng (S k)) (length COLORS) in
  match JS.get COLORS wordIndex with
  | None => None
  | Some wordColor =>
      let word := name wordColor in
      match (if isMatch then Some (wordIndex, S (S k))
             else drawBackground rng fuel wordIndex (S (S k))) with
      | None => None
      | Some (backgroundIndex, k') =>
          match JS.get COLORS backgroundIndex with
          | None => None
          | Some background =>
              Some ({| word := word;
                       backgroundColor := hex background;
                       backgroundColorName := name background;
                       isMatch := isMatch |}, k')
          end
      end
  end.

End StroopTask.

(** ** Task Switching (games/processing-speed/TaskSwitching.tsx) *)

Module TaskSwitching.

Inductive TaskType := number_task | letter_task.   (* 'number' | 'letter' *)

Record Trial := {
  number : Z;
  letter : string;
  task : TaskType;
  isSwitch : bool;
}.

Record TrialResult := {
  r_trial : Trial;
  r_response : string;
  r_correct : bool;
  r_responseTime : Z;
}.

Definition TOTAL_TRIALS : nat := 32.

Record Stats := {
  accuracy : Q;
  avgRT : Q;
  switchRT : Q;
  repeatRT : Q;
  switchCost : Q;
  switchAcc : Q;
}.

(** [calculateStats].  The quotients are binary64 ([JS.div], [JS.mul],
    [JS.sub]).  A figure that the source divides without a guard is
    0/0 = [NaN] for an empty [results]; the embedding has no [NaN], and the
    statements about such a figure take [results] non-empty. *)
Definition calculateStats (results : list TrialResult) : Stats :=
  let correctTrials := List.filter r_correct results in
  let accuracy := JS.mul (JS.div (JS.num (length correctTrials))
                                  (JS.num (length results))) 100 in
  let avgRT := JS.div (JS.sumZ (map r_responseTime results))
                       (JS.num (length results)) in
  let switchTrials := List.filter (fun r => isSwitch (r_trial r)) results in
  let repeatTrials := List.filter (fun r => negb (isSwitch (r_trial r))) results in
  let switchRT :=
    if 0 <? length switchTrials
    then JS.div (JS.sumZ (map r_responseTime switchTrials))
                 (JS.num (length switchTrials))
    else 0%Q in
  let repeatRT :=
    if 0 <? length repeatTrials
    then JS.div (JS.sumZ (map r_responseTime repeatTrials))
                 (JS.num (length repeatTrials))
    else 0%Q in
  let switchCost := JS.sub switchRT repeatRT in
  let switchAcc :=
    if 0 <? length switchTrials
    then JS.mul (JS.div (JS.num (length (List.filter r_correct switchTrials)))
                         (JS.num (length switchTrials))) 100
    else 0%Q in
  {| accuracy := accuracy; avgRT := avgRT; switchRT := switchRT;
     repeatRT := repeatRT; switchCost := switchCost; switchAcc := switchAcc |}.

Definition NUMBERS : list Z := [1; 2; 3; 4; 6; 7; 8; 9]%Z.
Definition VOWELS : list string := ["A"; "E"; "I"; "U"].
Definition CONSONANTS : list string := ["G"; "K"; "M"; "R"].

Definition TaskType_eqb (a b : TaskType) : bool :=
  match a, b with
  | number_task, number_task | letter_task, letter_task => true
  | _, _ => false
  end.

(** The loop of [generateTrials], with [todo] rounds left; [newTrials] and
    [lastTask] are the variables of the same names.  [Math.random() < 0.3]
    is read only for [i > 0] with [i % 4 !== 0].  A number or letter read
    outside its list would be [undefined]; the embedding answers [None]. *)
Fixpoint generateFrom (rng : JS.Rng) (todo i : nat) (newTrials : list Trial)
    (lastTask : TaskType) (k : nat) : option (list Trial * nat) :=
  match todo with
  | O => Some (newTrials, k)
  | S todo' =>
      (* Alternate tasks with some switches *)
      let '(shouldSwitch, k1) :=
        if 0 <? i then
          if i mod 4 =? 0 then (true, k)
          else (if Qlt_le_dec (rng k) (3 # 10) then true else false, S k)
        else (false, k) in
      let task :=
        if shouldSwitch
        then (match lastTask with number_task => letter_task | letter_task => number_task end)
        else lastTask in
      let letters := VOWELS ++ CONSONANTS in
      match JS.get NUMBERS (JS.floor_mul (rng k1) (length NUMBERS)),
            JS.get letters (JS.floor_mul (rng (S k1)) (length letters)) with
      | Some number, Some letter =>
          generateFrom rng todo' (S i)
            (newTrials ++ [{| number := number; letter := letter; task := task;
                              isSwitch := (0 <? i) && negb (TaskType_eqb task lastTask) |}])
            task (S (S k1))
      | _, _ => None
      end
  end.

Definition generateTrials (rng : JS.Rng) (k : nat) : option (list Trial * nat) :=
  let lastTask := if Qlt_le_dec (1 # 2) (rng k) then number_task else letter_task in
  generateFrom rng TOTAL_TRIALS 0 [] lastTask (S k).

(** The judgement of a response in [handleResponse]. *)
Definition judge (trial : Trial) (response : string) : bool :=
  match task trial with
  | number_task =>
      let isEven := (Z.rem (number trial) 2 =? 0)%Z in
      (String.eqb response "even" && isEven)
      || (String.eqb response "odd" && negb isEven)
  | letter_task =>
      let isVowel := existsb (String.eqb (letter trial)) VOWELS in
      (String.eqb response "vowel" && isVowel)
      || (String.eqb response "consonant" && negb isVowel)
  end.

Inductive Key := key_Z | key_M.

(** The response that the key handler (and the two buttons) send for a key,
    depending on the task of the trial on screen. *)
Definition responseFor (t : TaskType) (key : Key) : string :=
  match t, key with
  | number_task, key_Z => "even"
  | number_task, key_M => "odd"
  | letter_task, key_Z => "vowel"
  | letter_task, key_M => "consonant"
  end.

End TaskSwitching.

(** ** Useful Field of View (games/processing-speed/UFOV.tsx) *)

Module UFOV.

Inductive GamePhase :=
  Instructions | Countdown | Fixation | Stimulus | Mask | Response | Feedback | Results.
Inductive CenterShape := car | truck.

(** [t_displayTime] is the trial's [displayTime]; the component state has a
    variable of the same name. *)
Record Trial := {
  centerShape : CenterShape;
  peripheralPosition : Z;
  t_displayTime : Z;
}.

Record TrialResult := {
  r_trial : Trial;
  r_centerResponse : CenterShape;
  r_peripheralResponse : Z;
  r_centerCorrect : bool;
  r_peripheralCorrect : bool;
}.

Definition TOTAL_TRIALS : nat := 16.
Definition POSITIONS : nat := 8.
Definition INITIAL_DISPLAY_TIME : Z := 500.

Definition GamePhase_eqb (a b : GamePhase) : bool :=
  match a, b with
  | Instructions, Instructions | Countdown, Countdown | Fixation, Fixation
  | Stimulus, Stimulus | Mask, Mask | Response, Response | Feedback, Feedback
  | Results, Results => true
  | _, _ => false
  end.

Definition CenterShape_eqb (a b : CenterShape) : bool :=
  match a, b with car, car | truck, truck => true | _, _ => false end.

Record FeedbackInfo := { center : bool; peripheral : bool }.

Record State := {
  phase : GamePhase;
  countdown : nat;
  currentTrial : nat;
  trial : option Trial;
  results : list TrialResult;
  centerResponse : option CenterShape;
  peripheralResponse : option Z;
  feedback : option FeedbackInfo;
  displayTime : Z;
}.

Definition initial : State := {|
  phase := Instructions; countdown := 3; currentTrial := 0; trial := None;
  results := []; centerResponse := None; peripheralResponse := None;
  feedback := None; displayTime := INITIAL_DISPLAY_TIME |}.

Definition setPhase v s := {|
  phase := v; countdown := countdown s; currentTrial := currentTrial s;
  trial := trial s; results := results s; centerResponse := centerResponse s;
  peripheralResponse := peripheralResponse s; feedback := feedback s;
  displayTime := displayTime s |}.
Definition setCountdown v s := {|
  phase := phase s; countdown := v; currentTrial := currentTrial s;
  trial := trial s; results := results s; centerResponse := centerResponse s;
  peripheralResponse := peripheralResponse s; feedback := feedback s;
  displayTime := displayTime s |}.
Definition setCurrentTrial (f : nat -> nat) s := {|
  phase := phase s; countdown := countdown s; currentTrial := f (currentTrial s);
  trial := trial s; results := results s; centerResponse := centerResponse s;
  peripheralResponse := peripheralResponse s; feedback := feedback s;
  displayTime := displayTime s |}.
Definition setTrial v s := {|
  phase := phase s; countdown := countdown s; currentTrial := currentTrial s;
  trial := v; results := results s; centerResponse := centerResponse s;
  peripheralResponse := peripheralResponse s; feedback := feedback s;
  displayTime := displayTime s |}.
Definition setResults (f : list TrialResult -> list TrialResult) s := {|
  phase := phase s; countdown := countdown s; currentTrial := currentTrial s;
  trial := trial s; results := f (results s); centerResponse := centerResponse s;
  peripheralResponse := peripheralResponse s; feedback := feedback s;
  displayTime := displayTime s |}.
Definition setCenterResponse v s := {|
  phase := phase s; countdown := countdown s; currentTrial := currentTrial s;
  trial := trial s; results := results s; centerResponse := v;
  peripheralResponse := peripheralResponse s; feedback := feedback s;
  displayTime := displayTime s |}.
Definition setPeripheralResponse v s := {|
  phase := phase s; countdown := countdown s; currentTrial := currentTrial s;
  trial := trial s; results := results s; centerResponse := centerResponse s;
  peripheralResponse := v; feedback := feedback s;
  displayTime := displayTime s |}.
Definition setFeedback v s := {|
  phase := phase s; countdown := countdown s; currentTrial := currentTrial s;
  trial := trial s; results := results s; centerResponse := centerResponse s;
  peripheralResponse := peripheralResponse s; feedback := v;
  displayTime := displayTime s |}.
Definition setDisplayTime (f : Z -> Z) s := {|
  phase := phase s; countdown := countdown s; currentTrial := currentTrial s;
  trial := trial s; results := results s; centerResponse := centerResponse s;
  peripheralResponse := peripheralResponse s; feedback := feedback s;
  displayTime := f (displayTime s) |}.

(** [generateTrial]: two [Math.random()] values, in the order of the
    properties of the object literal. *)
Definition generateTrial (rng : JS.Rng) (k : nat) (s : State) : Trial * nat :=
  ({| centerShape := if Qlt_le_dec (1 # 2) (rng k) then car else truck;
      peripheralPosition := JS.floor_mul (rng (S k)) POSITIONS;
      t_displayTime := displayTime s |}, S (S k)).

Definition startGame (s : State) : State :=
  s |> setPhase Countdown |> setCountdown 3
    |> setDisplayTime (fun _ => INITIAL_DISPLAY_TIME).

Definition countdownEffect (s : State) : State :=
  if GamePhase_eqb (phase s) Countdown && (0 <? countdown s) then
    s |> setCountdown (countdown s - 1)
  else if GamePhase_eqb (phase s) Countdown && (countdown s =? 0) then
    s |> setCurrentTrial (fun _ => 0) |> setResults (fun _ => [])
      |> setPhase Fixation
  else s.

(** The fixation effect draws the trial when the phase is entered ... *)
Definition fixationEffect (rng : JS.Rng) (k : nat) (s : State) : State :=
  if GamePhase_eqb (phase s) Fixation then
    s |> setTrial (Some (fst (generateTrial rng k s)))
  else s.

(** ... and its timer shows the stimulus. *)
Definition fixationTimer (s : State) : State :=
  if GamePhase_eqb (phase s) Fixation then s |> setPhase Stimulus else s.

Definition stimulusTimer (s : State) : State :=
  if GamePhase_eqb (phase s) Stimulus && JS.defined (trial s)
  then s |> setPhase Mask else s.

Definition maskTimer (s : State) : State :=
  if GamePhase_eqb (phase s) Mask then
    s |> setCenterResponse None |> setPeripheralResponse None |> setPhase Response
  else s.

Definition handleCenterResponse (response : CenterShape) (s : State) : State :=
  s |> setCenterResponse (Some response).

Definition handlePeripheralResponse (position : Z) (s : State) : State :=
  s |> setPeripheralResponse (Some position).

Definition handleSubmitResponse (s : State) : State :=
  match centerResponse s, peripheralResponse s, trial s with
  | Some centerResponse, Some peripheralResponse, Some trial =>
      let centerCorrect := CenterShape_eqb centerResponse (centerShape trial) in
      let peripheralCorrect := (peripheralResponse =? peripheralPosition trial)%Z in
      let result := {| r_trial := trial; r_centerResponse := centerResponse;
                       r_peripheralResponse := peripheralResponse;
                       r_centerCorrect := centerCorrect;
                       r_peripheralCorrect := peripheralCorrect |} in
      let s1 := s |> setResults (fun prev => prev ++ [result])
                  |> setFeedback (Some {| center := centerCorrect;
                                          peripheral := peripheralCorrect |}) in
      (* Adjust difficulty *)
      let s2 := if centerCorrect && peripheralCorrect
                then s1 |> setDisplayTime (fun prev => Z.max (prev - 50) 50)
                else s1 |> setDisplayTime (fun prev => Z.min (prev + 50) 500) in
      s2 |> setPhase Feedback
  | _, _, _ => s   (* centerResponse === null || peripheralResponse === null || !trial *)
  end.

Definition feedbackTimer (s : State) : State :=
  if GamePhase_eqb (phase s) Feedback then
    let s1 := s |> setFeedback None in
    if TOTAL_TRIALS <=? currentTrial s + 1 then s1 |> setPhase Results
    else s1 |> setCurrentTrial (fun prev => prev + 1) |> setPhase Fixation
  else s.

(** One transition of the component.  The buttons are offered in every
    state here, which only adds transitions to those of the page. *)
Inductive step : State -> State -> Prop :=
| step_startGame s : step s (startGame s)
| step_countdown s : step s (countdownEffect s)
| step_fixationEffect rng k s : JS.in01 rng -> step s (fixationEffect rng k s)
| step_fixationTimer s : step s (fixationTimer s)
| step_stimulus s : step s (stimulusTimer s)
| step_mask s : step s (maskTimer s)
| step_center r s : step s (handleCenterResponse r s)
| step_peripheral p s : step s (handlePeripheralResponse p s)
| step_submit s : step s (handleSubmitResponse s)
| step_feedback s : step s (feedbackTimer s).

Definition reachable : State -> Prop := rtc step initial.

Record Stats := {
  centerAccuracy : Q;
  peripheralAccuracy : Q;
  overallAccuracy : Q;
  avgDisplayTime : Q;
}.

(** [calculateStats].  The quotients are binary64 ([JS.div], [JS.mul],
    [JS.sub]).  A figure that the source divides without a guard is
    0/0 = [NaN] for an empty [results]; the embedding has no [NaN], and the
    statements about such a figure take [results] non-empty. *)
Definition calculateStats (results : list TrialResult) : Stats :=
  let centerCorrect := length (List.filter r_centerCorrect results) in
  let peripheralCorrect := length (List.filter r_peripheralCorrect results) in
  let bothCorrect :=
    length (List.filter (fun r => r_centerCorrect r && r_peripheralCorrect r)
              results) in
  let centerAccuracy := JS.mul (JS.div (JS.num centerCorrect)
                                        (JS.num (length results))) 100 in
  let peripheralAccuracy :=
    JS.mul (JS.div (JS.num peripheralCorrect) (JS.num (length results))) 100 in
  let overallAccuracy := JS.mul (JS.div (JS.num bothCorrect)
                                         (JS.num (length results))) 100 in
  let avgDisplayTime :=
    JS.div (JS.sumZ (map (fun r => t_displayTime (r_trial r)) results))
            (JS.num (length results)) in
  {| centerAccuracy := centerAccuracy; peripheralAccuracy := peripheralAccuracy;
     overallAccuracy := overallAccuracy; avgDisplayTime := avgDisplayTime |}.

End UFOV.

(** ** N-Back (games/working-memory/NBack.tsx) *)

Module NBack.

Inductive GamePhase := Instructions | Countdown | Playing | Results.

Record TrialResult := {
  r_position : nat;
  r_isTarget : bool;
  r_responded : bool;
  r_correct : bool;
}.

Definition LETTERS : list string :=
  ["B"; "C"; "D"; "F"; "G"; "H"; "J"; "K"; "L"; "M";
   "N"; "P"; "Q"; "R"; "S"; "T"; "V"; "W"; "X"; "Z"].
Definition TOTAL_TRIALS : nat := 25.
(** 0.3; in binary64 the product 25 * 0.3 is 7.5, as it is here. *)
Definition TARGET_RATIO : Q := 3 # 10.

Definition GamePhase_eqb (a b : GamePhase) : bool :=
  match a, b with
  | Instructions, Instructions | Countdown, Countdown | Playing, Playing
  | Results, Results => true
  | _, _ => false
  end.

Definition targetCount : nat :=
  Z.to_nat (Qfloor (inject_Z (Z.of_nat TOTAL_TRIALS) * TARGET_RATIO)).

(** [letter === seq[j]] *)
Definition same_letter (letter : string) (other : option string) : bool :=
  match other with
  | Some l => String.eqb letter l
  | None => false
  end.

(** The inner loop of [generateSequence]:
    [do { letter = LETTERS[floor(random * LETTERS.length)] }
     while (i >= n && letter === seq[i - n])].
    It runs for as long as the oracle repeats the forbidden letter; [fuel]
    bounds the number of rounds.  A letter read outside [LETTERS] would be
    [undefined]; the embedding answers [None] there as well. *)
Fixpoint drawLetter (rng : JS.Rng) (fuel n i : nat) (seq : list string) (k : nat)
  : option (string * nat) :=
  match fuel with
  | O => None
  | S fuel' =>
      match JS.get LETTERS (JS.floor_mul (rng k) (length LETTERS)) with
      | None => None
      | Some letter =>
          if (n <=? i) && same_letter letter (seq !! (i - n))
          then drawLetter rng fuel' n i seq (S k)
          else Some (letter, S k)
      end
  end.

(** The outer loop [for (let i = 0; i < TOTAL_TRIALS; i++)], with [todo]
    rounds left.  [Math.random() < 0.4] is read only when the two tests
    before it in the conjunction hold. *)
Fixpoint generateFrom (rng : JS.Rng) (fuel n todo i : nat) (seq : list string)
    (currentTargets k : nat) : option (list string * nat) :=
  match todo with
  | O => Some (seq, k)
  | S todo' =>
      let nonMatching k0 :=
        match drawLetter rng fuel n i seq k0 with
        | Some (letter, k1) =>
            generateFrom rng fuel n todo' (S i) (seq ++ [letter]) currentTargets k1
        | None => None
        end in
      if (n <=? i) && (currentTargets <? targetCount) then
        if Qlt_le_dec (rng k) (4 # 10) then
          (* Create a target by repeating letter from n positions back *)
          match seq !! (i - n) with
          | Some letter =>
              generateFrom rng fuel n todo' (S i) (seq ++ [letter])
                (S currentTargets) (S k)
          | None => None
          end
        else nonMatching (S k)
      else nonMatching k
  end.

Definition generateSequence (rng : JS.Rng) (fuel n k : nat)
  : option (list string * nat) :=
  generateFrom rng fuel n TOTAL_TRIALS 0 [] 0 k.

(** *** Component state *)

Inductive FeedbackKind := Correct | Incorrect.

Record State := {
  phase : GamePhase;
  nLevel : nat;
  countdown : nat;
  sequence : list string;
  currentIndex : nat;
  currentLetter : option string;
  showLetter : bool;
  results : list TrialResult;
  responded : bool;
  lastFeedback : option FeedbackKind;
}.

Definition setPhase v s := {|
  phase := v; nLevel := nLevel s; countdown := countdown s;
  sequence := sequence s; currentIndex := currentIndex s;
  currentLetter := currentLetter s; showLetter := showLetter s;
  results := results s; responded := responded s;
  lastFeedback := lastFeedback s |}.
Definition setCurrentIndex (f : nat -> nat) s := {|
  phase := phase s; nLevel := nLevel s; countdown := countdown s;
  sequence := sequence s; currentIndex := f (currentIndex s);
  currentLetter := currentLetter s; showLetter := showLetter s;
  results := results s; responded := responded s;
  lastFeedback := lastFeedback s |}.
Definition setCurrentLetter v s := {|
  phase := phase s; nLevel := nLevel s; countdown := countdown s;
  sequence := sequence s; currentIndex := currentIndex s;
  currentLetter := v; showLetter := showLetter s;
  results := results s; responded := responded s;
  lastFeedback := lastFeedback s |}.
Definition setShowLetter v s := {|
  phase := phase s; nLevel := nLevel s; countdown := countdown s;
  sequence := sequence s; currentIndex := currentIndex s;
  currentLetter := currentLetter s; showLetter := v;
  results := results s; responded := responded s;
  lastFeedback := lastFeedback s |}.
Definition setResults (f : list TrialResult -> list TrialResult) s := {|
  phase := phase s; nLevel := nLevel s; countdown := countdown s;
  sequence := sequence s; currentIndex := currentIndex s;
  currentLetter := currentLetter s; showLetter := showLetter s;
  results := f (results s); responded := responded s;
  lastFeedback := lastFeedback s |}.
Definition setResponded v s := {|
  phase := phase s; nLevel := nLevel s; countdown := countdown s;
  sequence := sequence s; currentIndex := currentIndex s;
  currentLetter := currentLetter s; showLetter := showLetter s;
  results := results s; responded := v;
  lastFeedback := lastFeedback s |}.
Definition setLastFeedback v s := {|
  phase := phase s; nLevel := nLevel s; countdown := countdown s;
  sequence := sequence s; currentIndex := currentIndex s;
  currentLetter := currentLetter s; showLetter := showLetter s;
  results := results s; responded := responded s;
  lastFeedback := v |}.

(** [currentIndex >= nLevel && sequence[currentIndex] === sequence[currentIndex - nLevel]],
    the test that the handler and the stimulus timer both make. *)
Definition isTarget (nLevel : nat) (sequence : list string) (currentIndex : nat)
  : bool :=
  (nLevel <=? currentIndex)
  && bool_decide (sequence !! currentIndex = sequence !! (currentIndex - nLevel)).

Definition handleResponse (s : State) : State :=
  if negb (GamePhase_eqb (phase s) Playing) || responded s then s
  else
    let isTarget := isTarget (nLevel s) (sequence s) (currentIndex s) in
    let correct := isTarget in
    s |> setResponded true
      |> setResults (fun prev => prev ++ [{| r_position := currentIndex s;
                                             r_isTarget := isTarget;
                                             r_responded := true;
                                             r_correct := correct |}])
      |> setLastFeedback (Some (if correct then Correct else Incorrect)).

(** The timer that hides the letter after [STIMULUS_DURATION]. *)
Definition letterTimer (s : State) : State :=
  if GamePhase_eqb (phase s) Playing && showLetter s then
    let s1 := s |> setShowLetter false in
    let isTarget := isTarget (nLevel s) (sequence s) (currentIndex s) in
    if negb (responded s) then
      let correct := negb isTarget in
      let s2 := s1 |> setResults (fun prev => prev ++ [{| r_position := currentIndex s;
                                                          r_isTarget := isTarget;
                                                          r_responded := false;
                                                          r_correct := correct |}]) in
      if isTarget then s2 |> setLastFeedback (Some Incorrect) else s2
    else s1
  else s.

(** The timer that ends the inter-stimulus interval. *)
Definition isiTimer (s : State) : State :=
  if GamePhase_eqb (phase s) Playing && negb (showLetter s) then
    let s1 := s |> setLastFeedback None in
    if TOTAL_TRIALS <=? currentIndex s + 1 then s1 |> setPhase Results
    else s1 |> setCurrentIndex (fun prev => prev + 1)
            |> setCurrentLetter (sequence s !! (currentIndex s + 1))
            |> setShowLetter true
            |> setResponded false
  else s.

(** The number of positions of a sequence that the n-back target test
    accepts. *)
Definition countTargets (n : nat) (sequence : list string) : nat :=
  length (List.filter (isTarget n sequence) (List.seq 0 (length sequence))).


(** *** The rest of the component: level, start, countdown, results *)

Definition setNLevel v s := {|
  phase := phase s; nLevel := v; countdown := countdown s;
  sequence := sequence s; currentIndex := currentIndex s;
  currentLetter := currentLetter s; showLetter := showLetter s;
  results := results s; responded := responded s;
  lastFeedback := lastFeedback s |}.
Definition setCountdown v s := {|
  phase := phase s; nLevel := nLevel s; countdown := v;
  sequence := sequence s; currentIndex := currentIndex s;
  currentLetter := currentLetter s; showLetter := showLetter s;
  results := results s; responded := responded s;
  lastFeedback := lastFeedback s |}.
Definition setSequence v s := {|
  phase := phase s; nLevel := nLevel s; countdown := countdown s;
  sequence := v; currentIndex := currentIndex s;
  currentLetter := currentLetter s; showLetter := showLetter s;
  results := results s; responded := responded s;
  lastFeedback := lastFeedback s |}.

(** The state that the [useState] calls set up. *)
Definition initial : State := {|
  phase := Instructions; nLevel := 2; countdown := 3; sequence := [];
  currentIndex := 0; currentLetter := None; showLetter := false;
  results := []; responded := false; lastFeedback := None |}.

(** [startGame]; the random values are read from [rng] at cursor [k], and
    the result is [None] when a letter draw runs out of [fuel]. *)
Definition startGame (rng : JS.Rng) (fuel k : nat) (s : State) : option State :=
  match generateSequence rng fuel (nLevel s) k with
  | Some (seq, _) =>
      Some (s |> setSequence seq |> setPhase Countdown |> setCountdown 3)
  | None => None
  end.

(** The countdown effect, run when its one-second timer fires or, at zero,
    when the effect itself runs. *)
Definition countdownEffect (s : State) : State :=
  if GamePhase_eqb (phase s) Countdown && (0 <? countdown s) then
    s |> setCountdown (countdown s - 1)
  else if GamePhase_eqb (phase s) Countdown && (countdown s =? 0) then
    s |> setPhase Playing
      |> setCurrentIndex (fun _ => 0)
      |> setResults (fun _ => [])
      |> setShowLetter true
      |> setCurrentLetter (sequence s !! 0)
      |> setResponded false
  else s.

(** One transition of the component.  The level buttons 1, 2 and 3 exist on
    the instructions screen only, the start button there and on the results
    screen; the response handler also hangs on the keyboard and is always
    within reach. *)
Inductive step : State -> State -> Prop :=
| step_setNLevel s level :
    phase s = Instructions -> level ∈ [1; 2; 3] -> step s (setNLevel level s)
| step_startGame s rng fuel k s' :
    phase s = Instructions \/ phase s = Results ->
    startGame rng fuel k s = Some s' -> step s s'
| step_countdown s : step s (countdownEffect s)
| step_letterTimer s : step s (letterTimer s)
| step_isiTimer s : step s (isiTimer s)
| step_response s : step s (handleResponse s).

Definition reachable : State -> Prop := rtc step initial.

(** [calculateStats], without [dPrime], a logarithm of floating-point
    quotients that the embedding does not compute. *)
Record Stats := {
  hitRate : Q;
  falseAlarmRate : Q;
  accuracy : Q;
  hits : nat;
  misses : nat;
  falseAlarms : nat;
  correctRejections : nat;
}.

(** [calculateStats].  The quotients are binary64 ([JS.div], [JS.mul]);
    every division is guarded by a test of the divisor. *)
Definition calculateStats (results : list TrialResult) : Stats :=
  let targetTrials := List.filter r_isTarget results in
  let nonTargetTrials := List.filter (fun r => negb (r_isTarget r)) results in
  let hits :=
    length (List.filter (fun r => r_responded r && r_correct r) targetTrials) in
  let misses := length (List.filter (fun r => negb (r_responded r)) targetTrials) in
  let correctRejections :=
    length (List.filter (fun r => negb (r_responded r)) nonTargetTrials) in
  let falseAlarms := length (List.filter r_responded nonTargetTrials) in
  let hitRate :=
    if 0 <? length targetTrials
    then JS.mul (JS.div (JS.num hits)
                         (JS.num (length targetTrials))) 100 else 0%Q in
  let falseAlarmRate :=
    if 0 <? length nonTargetTrials
    then JS.mul (JS.div (JS.num falseAlarms)
                         (JS.num (length nonTargetTrials))) 100 else 0%Q in
  let accuracy :=
    if 0 <? length results
    then JS.mul (JS.div (JS.num (length (List.filter r_correct results)))
                         (JS.num (length results))) 100
    else 0%Q in
  {| hitRate := hitRate; falseAlarmRate := falseAlarmRate; accuracy := accuracy;
     hits := hits; misses := misses; falseAlarms := falseAlarms;
     correctRejections := correctRejections |}.

End NBack.

(** ** Tower of Hanoi (games/reasoning-problem-solving/TowerOfHanoi.tsx) *)

Module TowerOfHanoi.

Inductive GamePhase := Instructions | Countdown | Playing | Results.

Record Disk := { id : nat; size : nat }.

(** The indices 0, 1 and 2 of the tuple [Towers], under the labels the page
    gives them. *)
Inductive TowerIndex := Start | Middle | Goal.

(** [[Disk[], Disk[], Disk[]]]; a tower lists its disks from the bottom up. *)
Definition Towers : Type := list Disk * list Disk * list Disk.

Definition GamePhase_eqb (a b : GamePhase) : bool :=
  match a, b with
  | Instructions, Instructions | Countdown, Countdown | Playing, Playing
  | Results, Results => true
  | _, _ => false
  end.

Definition TowerIndex_eqb (a b : TowerIndex) : bool :=
  match a, b with
  | Start, Start | Middle, Middle | Goal, Goal => true
  | _, _ => false
  end.

(** [towers[i]] *)
Definition tower (towers : Towers) (i : TowerIndex) : list Disk :=
  let '(t0, t1, t2) := towers in
  match i with Start => t0 | Middle => t1 | Goal => t2 end.

(** [towers[i] = t] *)
Definition setTower (i : TowerIndex) (t : list Disk) (towers : Towers) : Towers :=
  let '(t0, t1, t2) := towers in
  match i with
  | Start => (t, t1, t2)
  | Middle => (t0, t, t2)
  | Goal => (t0, t1, t)
  end.

(** [for (let i = disks; i >= 1; i--) initialDisks.push({ id: i, size: i })] *)
Fixpoint initialDisks (i : nat) : list Disk :=
  match i with
  | O => []
  | S i' => {| id := i; size := i |} :: initialDisks i'
  end.

Definition initializeTowers (disks : nat) : Towers := (initialDisks disks, [], []).

Record State := {
  phase : GamePhase;
  countdown : nat;
  numDisks : nat;
  towers : Towers;
  selectedTower : option TowerIndex;
  moves : nat;
  startTime : Z;
  completionTime : Q;
  minMoves : nat;
}.

Definition initial : State := {|
  phase := Instructions; countdown := 3; numDisks := 4; towers := ([], [], []);
  selectedTower := None; moves := 0; startTime := 0; completionTime := 0;
  minMoves := 0 |}.

Definition setPhase v s := {|
  phase := v; countdown := countdown s; numDisks := numDisks s;
  towers := towers s; selectedTower := selectedTower s; moves := moves s;
  startTime := startTime s; completionTime := completionTime s;
  minMoves := minMoves s |}.
Definition setCountdown v s := {|
  phase := phase s; countdown := v; numDisks := numDisks s;
  towers := towers s; selectedTower := selectedTower s; moves := moves s;
  startTime := startTime s; completionTime := completionTime s;
  minMoves := minMoves s |}.
Definition setNumDisks v s := {|
  phase := phase s; countdown := countdown s; numDisks := v;
  towers := towers s; selectedTower := selectedTower s; moves := moves s;
  startTime := startTime s; completionTime := completionTime s;
  minMoves := minMoves s |}.
Definition setTowers v s := {|
  phase := phase s; countdown := countdown s; numDisks := numDisks s;
  towers := v; selectedTower := selectedTower s; moves := moves s;
  startTime := startTime s; completionTime := completionTime s;
  minMoves := minMoves s |}.
Definition setSelectedTower v s := {|
  phase := phase s; countdown := countdown s; numDisks := numDisks s;
  towers := towers s; selectedTower := v; moves := moves s;
  startTime := startTime s; completionTime := completionTime s;
  minMoves := minMoves s |}.
Definition setMoves (f : nat -> nat) s := {|
  phase := phase s; countdown := countdown s; numDisks := numDisks s;
  towers := towers s; selectedTower := selectedTower s; moves := f (moves s);
  startTime := startTime s; completionTime := completionTime s;
  minMoves := minMoves s |}.
Definition setStartTime v s := {|
  phase := phase s; countdown := countdown s; numDisks := numDisks s;
  towers := towers s; selectedTower := selectedTower s; moves := moves s;
  startTime := v; completionTime := completionTime s;
  minMoves := minMoves s |}.
Definition setCompletionTime v s := {|
  phase := phase s; countdown := countdown s; numDisks := numDisks s;
  towers := towers s; selectedTower := selectedTower s; moves := moves s;
  startTime := startTime s; completionTime := v;
  minMoves := minMoves s |}.
Definition setMinMoves v s := {|
  phase := phase s; countdown := countdown s; numDisks := numDisks s;
  towers := towers s; selectedTower := selectedTower s; moves := moves s;
  startTime := startTime s; completionTime := completionTime s;
  minMoves := v |}.

(** [Math.pow(2, numDisks) - 1], the figure shown as the minimum. *)
Definition minimumMoves (numDisks : nat) : nat := 2 ^ numDisks - 1.

Definition startGame (s : State) : State :=
  s |> setPhase Countdown |> setCountdown 3
    |> setMinMoves (minimumMoves (numDisks s)).

Definition countdownEffect (now : Z) (s : State) : State :=
  if GamePhase_eqb (phase s) Countdown && (0 <? countdown s) then
    s |> setCountdown (countdown s - 1)
  else if GamePhase_eqb (phase s) Countdown && (countdown s =? 0) then
    s |> setTowers (initializeTowers (numDisks s)) |> setMoves (fun _ => 0)
      |> setSelectedTower None |> setStartTime now |> setPhase Playing
  else s.

(** [targetTower.length === 0 || diskToMove.size < targetTower[targetTower.length - 1].size] *)
Definition validMove (diskToMove : Disk) (targetTower : list Disk) : bool :=
  match last targetTower with
  | None => true
  | Some top => size diskToMove <? size top
  end.

(** [handleTowerClick(towerIndex)]; [now] is [Date.now()].  With an empty
    source tower [diskToMove] would be [undefined], which the move then
    stores in the target tower or fails to read; the embedding has no such
    disk and answers [None].  A tower is selected only when it has disks, so
    this does not occur in play ([click_defined] below). *)
Definition handleTowerClick (towerIndex : TowerIndex) (now : Z) (s : State)
  : option State :=
  if negb (GamePhase_eqb (phase s) Playing) then Some s
  else
    match selectedTower s with
    | None =>
        (* Select tower if it has disks *)
        if 0 <? length (tower (towers s) towerIndex)
        then Some (s |> setSelectedTower (Some towerIndex))
        else Some s
    | Some selected =>
        if TowerIndex_eqb selected towerIndex then
          (* Deselect *)
          Some (s |> setSelectedTower None)
        else
          let sourceTower := tower (towers s) selected in
          let targetTower := tower (towers s) towerIndex in
          match last sourceTower with
          | None => None
          | Some diskToMove =>
              if validMove diskToMove targetTower then
                let newTowers :=
                  towers s |> setTower selected (removelast sourceTower)
                           |> setTower towerIndex (targetTower ++ [diskToMove]) in
                let s1 := s |> setTowers newTowers
                            |> setMoves (fun prev => prev + 1) in
                (* Check win condition *)
                let s2 :=
                  if length (tower newTowers Goal) =? numDisks s
                  then s1 |> setCompletionTime
                               (JS.div (inject_Z (now - startTime s)) 1000)
                          |> setPhase Results
                  else s1 in
                Some (s2 |> setSelectedTower None)
              else Some (s |> setSelectedTower None)
          end
    end.

(** One transition of the component.  The level buttons exist on the
    instructions screen only, the start button there and on the results
    screen. *)
Inductive step : State -> State -> Prop :=
| step_setNumDisks n s :
    phase s = Instructions -> step s (setNumDisks n s)
| step_startGame s :
    phase s = Instructions \/ phase s = Results -> step s (startGame s)
| step_countdown now s : step s (countdownEffect now s)
| step_click i now s s' : handleTowerClick i now s = Some s' -> step s s'.

Definition reachable : State -> Prop := rtc step initial.

End TowerOfHanoi.

(** ** The puzzle behind the Tower of Hanoi game

    A position of the puzzle assigns a tower to every disk size; a move
    takes one disk to another tower and is legal when no smaller disk sits
    on the tower it leaves or on the tower it goes to.  The towers of the
    game are related to such positions by [positionOf]. *)

Module Puzzle.

Export TowerOfHanoi(TowerIndex, Start, Middle, Goal).

#[global] Instance TowerIndex_eq_dec : EqDecision TowerIndex.
Proof. solve_decision. Defined.

Definition Position := nat -> TowerIndex.

Record Move := { m_disk : nat; m_to : TowerIndex }.

Definition legal (c : Position) (m : Move) : Prop :=
  c (m_disk m) <> m_to m
  /\ forall d, 1 <= d < m_disk m -> c d <> c (m_disk m) /\ c d <> m_to m.

Definition apply (c : Position) (m : Move) : Position :=
  fun d => if d =? m_disk m then m_to m else c d.

Definition run (c : Position) (l : list Move) : Position := foldl apply c l.

Fixpoint legal_path (c : Position) (l : list Move) : Prop :=
  match l with
  | [] => True
  | m :: l' => legal c m /\ legal_path (apply c m) l'
  end.

(** The moves of [l] that move one of the disks of size at most [n]. *)
Definition count_le (n : nat) (l : list Move) : nat :=
  length (List.filter (fun m => m_disk m <=? n) l).

(** The tower that is neither [a] nor [b]. *)
Definition third (a b : TowerIndex) : TowerIndex :=
  match a, b with
  | Start, Middle | Middle, Start => Goal
  | Start, Goal | Goal, Start => Middle
  | _, _ => Start
  end.

(** The sizes of the disks of a tower, from the bottom up. *)
Definition sizes (t : list TowerOfHanoi.Disk) : list nat := map TowerOfHanoi.size t.

(** The position that a triple of towers stands for. *)
Definition positionOf (ts : TowerOfHanoi.Towers) : Position :=
  fun d =>
    if bool_decide (d ∈ sizes (TowerOfHanoi.tower ts Start)) then Start
    else if bool_decide (d ∈ sizes (TowerOfHanoi.tower ts Middle)) then Middle
    else Goal.

(** Strictly decreasing from the bottom (the head) to the top. *)
Definition decreasing (l : list nat) : Prop :=
  forall i j x y, i < j -> l !! i = Some x -> l !! j = Some y -> y < x.

(** The invariant of the towers of a game with [n] disks. *)
Definition towers_ok (n : nat) (ts : TowerOfHanoi.Towers) : Prop :=
  (forall i, decreasing (sizes (TowerOfHanoi.tower ts i)))
  /\ sizes (TowerOfHanoi.tower ts Start) ++ sizes (TowerOfHanoi.tower ts Middle)
       ++ sizes (TowerOfHanoi.tower ts Goal) ≡ₚ seq 1 n.

End Puzzle.

(** ** The catalog (data/games.ts, types/game.ts) *)

Module Games.

Inductive Difficulty := Easy | Medium | Hard.

(** [GameMetadata], without the [benefits] and [duration] texts, which
    nothing below reads.  A category is the string of the union type
    [GameCategory]. *)
Record GameMetadata := {
  id : string;
  name : string;
  category : string;
  categoryLabel : string;
  description : string;
  difficulty : Difficulty;
  route : string;
}.

Definition games : list GameMetadata :=
[
  {| id := "stroop-task"; name := "Stroop Task";
     category := "attention-inhibition";
     categoryLabel := "Attention & Inhibition";
     description :=
       "Test your ability to overcome automatic responses and focus on relevant information.";
     difficulty := Medium; route := "/games/stroop-task" |};
  {| id := "flanker-task"; name := "Flanker Task";
     category := "attention-inhibition";
     categoryLabel := "Attention & Inhibition";
     description :=
       "Train your ability to focus on target stimuli while ignoring distracting flankers.";
     difficulty := Medium; route := "/games/flanker-task" |};
  {| id := "go-no-go"; name := "Go/No-Go Task";
     category := "attention-inhibition";
     categoryLabel := "Attention & Inhibition";
     description :=
       "Practice inhibiting responses to certain stimuli while responding to others.";
     difficulty := Easy; route := "/games/go-no-go" |};
  {| id := "n-back"; name := "N-Back Task";
     category := "working-memory";
     categoryLabel := "Working Memory";
     description :=
       "One of the most researched cognitive training tasks for improving working memory.";
     difficulty := Hard; route := "/games/n-back" |};
  {| id := "dual-n-back"; name := "Dual N-Back";
     category := "working-memory";
     categoryLabel := "Working Memory";
     description :=
       "Advanced variant combining visual and auditory streams for maximum challenge.";
     difficulty := Hard; route := "/games/dual-n-back" |};
  {| id := "corsi-blocks"; name := "Corsi Block-Tapping Task";
     category := "working-memory";
     categoryLabel := "Working Memory";
     description :=
       "Train your visuospatial working memory by remembering sequences of block positions.";
     difficulty := Medium; route := "/games/corsi-blocks" |};
  {| id := "operation-span"; name := "Operation Span Task";
     category := "working-memory";
     categoryLabel := "Working Memory";
     description :=
       "Combine processing arithmetic operations with remembering sequences.";
     difficulty := Hard; route := "/games/operation-span" |};
  {| id := "task-switching"; name := "Task Switching (Set-Shifting)";
     category := "processing-speed";
     categoryLabel := "Processing Speed & Flexibility";
     description :=
       "Practice switching between different mental tasks quickly and efficiently.";
     difficulty := Medium; route := "/games/task-switching" |};
  {| id := "trail-making"; name := "Trail Making Test (TMT-B)";
     category := "processing-speed";
     categoryLabel := "Processing Speed & Flexibility";
     description :=
       "Connect numbers and letters in alternating sequence as quickly as possible.";
     difficulty := Medium; route := "/games/trail-making" |};
  {| id := "ufov"; name := "Useful Field of View (UFOV)";
     category := "processing-speed";
     categoryLabel := "Processing Speed & Flexibility";
     description :=
       "Developed for older adults to improve visual processing speed and attention.";
     difficulty := Easy; route := "/games/ufov" |};
  {| id := "ravens-matrices"; name := "Raven's Progressive Matrices";
     category := "reasoning-problem-solving";
     categoryLabel := "Reasoning & Problem-Solving";
     description :=
       "Train pattern recognition and abstract reasoning with progressive matrix puzzles.";
     difficulty := Hard; route := "/games/ravens-matrices" |};
  {| id := "tower-of-hanoi"; name := "Tower of Hanoi / Tower of London";
     category := "reasoning-problem-solving";
     categoryLabel := "Reasoning & Problem-Solving";
     description :=
       "Solve planning puzzles by moving disks to achieve the goal configuration.";
     difficulty := Medium; route := "/games/tower-of-hanoi" |} ].

(** [games.filter(game => game.category === category)] *)
Definition getGamesByCategory (category : string) : list GameMetadata :=
  List.filter (fun game => String.eqb (Games.category game) category) games.


(** An entry of the object that [getCategoriesWithCounts] returns. *)
Record CategoryInfo := { label : string; count : nat }.

(** The callback of the [reduce] in [getCategoriesWithCounts].  A category
    is one of the four strings of [GameCategory], none of which names a
    property that an empty object inherits, so [acc[category]] is the entry
    stored under the key or [undefined]; after the [if] the entry exists,
    and [count++] updates it in place. *)
Definition countCategory (acc : gmap string CategoryInfo) (game : GameMetadata)
  : gmap string CategoryInfo :=
  let acc1 :=
    if negb (JS.defined (acc !! category game))
    then <[category game := {| label := categoryLabel game; count := 0 |}]> acc
    else acc in
  alter (fun e => {| label := label e; count := count e + 1 |}) (category game) acc1.

(** [games.reduce(..., {})] *)
Definition getCategoriesWithCounts : gmap string CategoryInfo :=
  foldl countCategory ∅ games.

End Games.

(** ** The application shell (App.tsx, pages/GamePage.tsx, data/games.ts) *)

Module App.

(** The elements that the routes of [App] mount. *)
Inductive Element :=
| E_Marketplace
| E_StroopTask | E_FlankerTask | E_GoNoGo
| E_NBack | E_DualNBack | E_CorsiBlocks | E_OperationSpan
| E_TaskSwitching | E_TrailMaking | E_UFOV
| E_RavensMatrices | E_TowerOfHanoi.

(** The [<Route path=... element=... />] children of [<Routes>], in order. *)
Definition routes : list (string * Element) :=
  [ ("/", E_Marketplace);
    ("/games/stroop-task", E_StroopTask);
    ("/games/flanker-task", E_FlankerTask);
    ("/games/go-no-go", E_GoNoGo);
    ("/games/n-back", E_NBack);
    ("/games/dual-n-back", E_DualNBack);
    ("/games/corsi-blocks", E_CorsiBlocks);
    ("/games/operation-span", E_OperationSpan);
    ("/games/task-switching", E_TaskSwitching);
    ("/games/trail-making", E_TrailMaking);
    ("/games/ufov", E_UFOV);
    ("/games/ravens-matrices", E_RavensMatrices);
    ("/games/tower-of-hanoi", E_TowerOfHanoi) ].

(** [<Routes>] of React Router, for route paths without parameters and a
    location spelled as a route path is: the element of the route whose
    path is the location, and nothing ([None], an empty page) when no route
    matches.  The router finds a registered route also when the location
    has a trailing slash, other letter case or percent escapes; the
    definition does not, and is used at plainly spelled locations only. *)
Definition Routes (rs : list (string * Element)) (pathname : string)
  : option Element :=
  snd <$> List.find (fun r => String.eqb (fst r) pathname) rs.

(** What [App] renders at a location. *)
Definition render (pathname : string) : option Element := Routes routes pathname.

End App.

(** ** The game description page (pages/GamePage.tsx) *)

Module GamePage.

Inductive View :=
| GameNotFound                          (* the "Game Not Found" block *)
| GameInfo (game : Games.GameMetadata). (* the description page of a game *)

(** [GamePage]; [gameId] is the route parameter that [useParams()] gives,
    [undefined] ([None]) when the route has none. *)
Definition GamePage (gameId : option string) : View :=
  match List.find (fun g => bool_decide (Some (Games.id g) = gameId)) Games.games with
  | None => GameNotFound
  | Some game => GameInfo game
  end.

End GamePage.

(** ** Raven's Matrices (games/reasoning-problem-solving/RavensMatrices.tsx) *)

Module RavensMatrices.

Inductive Shape := circle | square | triangle | diamond.
Inductive Pattern := solid | striped | dotted | empty.
Inductive Size := small | medium | large.

Record Cell := {
  shape : Shape;
  pattern : Pattern;
  rotation : Z;
  size : Size;
}.

Record Puzzle := {
  grid : list (list (option Cell));   (* (Cell | null)[][] *)
  options : list Cell;
  correctIndex : Z;
  rule : string;
}.

Definition SHAPES : list Shape := [circle; square; triangle; diamond].
Definition PATTERNS : list Pattern := [solid; striped; dotted; empty].
Definition SIZES : list Size := [small; medium; large].
Definition TOTAL_PUZZLES : nat := 8.

Definition Shape_eqb (a b : Shape) : bool :=
  match a, b with
  | circle, circle | square, square | triangle, triangle | diamond, diamond => true
  | _, _ => false
  end.

Definition Pattern_eqb (a b : Pattern) : bool :=
  match a, b with
  | solid, solid | striped, striped | dotted, dotted | empty, empty => true
  | _, _ => false
  end.

Definition Size_eqb (a b : Size) : bool :=
  match a, b with
  | small, small | medium, medium | large, large => true
  | _, _ => false
  end.

(** The comparison of two cells, field by field, that [some] and
    [findIndex] are given. *)
Definition sameCell (o c : Cell) : bool :=
  Shape_eqb (shape o) (shape c) && Pattern_eqb (pattern o) (pattern c)
  && (rotation o =? rotation c)%Z && Size_eqb (size o) (size c).

(** [SHAPES.indexOf(s)] *)
Definition indexOfShape (s : Shape) : Z :=
  match s with circle => 0 | square => 1 | triangle => 2 | diamond => 3 end.

(** [options.findIndex(p)]: the first index whose element satisfies [p],
    or -1. *)
Fixpoint findIndexFrom {A} (p : A -> bool) (l : list A) (i : Z) : Z :=
  match l with
  | [] => (-1)%Z
  | x :: l' => if p x then i else findIndexFrom p l' (i + 1)%Z
  end.

Definition findIndex {A} (p : A -> bool) (l : list A) : Z := findIndexFrom p l 0.

(** The loop [while (options.length < 6)] that adds distractors; every round
    reads four random values, and [fuel] bounds the rounds.  A shape,
    pattern, rotation or size read outside its list would be [undefined];
    the embedding answers [None]. *)
Fixpoint addDistractors (rng : JS.Rng) (fuel : nat) (options : list Cell) (k : nat)
  : option (list Cell * nat) :=
  if 6 <=? length options then Some (options, k)
  else
    match fuel with
    | O => None
    | S fuel' =>
        sh ← JS.get SHAPES (JS.floor_mul (rng k) (length SHAPES));
        pt ← JS.get PATTERNS (JS.floor_mul (rng (k + 1)) (length PATTERNS));
        rot ← JS.get [0; 45; 90]%Z (JS.floor_mul (rng (k + 2)) 3);
        sz ← JS.get SIZES (JS.floor_mul (rng (k + 3)) (length SIZES));
        let distractor := {| shape := sh; pattern := pt; rotation := rot; size := sz |} in
        (* Avoid duplicates *)
        if existsb (fun o => sameCell o distractor) options
        then addDistractors rng fuel' options (k + 4)
        else addDistractors rng fuel' (options ++ [distractor]) (k + 4)
    end.

Definition cell (sh : Shape) (pt : Pattern) (rot : Z) (sz : Size) : option Cell :=
  Some {| shape := sh; pattern := pt; rotation := rot; size := sz |}.

(** The grid, the correct answer and the rule text for a rule type; the
    three rounds of the row (and column) loops are written out. *)
Definition layout (ruleType : Z) (baseShape : Shape) (basePattern : Pattern)
  : option (list (list (option Cell)) * Cell * string) :=
  if (ruleType =? 0)%Z then
    (* Size progression across rows *)
    let rowShape row :=
      JS.get SHAPES (Z.rem (indexOfShape baseShape + row) (Z.of_nat (length SHAPES))) in
    s0 ← rowShape 0%Z; s1 ← rowShape 1%Z; s2 ← rowShape 2%Z;
    Some ([ [cell s0 basePattern 0 small; cell s0 basePattern 0 medium;
             cell s0 basePattern 0 large];
            [cell s1 basePattern 0 small; cell s1 basePattern 0 medium;
             cell s1 basePattern 0 large];
            [cell s2 basePattern 0 small; cell s2 basePattern 0 medium; None] ],
          {| shape := s2; pattern := basePattern; rotation := 0; size := large |},
          "Size increases across each row")
  else if (ruleType =? 1)%Z then
    (* Pattern changes down columns *)
    let at_ (row col : nat) :=
      sh ← SHAPES !! (col mod length SHAPES);
      pt ← PATTERNS !! (row mod length PATTERNS);
      Some (cell sh pt 0 medium) in
    c00 ← at_ 0 0; c01 ← at_ 0 1; c02 ← at_ 0 2;
    c10 ← at_ 1 0; c11 ← at_ 1 1; c12 ← at_ 1 2;
    c20 ← at_ 2 0; c21 ← at_ 2 1;
    sh ← SHAPES !! (2 mod length SHAPES);
    pt ← PATTERNS !! (2 mod length PATTERNS);
    Some ([ [c00; c01; c02]; [c10; c11; c12]; [c20; c21; None] ],
          {| shape := sh; pattern := pt; rotation := 0; size := medium |},
          "Pattern changes down each column")
  else
    (* Rotation progression *)
    let rowPattern (row : nat) := PATTERNS !! (row mod length PATTERNS) in
    p0 ← rowPattern 0; p1 ← rowPattern 1; p2 ← rowPattern 2;
    pt ← PATTERNS !! (2 mod length PATTERNS);
    Some ([ [cell baseShape p0 0 medium; cell baseShape p0 45 medium;
             cell baseShape p0 90 medium];
            [cell baseShape p1 0 medium; cell baseShape p1 45 medium;
             cell baseShape p1 90 medium];
            [cell baseShape p2 0 medium; cell baseShape p2 45 medium; None] ],
          {| shape := baseShape; pattern := pt; rotation := 90; size := medium |},
          "Shape rotates across each row").

(** [generatePuzzle(_difficulty)] *)
Definition generatePuzzle (rng : JS.Rng) (fuel : nat) (_difficulty : nat) (k : nat)
  : option (Puzzle * nat) :=
  let ruleType := JS.floor_mul (rng k) 3 in
  baseShape ← JS.get SHAPES (JS.floor_mul (rng (k + 1)) (length SHAPES));
  basePattern ← JS.get PATTERNS (JS.floor_mul (rng (k + 2)) (length PATTERNS));
  '(grid, correctAnswer, rule) ← layout ruleType baseShape basePattern;
  (* Generate options (1 correct + 5 distractors) *)
  '(options, k1) ← addDistractors rng fuel [correctAnswer] (k + 3);
  (* Shuffle options *)
  '(options, k2) ← JS.shuffle rng options k1;
  let correctIndex := findIndex (fun o => sameCell o correctAnswer) options in
  Some ({| grid := grid; options := options; correctIndex := correctIndex;
           rule := rule |}, k2).

End RavensMatrices.

(** ** Tower of Hanoi: the classical solution, as clicks *)

Module HanoiSolve.

(** The moves (source, target) that take a stack of [n] disks from [a] to
    [b] by way of [c]. *)
Fixpoint solve (n : nat) (a b c : TowerOfHanoi.TowerIndex)
  : list (TowerOfHanoi.TowerIndex * TowerOfHanoi.TowerIndex) :=
  match n with
  | O => []
  | S n' => solve n' a c b ++ [(a, b)] ++ solve n' c b a
  end.

(** A move is made by a click on the source and a click on the target. *)
Definition clicksOf (l : list (TowerOfHanoi.TowerIndex * TowerOfHanoi.TowerIndex))
  : list TowerOfHanoi.TowerIndex :=
  flat_map (fun m => [fst m; snd m]) l.

(** The towers after a list of moves, each checked the way
    [handleTowerClick] checks it. *)
Fixpoint run_moves (l : list (TowerOfHanoi.TowerIndex * TowerOfHanoi.TowerIndex))
    (ts : TowerOfHanoi.Towers) : option TowerOfHanoi.Towers :=
  match l with
  | [] => Some ts
  | (x, y) :: l' =>
      if TowerOfHanoi.TowerIndex_eqb x y then None
      else
        match last (TowerOfHanoi.tower ts x) with
        | Some d =>
            if TowerOfHanoi.validMove d (TowerOfHanoi.tower ts y)
            then run_moves l'
                   (ts |> TowerOfHanoi.setTower x (removelast (TowerOfHanoi.tower ts x))
                       |> TowerOfHanoi.setTower y (TowerOfHanoi.tower ts y ++ [d]))
            else None
        | None => None
        end
  end.

(** The state in which a game with [n] disks starts to be played. *)
Definition start (n : nat) : TowerOfHanoi.State :=
  TowerOfHanoi.initial
    |> TowerOfHanoi.setNumDisks n
    |> TowerOfHanoi.startGame
    |> TowerOfHanoi.countdownEffect 0 |> TowerOfHanoi.countdownEffect 1000
    |> TowerOfHanoi.countdownEffect 2000 |> TowerOfHanoi.countdownEffect 3000.

End HanoiSolve.

(** ** The marketplace page (pages/Marketplace.tsx) *)

Module Marketplace.

(** [handleGameClick(game)]: the location that [navigate] is called with. *)
Definition handleGameClick (game : Games.GameMetadata) : string := Games.route game.

(** The number on the "Categories" card of the page. *)
Definition categoriesShown : nat := 4.

End Marketplace.

(** * Properties *)

(** ** Rounding to binary64

    [Binary64.round] is monotone, leaves the integers below 2^53 as they
    are, and moves a value below 2^(k+1) by at most 2^(k-53). *)

Section Binary64Theory.
Import Binary64.
Local Open Scope Q_scope.

Lemma inject_Z_le a b : (a <= b)%Z -> inject_Z a <= inject_Z b.
Proof. intros H. by rewrite <- Zle_Qle. Qed.

Lemma pow2_pos e : 0 < 2 ^ e.
Proof. by apply Qpower_0_lt. Qed.

Lemma pow2_add a b : 2 ^ (a + b) == 2 ^ a * 2 ^ b.
Proof. by apply Qpower_plus. Qed.

Lemma pow2_le a b : (a <= b)%Z -> 2 ^ a <= 2 ^ b.
Proof. intros H. by apply Qpower_le_compat_l. Qed.

Lemma pow2_lt_inv a b : 2 ^ a < 2 ^ b -> (a < b)%Z.
Proof. intros H. by apply (Qpower_lt_compat_l_inv 2). Qed.

Lemma pow2_Z n : (0 <= n)%Z -> inject_Z (2 ^ n) == 2 ^ n.
Proof. intros H. by rewrite Zpower_Qpower. Qed.

Lemma pow2_cancel e : 2 ^ (- e) * 2 ^ e == 1.
Proof. rewrite <- pow2_add. by replace (- e + e)%Z with 0%Z by lia. Qed.

(** The binade of a positive rational. *)
Lemma ilog2_spec p q :
  2 ^ ilog2 p q <= Zpos p # q /\ Zpos p # q < 2 ^ (ilog2 p q + 1).
Proof.
  unfold ilog2.
  set (lp := Z.log2 (Zpos p)). set (lq := Z.log2 (Zpos q)).
  destruct (Z.log2_spec (Zpos p)) as [Hp1 Hp2]; [done |].
  destruct (Z.log2_spec (Zpos q)) as [Hq1 Hq2]; [done |].
  fold lp in Hp1, Hp2. fold lq in Hq1, Hq2.
  assert (Hlp : (0 <= lp)%Z) by apply Z.log2_nonneg.
  assert (Hlq : (0 <= lq)%Z) by apply Z.log2_nonneg.
  rewrite Zle_Qle, pow2_Z in Hp1, Hq1 by done.
  rewrite Zlt_Qlt, pow2_Z in Hp2, Hq2 by lia.
  assert (Hx : (Zpos p # q) * inject_Z (Zpos q) == inject_Z (Zpos p)).
  { rewrite (Qmake_Qdiv (Zpos p) q). field. discriminate. }
  assert (Hqpos : 0 < inject_Z (Zpos q)) by done.
  destruct (Qle_bool (2 ^ (lp - lq)) (Zpos p # q)) eqn:Hle.
  - apply Qle_bool_iff in Hle. split; [done |].
    apply (Qmult_lt_r _ _ (inject_Z (Zpos q))); [done |]. rewrite Hx.
    eapply Qlt_le_trans; [exact Hp2 |].
    replace (Z.succ lp) with ((lp - lq + 1) + lq)%Z by lia.
    rewrite pow2_add. apply Qmult_le_l; [apply pow2_pos | done].
  - assert (Hlt : Zpos p # q < 2 ^ (lp - lq)).
    { apply Qnot_le_lt. intros H. apply Qle_bool_iff in H. congruence. }
    split; [| by replace (lp - lq - 1 + 1)%Z with (lp - lq)%Z by lia].
    apply Qlt_le_weak.
    apply (Qmult_lt_r _ _ (inject_Z (Zpos q))); [done |]. rewrite Hx.
    eapply Qlt_le_trans; [| exact Hp1].
    replace lp with ((lp - lq - 1) + Z.succ lq)%Z at 2 by lia.
    rewrite pow2_add. by apply Qmult_lt_l; [apply pow2_pos |].
Qed.

Lemma binade_exists x : 0 < x -> exists l, 2 ^ l <= x /\ x < 2 ^ (l + 1).
Proof.
  destruct x as [[|p|p] q]; intros Hx; [done | | done].
  exists (ilog2 p q). apply ilog2_spec.
Qed.

Lemma binade_le x y a b :
  2 ^ a <= x -> y < 2 ^ (b + 1) -> x <= y -> (a <= b)%Z.
Proof.
  intros Ha Hb Hxy.
  assert (H : 2 ^ a < 2 ^ (b + 1)) by lra.
  apply pow2_lt_inv in H. lia.
Qed.

Lemma binade_unique x a b :
  2 ^ a <= x -> x < 2 ^ (a + 1) -> 2 ^ b <= x -> x < 2 ^ (b + 1) -> a = b.
Proof.
  intros Ha1 Ha2 Hb1 Hb2.
  pose proof (binade_le x x a b Ha1 Hb2 ltac:(lra)).
  pose proof (binade_le x x b a Hb1 Ha2 ltac:(lra)). lia.
Qed.

(** Rounding to the nearest integer. *)
#[global] Instance nearest_even_comp : Proper (Qeq ==> eq) nearest_even.
Proof.
  intros y y' Hy. unfold nearest_even.
  rewrite (Qfloor_comp y y' Hy).
  assert (H : y - inject_Z (Qfloor y') == y' - inject_Z (Qfloor y')) by lra.
  by rewrite (Qcompare_comp _ _ H _ _ (Qeq_refl (1 # 2))).
Qed.

Lemma nearest_even_spec y :
  y - (1 # 2) <= inject_Z (nearest_even y) /\ inject_Z (nearest_even y) <= y + (1 # 2).
Proof.
  unfold nearest_even.
  pose proof (Qfloor_le y) as H1. pose proof (Qlt_floor y) as H2.
  rewrite inject_Z_plus in H2. change (inject_Z 1) with 1 in H2.
  destruct (Qcompare_spec (y - inject_Z (Qfloor y)) (1 # 2));
    [destruct (Z.even _) |..]; rewrite ?inject_Z_plus;
    change (inject_Z 1) with 1; lra.
Qed.

Lemma nearest_even_Z z : nearest_even (inject_Z z) = z.
Proof.
  unfold nearest_even. rewrite Qfloor_Z.
  destruct (Qcompare_spec (inject_Z z - inject_Z z) (1 # 2)); [lra | done | lra].
Qed.

Lemma nearest_even_mono y y' :
  y <= y' -> (nearest_even y <= nearest_even y')%Z.
Proof.
  intros Hy. pose proof (Qfloor_resp_le _ _ Hy) as Hf.
  destruct (Z.eq_dec (Qfloor y) (Qfloor y')) as [Heq | Hne].
  - unfold nearest_even. rewrite <- Heq.
    destruct (Qcompare_spec (y - inject_Z (Qfloor y)) (1 # 2)),
             (Qcompare_spec (y' - inject_Z (Qfloor y)) (1 # 2));
      try destruct (Z.even _); try lia; lra.
  - assert (Hlt : (Qfloor y + 1 <= Qfloor y')%Z) by lia.
    etrans; [| etrans; [exact Hlt |]].
    + unfold nearest_even. repeat case_match; lia.
    + unfold nearest_even. repeat case_match; lia.
Qed.

Lemma nearest_even_ge z y : inject_Z z <= y -> (z <= nearest_even y)%Z.
Proof. intros H. rewrite <- (nearest_even_Z z). by apply nearest_even_mono. Qed.

Lemma nearest_even_le z y : y <= inject_Z z -> (nearest_even y <= z)%Z.
Proof. intros H. rewrite <- (nearest_even_Z z). by apply nearest_even_mono. Qed.

(** Rounding to binary64. *)
Lemma round_spec x l :
  0 < x -> 2 ^ l <= x -> x < 2 ^ (l + 1) ->
  round x == inject_Z (nearest_even (x * 2 ^ (- exponent l))) * 2 ^ exponent l.
Proof.
  destruct x as [[|p|p] q]; intros Hx H1 H2; [done | | done].
  unfold round. cbn [Qnum Qden]. rewrite Qred_correct. unfold round_pos.
  destruct (ilog2_spec p q) as [H3 H4].
  by rewrite (binade_unique _ _ _ H3 H4 H1 H2).
Qed.

Lemma round_zero x : x == 0 -> round x == 0.
Proof.
  destruct x as [[|p|p] q]; intros Hx; [done | done | done].
Qed.

Lemma round_opp x : round (- x) == - round x.
Proof.
  destruct x as [[|p|p] q]; unfold round; cbn [Qnum Qden Qopp Z.opp];
    rewrite !Qred_correct; [done | done | by rewrite Qopp_involutive].
Qed.

Lemma round_nonneg x : 0 <= x -> 0 <= round x.
Proof.
  intros Hx. destruct (Qlt_le_dec 0 x) as [Hpos | Hle].
  - destruct (binade_exists x Hpos) as (l & H1 & H2).
    rewrite (round_spec x l) by done.
    apply Qmult_le_0_compat; [| apply Qlt_le_weak, pow2_pos].
    apply (inject_Z_le 0). apply nearest_even_ge.
    apply Qmult_le_0_compat; [done | apply Qlt_le_weak, pow2_pos].
  - rewrite round_zero; [done | lra].
Qed.

Lemma exponent_mono a b : (a <= b)%Z -> (exponent a <= exponent b)%Z.
Proof. unfold exponent. lia. Qed.

Lemma round_mono_pos x y : 0 < x -> x <= y -> round x <= round y.
Proof.
  intros Hx Hxy.
  destruct (binade_exists x Hx) as (lx & Hx1 & Hx2).
  destruct (binade_exists y ltac:(lra)) as (ly & Hy1 & Hy2).
  rewrite (round_spec x lx), (round_spec y ly) by (done || lra).
  pose proof (binade_le x y lx ly Hx1 Hy2 Hxy) as Hl.
  pose proof (exponent_mono _ _ Hl) as He.
  destruct (Z.eq_dec (exponent lx) (exponent ly)) as [Heq | Hne].
  - rewrite Heq. apply Qmult_le_r; [apply pow2_pos |].
    apply inject_Z_le. apply nearest_even_mono.
    apply Qmult_le_r; [apply pow2_pos | done].
  - assert (Hey : exponent ly = (ly - 52)%Z) by (unfold exponent in *; lia).
    assert (Hex : (lx - 52 <= exponent lx)%Z) by (unfold exponent; lia).
    apply Qle_trans with (2 ^ (53 + exponent lx)).
    + rewrite pow2_add. apply Qmult_le_r; [apply pow2_pos |].
      rewrite <- (pow2_Z 53) by done. apply inject_Z_le.
      apply nearest_even_le. rewrite pow2_Z by done.
      apply Qle_trans with (2 ^ (lx + 1) * 2 ^ (- exponent lx)).
      * apply Qmult_le_r; [apply pow2_pos | lra].
      * rewrite <- pow2_add. apply pow2_le. lia.
    + apply Qle_trans with (2 ^ (52 + exponent ly)); [apply pow2_le; lia |].
      rewrite pow2_add. apply Qmult_le_r; [apply pow2_pos |].
      rewrite <- (pow2_Z 52) by done. apply inject_Z_le.
      apply nearest_even_ge. rewrite pow2_Z by done.
      apply Qle_trans with (2 ^ ly * 2 ^ (- exponent ly)).
      * rewrite <- pow2_add. apply pow2_le. lia.
      * apply Qmult_le_r; [apply pow2_pos | lra].
Qed.

Lemma round_mono x y : x <= y -> round x <= round y.
Proof.
  intros Hxy. destruct (Qlt_le_dec 0 x) as [Hx | Hx].
  - by apply round_mono_pos.
  - destruct (Qlt_le_dec y 0) as [Hy | Hy].
    + assert (H : round (- y) <= round (- x)) by (apply round_mono_pos; lra).
      rewrite !round_opp in H. lra.
    + pose proof (round_nonneg y Hy).
      assert (H0 : 0 <= round (- x)) by (apply round_nonneg; lra).
      rewrite round_opp in H0. lra.
Qed.


Lemma round_pos_comp p q p' q' :
  Zpos p # q == Zpos p' # q' -> round_pos p q == round_pos p' q'.
Proof.
  intros H. unfold round_pos.
  destruct (ilog2_spec p q) as [H1 H2]. destruct (ilog2_spec p' q') as [H3 H4].
  rewrite H in H1, H2.
  rewrite (binade_unique _ _ _ H1 H2 H3 H4).
  assert (Hy : (Z.pos p # q) * 2 ^ (- exponent (ilog2 p' q'))
               == (Z.pos p' # q') * 2 ^ (- exponent (ilog2 p' q')))
    by (by rewrite H).
  by rewrite (nearest_even_comp _ _ Hy).
Qed.

Lemma round_comp x y : x == y -> round x = round y.
Proof.
  intros H. unfold round. apply Qred_complete.
  destruct x as [[|p|p] q], y as [[|p'|p'] q']; cbn [Qnum Qden];
    try done; try (exfalso; unfold Qeq in H; simpl in H; lia).
  - by apply round_pos_comp.
  - apply Qopp_comp, round_pos_comp. unfold Qeq in *. simpl in *. lia.
Qed.

#[global] Instance round_proper : Proper (Qeq ==> Qeq) round.
Proof. intros x y H. by rewrite (round_comp x y H). Qed.

Lemma round_exact x l m :
  0 < x -> 2 ^ l <= x -> x < 2 ^ (l + 1) ->
  x * 2 ^ (- exponent l) == inject_Z m -> round x == x.
Proof.
  intros Hx H1 H2 Hm. rewrite (round_spec x l) by done.
  rewrite (nearest_even_comp _ _ Hm), nearest_even_Z, <- Hm.
  rewrite <- Qmult_assoc, pow2_cancel. ring.
Qed.

Lemma round_Z z : (Z.abs z < 2 ^ 53)%Z -> round (inject_Z z) == inject_Z z.
Proof.
  assert (Hpos : forall p, (Zpos p < 2 ^ 53)%Z ->
                   round (inject_Z (Zpos p)) == inject_Z (Zpos p)).
  { intros p Hp.
    destruct (Z.log2_spec (Zpos p)) as [H1 H2]; [done |].
    set (l := Z.log2 (Zpos p)) in *.
    assert (Hl : (0 <= l)%Z) by apply Z.log2_nonneg.
    assert (Hl' : (l < 53)%Z).
    { apply (Z.pow_lt_mono_r_iff 2); lia. }
    apply (round_exact _ l (Zpos p * 2 ^ (52 - l))); [done | | |].
    - rewrite <- pow2_Z by done. by apply inject_Z_le.
    - rewrite <- pow2_Z by lia. rewrite <- Zlt_Qlt. lia.
    - replace (exponent l) with (l - 52)%Z by (unfold exponent; lia).
      replace (- (l - 52))%Z with (52 - l)%Z by lia.
      rewrite inject_Z_mult, pow2_Z by lia. reflexivity. }
  destruct z as [|p|p]; intros Hz.
  - reflexivity.
  - by apply Hpos.
  - change (inject_Z (Zneg p)) with (- inject_Z (Zpos p)).
    rewrite round_opp, Hpos; [reflexivity | lia].
Qed.

Lemma round_err_pos x k :
  0 < x -> x < 2 ^ (k + 1) -> (-1022 <= k)%Z ->
  Qabs (round x - x) <= 2 ^ (k - 53).
Proof.
  intros Hx Hk Hmin.
  destruct (binade_exists x Hx) as (l & H1 & H2).
  pose proof (binade_le x x l k H1 Hk ltac:(lra)) as Hl.
  rewrite (round_spec x l) by done.
  set (e := exponent l).
  assert (He : (e <= k - 52)%Z) by (unfold e, exponent; lia).
  destruct (nearest_even_spec (x * 2 ^ (- e))) as [Hn1 Hn2].
  set (m := inject_Z (nearest_even (x * 2 ^ (- e)))) in *.
  assert (Hxe : x == x * 2 ^ (- e) * 2 ^ e).
  { rewrite <- Qmult_assoc, pow2_cancel. ring. }
  assert (Hhalf : (1 # 2) * 2 ^ e <= 2 ^ (k - 53)).
  { apply Qle_trans with (2 ^ (-1) * 2 ^ e); [apply Qle_refl |].
    rewrite <- pow2_add. apply pow2_le. lia. }
  pose proof (pow2_pos e) as Hpe.
  apply Qabs_Qle_condition. split.
  - assert (H : (x * 2 ^ (- e) - (1 # 2)) * 2 ^ e <= m * 2 ^ e)
      by (apply Qmult_le_r; done).
    lra.
  - assert (H : m * 2 ^ e <= (x * 2 ^ (- e) + (1 # 2)) * 2 ^ e)
      by (apply Qmult_le_r; done).
    lra.
Qed.

Lemma round_err x k :
  Qabs x < 2 ^ (k + 1) -> (-1022 <= k)%Z ->
  Qabs (round x - x) <= 2 ^ (k - 53).
Proof.
  intros Hk Hmin. destruct (Qlt_le_dec 0 x) as [Hx | Hx].
  - apply round_err_pos; [done | | done]. by rewrite Qabs_pos in Hk by lra.
  - destruct (Qlt_le_dec x 0) as [Hx' | Hx'].
    + rewrite Qabs_neg in Hk by lra.
      pose proof (round_err_pos (- x) k ltac:(lra) Hk Hmin) as H.
      rewrite round_opp in H.
      assert (Heq : - round x - - x == - (round x - x)) by ring.
      by rewrite Heq, Qabs_opp in H.
    + rewrite (round_zero x) by lra.
      assert (Heq : 0 - x == 0) by lra. rewrite Heq.
      apply Qlt_le_weak, pow2_pos.
Qed.

End Binary64Theory.

(** ** The embedding's arithmetic and the processor's

    For every count of correct results out of up to 64, the percentage of
    the embedding is the percentage the processor computes; so are the
    differences of means over a grid of sums and counts. *)

Lemma percentages_as_hardware :
  forallb (fun n =>
    forallb (fun c =>
      Hardware.same (Hardware.percentage c n)
        (JS.mul (JS.div (JS.num c) (JS.num n)) 100))
      (seq 0 (S n)))
    (seq 1 64) = true.
Proof. vm_compute. reflexivity. Qed.

(** The two counts that the generators take from a ratio:
    [Math.floor(30 * 0.7)] and [Math.floor(25 * 0.3)]. *)
Lemma ratio_counts_as_hardware :
  (Z.to_nat ∘ Qfloor) <$>
    Hardware.toQ (PrimFloat.mul (Hardware.ofZ 30)
                    (PrimFloat.div (Hardware.ofZ 7) (Hardware.ofZ 10)))
  = Some GoNoGo.goCount
  /\ (Z.to_nat ∘ Qfloor) <$>
       Hardware.toQ (PrimFloat.mul (Hardware.ofZ 25)
                       (PrimFloat.div (Hardware.ofZ 3) (Hardware.ofZ 10)))
     = Some NBack.targetCount.
Proof. split; vm_compute; reflexivity. Qed.

Lemma differences_as_hardware :
  forallb (fun n1 =>
    forallb (fun n2 =>
      forallb (fun s1 =>
        forallb (fun s2 =>
          Hardware.same (Hardware.difference s1 n1 s2 n2)
            (JS.sub (JS.div (inject_Z s1) (JS.num n1))
                    (JS.div (inject_Z s2) (JS.num n2))))
          [0; 650; 1400; 5273; 48211]%Z)
        [0; 1; 400; 1400; 7919; 65537]%Z)
      (seq 1 12))
    (seq 1 12) = true.
Proof. vm_compute. reflexivity. Qed.

Section Shuffle.
Context {A : Type}.
Variable rng : JS.Rng.
Hypothesis rng01 : JS.in01 rng.

Lemma floor_mul_range k m :
  0 < m -> (0 <= JS.floor_mul (rng k) m < Z.of_nat m)%Z.
Proof.
  intros Hm. destruct (rng01 k) as [H0 H1]. unfold JS.floor_mul.
  set (q := inject_Z (Z.of_nat m)).
  assert (Hq : (0 < q)%Q) by (unfold q; rewrite <- (Zlt_Qlt 0); lia).
  split.
  - change 0%Z with (Qfloor 0). apply Qfloor_resp_le.
    apply Qmult_le_0_compat; [assumption | apply Qlt_le_weak, Hq].
  - rewrite Zlt_Qlt. fold q.
    apply Qle_lt_trans with (rng k * q)%Q; [apply Qfloor_le |].
    rewrite <- (Qmult_1_l q) at 2.
    apply Qmult_lt_compat_r; assumption.
Qed.

Lemma swap_perm (arr : list A) i k :
  0 < i < length arr ->
  exists arr', JS.swap arr i (JS.floor_mul (rng k) (i + 1)) = Some arr'
               /\ arr' ≡ₚ arr.
Proof.
  intros Hi.
  destruct (floor_mul_range k (i + 1)) as [Hj0 Hj1]; [lia |].
  set (j := JS.floor_mul (rng k) (i + 1)) in *.
  assert (Hjlt : Z.to_nat j < length arr) by lia.
  destruct (lookup_lt_is_Some_2 arr (Z.to_nat j) Hjlt) as [aj Haj].
  destruct (lookup_lt_is_Some_2 arr i) as [ai Hai]; [lia |].
  unfold JS.swap, JS.get.
  destruct (Z.ltb_spec j 0) as [?|_]; [lia |].
  rewrite Haj, Hai. eexists; split; [reflexivity |].
  by apply Permutation_insert_swap.
Qed.

Lemma shuffle_from_perm i : forall (arr : list A) k,
  i < length arr ->
  exists arr', JS.shuffle_from rng i arr k = Some (arr', k + i) /\ arr' ≡ₚ arr.
Proof.
  induction i as [|i IH]; intros arr k Hi; cbn [JS.shuffle_from].
  - exists arr. by rewrite Nat.add_0_r.
  - destruct (swap_perm arr (S i) k) as (arr1 & Hswap & Hperm); [lia |].
    rewrite Hswap.
    destruct (IH arr1 (S k)) as (arr2 & Hrun & Hperm2).
    { rewrite (Permutation_length Hperm). lia. }
    exists arr2. split; [by rewrite Hrun, Nat.add_succ_comm | by rewrite Hperm2].
Qed.

Lemma shuffle_perm (arr : list A) k :
  exists arr', JS.shuffle rng arr k = Some (arr', k + (length arr - 1))
               /\ arr' ≡ₚ arr.
Proof.
  unfold JS.shuffle. destruct arr as [|a arr].
  - exists []. simpl. by rewrite Nat.add_0_r.
  - apply shuffle_from_perm. simpl. lia.
Qed.

End Shuffle.

Lemma push_times_replicate {A} n (x : A) arr :
  JS.push_times n x arr = arr ++ replicate n x.
Proof.
  revert arr. induction n as [|n IH]; intros arr; simpl.
  - by rewrite app_nil_r.
  - by rewrite IH, <- app_assoc.
Qed.

Lemma countType_perm t (l1 l2 : list GoNoGo.Trial) :
  l1 ≡ₚ l2 -> GoNoGo.countType t l1 = GoNoGo.countType t l2.
Proof.
  intros H. unfold GoNoGo.countType.
  induction H; simpl; try congruence.
  - destruct (GoNoGo.TrialType_eqb _ _); simpl; congruence.
  - destruct (GoNoGo.TrialType_eqb (GoNoGo.type x) t),
             (GoNoGo.TrialType_eqb (GoNoGo.type y) t); reflexivity.
Qed.

(** C1. Whatever values [Math.random()] returns, [generateTrials] returns a
    sequence that is a rearrangement of the unshuffled one, with exactly
    floor(30 * 0.7) = 21 'go' trials and 30 - 21 = 9 'nogo' trials. *)
Theorem GoNoGo_generateTrials_counts (rng : JS.Rng) (k : nat) :
  JS.in01 rng ->
  exists trials k',
    GoNoGo.generateTrials rng k = Some (trials, k')
    /\ trials ≡ₚ GoNoGo.unshuffled
    /\ GoNoGo.countType GoNoGo.go GoNoGo.unshuffled = 21
    /\ GoNoGo.countType GoNoGo.go trials
       = Z.to_nat (Qfloor (inject_Z 30 * (7 # 10)))
    /\ GoNoGo.countType GoNoGo.go trials = 21
    /\ GoNoGo.countType GoNoGo.nogo trials
       = GoNoGo.TOTAL_TRIALS - GoNoGo.countType GoNoGo.go trials
    /\ length trials = GoNoGo.TOTAL_TRIALS.
Proof.
  intros Hrng.
  destruct (shuffle_perm rng Hrng GoNoGo.unshuffled k) as (trials & Hrun & Hperm).
  exists trials, (k + (length GoNoGo.unshuffled - 1)).
  split; [exact Hrun |]. split; [exact Hperm |].
  rewrite !(countType_perm _ _ _ Hperm), (Permutation_length Hperm).
  repeat split; reflexivity.
Qed.

Lemma GoNoGo_generateTrials_counts_witness :
  exists trials k',
    GoNoGo.generateTrials (fun _ => 1 # 2) 0 = Some (trials, k')
    /\ trials ≡ₚ GoNoGo.unshuffled
    /\ GoNoGo.countType GoNoGo.go GoNoGo.unshuffled = 21
    /\ GoNoGo.countType GoNoGo.go trials
       = Z.to_nat (Qfloor (inject_Z 30 * (7 # 10)))
    /\ GoNoGo.countType GoNoGo.go trials = 21
    /\ GoNoGo.countType GoNoGo.nogo trials
       = GoNoGo.TOTAL_TRIALS - GoNoGo.countType GoNoGo.go trials
    /\ length trials = GoNoGo.TOTAL_TRIALS.
Proof.
  apply (GoNoGo_generateTrials_counts (fun _ => 1 # 2) 0).
  intros k; split; vm_compute; [discriminate | reflexivity].
Defined.

(** ** Scoring: accuracy (C3) *)

Section Accuracy.

Lemma num_nonneg n : (0 <= JS.num n)%Q.
Proof. unfold JS.num. rewrite <- (Zle_Qle 0). lia. Qed.

Lemma num_pos n : 0 < n -> (0 < JS.num n)%Q.
Proof. intros H. unfold JS.num. rewrite <- (Zlt_Qlt 0). lia. Qed.

Lemma num_le k n : k <= n -> (JS.num k <= JS.num n)%Q.
Proof. intros H. unfold JS.num. rewrite <- Zle_Qle. lia. Qed.

Lemma round_1 : (Binary64.round 1 == 1)%Q.
Proof. reflexivity. Qed.

Lemma round_100 : (Binary64.round 100 == 100)%Q.
Proof. reflexivity. Qed.

(** A share [k] out of [n > 0], scaled the way the scorers do it: the
    rounded quotient times 100, rounded.  It stays in [0, 100] and within
    2^-45 of the exact percentage. *)
Lemma percentage_spec k n :
  k <= n -> 0 < n ->
  (0 <= JS.mul (JS.div (JS.num k) (JS.num n)) 100)%Q
  /\ (JS.mul (JS.div (JS.num k) (JS.num n)) 100 <= 100)%Q
  /\ (Qabs (JS.mul (JS.div (JS.num k) (JS.num n)) 100
            - 100 * (JS.num k / JS.num n)) <= 2 ^ (-45))%Q.
Proof.
  intros Hk Hn. unfold JS.mul, JS.div.
  assert (Hpos := num_pos n Hn).
  set (x := (JS.num k / JS.num n)%Q).
  assert (H0 : (0 <= x)%Q).
  { apply Qle_shift_div_l; [exact Hpos |]. rewrite Qmult_0_l. apply num_nonneg. }
  assert (H1 : (x <= 1)%Q).
  { apply Qle_shift_div_r; [exact Hpos |]. rewrite Qmult_1_l. by apply num_le. }
  set (q := Binary64.round x).
  assert (Hq0 : (0 <= q)%Q) by (by apply round_nonneg).
  assert (Hq1 : (q <= 1)%Q).
  { rewrite <- round_1. by apply round_mono. }
  assert (Hqx : (Qabs (q - x) <= 2 ^ (-53))%Q).
  { apply (round_err x 0); [| done]. rewrite Qabs_pos by done.
    apply Qle_lt_trans with 1%Q; done. }
  set (a := Binary64.round (q * 100)).
  assert (Ha0 : (0 <= a)%Q) by (apply round_nonneg; lra).
  assert (Ha1 : (a <= 100)%Q).
  { rewrite <- round_100. apply round_mono. lra. }
  assert (Haq : (Qabs (a - q * 100) <= 2 ^ (-47))%Q).
  { apply (round_err (q * 100) 6); [| done]. rewrite Qabs_pos by lra.
    apply Qle_lt_trans with 100%Q; [lra | done]. }
  split; [exact Ha0 |]. split; [exact Ha1 |].
  apply Qabs_Qle_condition in Hqx, Haq. apply Qabs_Qle_condition.
  assert (E53 : (2 ^ (-53) == 1 # 9007199254740992)%Q) by reflexivity.
  assert (E47 : (2 ^ (-47) == 1 # 140737488355328)%Q) by reflexivity.
  assert (E45 : (2 ^ (-45) == 1 # 35184372088832)%Q) by reflexivity.
  rewrite E53 in Hqx. rewrite E47 in Haq. rewrite E45. lra.
Qed.

Lemma filter_length_le {A} (p : A -> bool) (l : list A) :
  length (List.filter p l) <= length l.
Proof. induction l as [|x l IH]; simpl; [lia |]. destruct (p x); simpl; lia. Qed.

(** The number of elements of [l] on which [p] holds, counted one by one. *)
Fixpoint count_true {A} (p : A -> bool) (l : list A) : nat :=
  match l with
  | [] => 0
  | x :: l' => (if p x then 1 else 0) + count_true p l'
  end.

Lemma filter_length_count {A} (p : A -> bool) (l : list A) :
  length (List.filter p l) = count_true p l.
Proof. induction l as [|x l IH]; simpl; [done |]. destruct (p x); simpl; lia. Qed.

Lemma nonempty_length {A} (l : list A) : l <> [] -> 0 < length l.
Proof. destruct l; [done | simpl; lia]. Qed.

End Accuracy.

(** The accuracy figure of a scorer: the binary64 value of
    (correct / total) * 100, in [0, 100] and within 2^-45 of the exact
    percentage. *)
Definition is_accuracy (acc : Q) (correct total : nat) : Prop :=
  acc = JS.mul (JS.div (JS.num correct) (JS.num total)) 100
  /\ (0 <= acc)%Q /\ (acc <= 100)%Q
  /\ (Qabs (acc - 100 * (JS.num correct / JS.num total)) <= 2 ^ (-45))%Q.

Module AccuracyExample.

(** A Stroop session of 20 answered trials, 11 of them right. *)
Definition result (correct : bool) : StroopTask.TrialResult :=
  {| StroopTask.r_trial :=
       {| StroopTask.word := "RED"; StroopTask.backgroundColor := "#3b82f6";
          StroopTask.backgroundColorName := "BLUE"; StroopTask.isMatch := false |};
     StroopTask.r_response := negb correct;
     StroopTask.r_correct := correct;
     StroopTask.r_responseTime := 800 |}.

Definition session : list StroopTask.TrialResult :=
  replicate 11 (result true) ++ replicate 9 (result false).

End AccuracyExample.

(** C3 as stated fails: with 11 of 20 results correct the scorer returns
    55.00000000000001, not 55 = 100 x 11 / 20. *)
Lemma accuracy_not_exact :
  count_true StroopTask.r_correct AccuracyExample.session = 11
  /\ length AccuracyExample.session = 20
  /\ ~ (StroopTask.accuracy
          (StroopTask.calculateStats StroopTask.normal AccuracyExample.session)
        == 100 * (JS.num (count_true StroopTask.r_correct AccuracyExample.session)
                  / JS.num (length AccuracyExample.session)))%Q.
Proof.
  split; [reflexivity |]. split; [reflexivity |].
  vm_compute. discriminate.
Qed.

(** C3, amended.  For every non-empty sequence of recorded results, the
    accuracy that the Go/No-Go, Flanker and Stroop scorers compute is the
    binary64 value of (number of correct results / number of results) x 100,
    the quotient and the product each rounded to the nearest binary64
    number; it lies in the closed interval [0, 100] and differs from the
    exact 100 x correct / total by at most 2^-45. *)
Theorem accuracy_formula_and_range :
  (forall rs : list GoNoGo.TrialResult, rs <> [] ->
     is_accuracy (GoNoGo.overallAccuracy (GoNoGo.calculateStats rs))
       (count_true GoNoGo.r_correct rs) (length rs))
  /\ (forall rs : list FlankerTask.TrialResult, rs <> [] ->
     is_accuracy (FlankerTask.accuracy (FlankerTask.calculateStats rs))
       (count_true FlankerTask.r_correct rs) (length rs))
  /\ (forall level (rs : list StroopTask.TrialResult), rs <> [] ->
     is_accuracy (StroopTask.accuracy (StroopTask.calculateStats level rs))
       (count_true StroopTask.r_correct rs) (length rs)).
Proof.
  split; [| split]; intros; unfold is_accuracy;
    rewrite <- filter_length_count;
    (split; [reflexivity |]);
    apply percentage_spec;
    auto using filter_length_le, nonempty_length.
Qed.

Lemma accuracy_formula_and_range_witness :
  let t := {| GoNoGo.type := GoNoGo.go; GoNoGo.shape := GoNoGo.circle |} in
  let hit := {| GoNoGo.r_trial := t; GoNoGo.r_responded := true;
                GoNoGo.r_correct := true; GoNoGo.r_responseTime := Some 420%Z |} in
  let miss := {| GoNoGo.r_trial := t; GoNoGo.r_responded := false;
                 GoNoGo.r_correct := false; GoNoGo.r_responseTime := None |} in
  [hit; miss; hit] <> []
  /\ is_accuracy (GoNoGo.overallAccuracy (GoNoGo.calculateStats [hit; miss; hit]))
       2 3.
Proof.
  split; [discriminate |].
  apply (proj1 accuracy_formula_and_range). discriminate.
Defined.

(** ** Scoring: switch cost and flanker effect (C4) *)



Lemma sumZ_foldr (xs : list Z) : JS.sumZ xs = inject_Z (foldr Z.add 0%Z xs).
Proof.
  unfold JS.sumZ. f_equal.
  apply fold_symmetric; intros; lia.
Qed.


Lemma sumZ_bounds lo hi (xs : list Z) :
  Forall (fun x => (lo <= x <= hi)%Z) xs ->
  (lo * Z.of_nat (length xs) <= foldr Z.add 0 xs <= hi * Z.of_nat (length xs))%Z.
Proof.
  induction 1 as [|x xs Hx _ IH]; cbn [foldr length]; lia.
Qed.

Lemma mean_bounds lo hi (xs : list Z) :
  xs <> [] -> Forall (fun x => (lo <= x <= hi)%Z) xs ->
  (inject_Z lo <= JS.sumZ xs / JS.num (length xs))%Q
  /\ (JS.sumZ xs / JS.num (length xs) <= inject_Z hi)%Q.
Proof.
  intros Hne Hall.
  assert (Hpos : (0 < JS.num (length xs))%Q) by (apply num_pos; by destruct xs; [|simpl; lia]).
  destruct (sumZ_bounds lo hi xs Hall) as [Hlo Hhi].
  rewrite sumZ_foldr. unfold JS.num in *. split.
  - apply Qle_shift_div_l; [done |]. rewrite <- inject_Z_mult.
    by rewrite <- Zle_Qle.
  - apply Qle_shift_div_r; [done |]. rewrite <- inject_Z_mult.
    by rewrite <- Zle_Qle.
Qed.



Module C4Examples.

Definition sw (isSwitch : bool) (rt : Z) : TaskSwitching.TrialResult :=
  {| TaskSwitching.r_trial :=
       {| TaskSwitching.number := 4; TaskSwitching.letter := "A";
          TaskSwitching.task := TaskSwitching.number_task;
          TaskSwitching.isSwitch := isSwitch |};
     TaskSwitching.r_response := "even"; TaskSwitching.r_correct := true;
     TaskSwitching.r_responseTime := rt |}.


(** Three switch trials answered in 400, 500 and 500 ms and one repeat
    trial answered in 650 ms. *)
Definition session : list TaskSwitching.TrialResult :=
  [sw true 400; sw true 500; sw false 650; sw true 500]%Z.

End C4Examples.






(** ** The accepting window of the response handlers (C7) *)

Module Window.

(** The window is closed when the phase is not the playing phase, or the
    stimulus is not shown, or a response was already recorded. *)
Definition GoNoGo_closed (s : GoNoGo.State) : Prop :=
  GoNoGo.phase s <> GoNoGo.Playing
  \/ GoNoGo.showStimulus s = false
  \/ GoNoGo.responded s = true.

(** Stroop: the stimulus is on screen for the whole playing phase and a
    recorded response ends that phase; there is no stimulus before the first
    trial is generated. *)
Definition Stroop_closed (s : StroopTask.State) : Prop :=
  StroopTask.phase s <> StroopTask.Playing \/ StroopTask.trial s = None.

(** Flanker: the fixation cross hides the stimulus; a recorded response ends
    the playing phase. *)
Definition Flanker_closed (s : FlankerTask.State) : Prop :=
  FlankerTask.phase s <> FlankerTask.Playing
  \/ FlankerTask.showFixation s = true
  \/ FlankerTask.trials s !! FlankerTask.currentTrial s = None.

End Window.

Lemma GoNoGo_phase_eqb_neq p q : p <> q -> GoNoGo.GamePhase_eqb p q = false.
Proof. by destruct p, q. Qed.

Lemma Stroop_phase_eqb_neq p q : p <> q -> StroopTask.GamePhase_eqb p q = false.
Proof. by destruct p, q. Qed.

Lemma Flanker_phase_eqb_neq p q : p <> q -> FlankerTask.GamePhase_eqb p q = false.
Proof. by destruct p, q. Qed.

(** C7. In every state in which the accepting window is closed, the response
    handlers of Go/No-Go, Stroop and Flanker return the state they were
    given, whatever the response and the clock: no result is appended, the
    phase and the feedback stay as they are.  A response that is accepted
    closes the window. *)
Theorem response_outside_window_ignored :
  (forall now s, Window.GoNoGo_closed s -> GoNoGo.handleResponse now s = s)
  /\ (forall b now s, Window.Stroop_closed s -> StroopTask.handleResponse b now s = s)
  /\ (forall d now s, Window.Flanker_closed s -> FlankerTask.handleResponse d now s = s)
  /\ (forall now s, Window.GoNoGo_closed (GoNoGo.handleResponse now s))
  /\ (forall b now s, Window.Stroop_closed (StroopTask.handleResponse b now s))
  /\ (forall d now s, Window.Flanker_closed (FlankerTask.handleResponse d now s)).
Proof.
  split; [| split; [| split; [| split; [| split]]]].
  - intros now s [H | [H | H]]; unfold GoNoGo.handleResponse.
    + by rewrite (GoNoGo_phase_eqb_neq _ _ H).
    + rewrite H. by rewrite orb_true_r.
    + rewrite H. by rewrite orb_true_r.
  - intros b now s [H | H]; unfold StroopTask.handleResponse.
    + by rewrite (Stroop_phase_eqb_neq _ _ H).
    + rewrite H. by rewrite orb_true_r.
  - intros d now s [H | [H | H]]; unfold FlankerTask.handleResponse.
    + by rewrite (Flanker_phase_eqb_neq _ _ H).
    + rewrite H. by rewrite orb_true_r.
    + rewrite H. by rewrite orb_true_r.
  - intros now s. unfold GoNoGo.handleResponse, Window.GoNoGo_closed.
    destruct (GoNoGo.phase s) eqn:Hp; simpl; rewrite ?Hp; auto; try (left; congruence).
    destruct (GoNoGo.showStimulus s) eqn:Hs; simpl; rewrite ?Hp, ?Hs; auto.
    destruct (GoNoGo.responded s) eqn:Hr; simpl; rewrite ?Hp, ?Hs, ?Hr; auto.
    destruct (GoNoGo.trials s !! GoNoGo.currentTrial s); simpl; auto.
  - intros b now s. unfold StroopTask.handleResponse, Window.Stroop_closed.
    destruct (StroopTask.trial s) eqn:Ht;
      [| rewrite orb_true_r; auto].
    destruct (StroopTask.phase s) eqn:Hp; simpl; rewrite ?Hp; auto; left; congruence.
  - intros d now s. unfold FlankerTask.handleResponse, Window.Flanker_closed.
    destruct (FlankerTask.trials s !! FlankerTask.currentTrial s) eqn:Ht;
      [| rewrite orb_true_r; auto].
    destruct (FlankerTask.phase s) eqn:Hp; simpl; rewrite ?Hp; auto; try (left; congruence).
    destruct (FlankerTask.showFixation s) eqn:Hs; simpl; rewrite ?Hp, ?Hs; auto.
Qed.

Lemma response_outside_window_ignored_witness :
  let s := GoNoGo.initial |> GoNoGo.setPhase GoNoGo.Playing
                          |> GoNoGo.setShowFixation true in
  Window.GoNoGo_closed s /\ GoNoGo.handleResponse 1234%Z s = s.
Proof.
  split; [right; left; reflexivity |].
  apply (proj1 response_outside_window_ignored). right; left; reflexivity.
Defined.

(** ** Go/No-Go: the recorded results (C10) *)

(** What the claim requires of one recorded result. *)
Definition GoNoGo_result_ok (r : GoNoGo.TrialResult) : Prop :=
  (GoNoGo.r_responseTime r = None <-> GoNoGo.r_responded r = false)
  /\ (GoNoGo.r_responded r = true ->
      (GoNoGo.r_correct r = true <-> GoNoGo.type (GoNoGo.r_trial r) = GoNoGo.go))
  /\ (GoNoGo.r_responded r = false ->
      (GoNoGo.r_correct r = true <-> GoNoGo.type (GoNoGo.r_trial r) = GoNoGo.nogo)).

Lemma GoNoGo_step_results s s' :
  GoNoGo.step s s' ->
  Forall GoNoGo_result_ok (GoNoGo.results s) ->
  Forall GoNoGo_result_ok (GoNoGo.results s').
Proof.
  intros Hstep Hinv. destruct Hstep as [rng k s s' _ Hs | s | now s | s | now s | s].
  - unfold GoNoGo.startGame in Hs.
    destruct (GoNoGo.generateTrials rng k) as [[ts ?]|]; [| done].
    by simplify_eq.
  - unfold GoNoGo.countdownEffect.
    repeat case_match; simpl; auto.
  - unfold GoNoGo.fixationTimer. case_match; simpl; auto.
  - unfold GoNoGo.stimulusTimeout. repeat case_match; simpl; auto.
    apply Forall_app; split; [done |]. apply Forall_singleton.
    unfold GoNoGo_result_ok; simpl.
    destruct (GoNoGo.type _); simpl; naive_solver.
  - unfold GoNoGo.handleResponse. repeat case_match; simpl; auto.
    apply Forall_app; split; [done |]. apply Forall_singleton.
    unfold GoNoGo_result_ok; simpl.
    destruct (GoNoGo.type _); simpl; naive_solver.
  - unfold GoNoGo.feedbackTimer. repeat case_match; simpl; auto.
Qed.

(** C10. Every result recorded in a Go/No-Go session (in any state the
    component can reach) has a null response time exactly when no response
    was made; with a response it is correct exactly on a 'go' trial, and
    on a timeout it is correct exactly on a 'nogo' trial. *)
Theorem GoNoGo_results_wellformed (s : GoNoGo.State) :
  GoNoGo.reachable s -> Forall GoNoGo_result_ok (GoNoGo.results s).
Proof.
  unfold GoNoGo.reachable. intros H.
  apply rtc_ind_r with (x := GoNoGo.initial) (P := fun s => Forall GoNoGo_result_ok (GoNoGo.results s)) in H;
    [exact H | constructor | clear s H].
  intros y s _ Hstep IH. by eapply GoNoGo_step_results.
Qed.

Module GoNoGoRun.

(** A short session: start, count down, fixation, the first stimulus, and a
    key press 400 ms later. *)
Definition rng : JS.Rng := fun _ => 1 # 2.

Definition started : GoNoGo.State :=
  default GoNoGo.initial (GoNoGo.startGame rng 0 GoNoGo.initial).

Definition shown : GoNoGo.State :=
  started |> GoNoGo.countdownEffect |> GoNoGo.countdownEffect
          |> GoNoGo.countdownEffect |> GoNoGo.countdownEffect
          |> GoNoGo.fixationTimer 5000.

Definition answered : GoNoGo.State := GoNoGo.handleResponse 5400 shown.

End GoNoGoRun.

Lemma GoNoGoRun_rng01 : JS.in01 GoNoGoRun.rng.
Proof. intros k. split; [discriminate | reflexivity]. Qed.

Lemma GoNoGoRun_reachable : GoNoGo.reachable GoNoGoRun.answered.
Proof.
  unfold GoNoGo.reachable, GoNoGoRun.answered, GoNoGoRun.shown.
  eapply rtc_r; [| apply GoNoGo.step_response].
  eapply rtc_r; [| apply GoNoGo.step_fixation].
  do 4 (eapply rtc_r; [| apply GoNoGo.step_countdown]).
  apply rtc_once.
  apply (GoNoGo.step_startGame GoNoGoRun.rng 0); [apply GoNoGoRun_rng01 |].
  vm_compute. reflexivity.
Qed.

Lemma GoNoGo_results_wellformed_witness :
  length (GoNoGo.results GoNoGoRun.answered) = 1
  /\ Forall GoNoGo_result_ok (GoNoGo.results GoNoGoRun.answered).
Proof.
  split; [vm_compute; reflexivity |].
  apply GoNoGo_results_wellformed. apply GoNoGoRun_reachable.
Defined.

(** ** UFOV: the display-time staircase (C6) *)

Lemma UFOV_step_displayTime s s' :
  UFOV.step s s' ->
  (50 <= UFOV.displayTime s <= 500)%Z ->
  (50 <= UFOV.displayTime s' <= 500)%Z.
Proof.
  intros Hstep Hinv.
  destruct Hstep;
    unfold UFOV.startGame, UFOV.countdownEffect, UFOV.fixationEffect,
      UFOV.fixationTimer, UFOV.stimulusTimer, UFOV.maskTimer,
      UFOV.handleCenterResponse, UFOV.handlePeripheralResponse,
      UFOV.handleSubmitResponse, UFOV.feedbackTimer, UFOV.INITIAL_DISPLAY_TIME;
    repeat case_match; simpl; lia.
Qed.

(** C6. An accepted submission sets the display time to
    max(previous - 50, 50) when both answers are right and to
    min(previous + 50, 500) otherwise; starting from the initial 500 ms, the
    display time is within [50, 500] in every state the game reaches. *)
Theorem UFOV_staircase :
  (forall s c p t,
     UFOV.centerResponse s = Some c ->
     UFOV.peripheralResponse s = Some p ->
     UFOV.trial s = Some t ->
     UFOV.displayTime (UFOV.handleSubmitResponse s)
     = if UFOV.CenterShape_eqb c (UFOV.centerShape t)
          && (p =? UFOV.peripheralPosition t)%Z
       then Z.max (UFOV.displayTime s - 50) 50
       else Z.min (UFOV.displayTime s + 50) 500)
  /\ UFOV.displayTime UFOV.initial = 500%Z
  /\ (forall s, UFOV.reachable s -> (50 <= UFOV.displayTime s <= 500)%Z).
Proof.
  split; [| split].
  - intros s c p t Hc Hp Ht. unfold UFOV.handleSubmitResponse.
    rewrite Hc, Hp, Ht. by case_match.
  - reflexivity.
  - intros s H. unfold UFOV.reachable in H.
    apply rtc_ind_r with (x := UFOV.initial)
      (P := fun s => (50 <= UFOV.displayTime s <= 500)%Z) in H;
      [exact H | simpl; unfold UFOV.INITIAL_DISPLAY_TIME; lia | clear s H].
    intros y s _ Hstep IH. by eapply UFOV_step_displayTime.
Qed.

Module UFOVRun.

(** A trial answered correctly at the initial display time. *)
Definition answered : UFOV.State :=
  UFOV.initial
    |> UFOV.setTrial (Some {| UFOV.centerShape := UFOV.car;
                              UFOV.peripheralPosition := 3;
                              UFOV.t_displayTime := 500 |})
    |> UFOV.handleCenterResponse UFOV.car
    |> UFOV.handlePeripheralResponse 3.

End UFOVRun.

Lemma UFOV_staircase_witness :
  UFOV.displayTime (UFOV.handleSubmitResponse UFOVRun.answered) = 450%Z
  /\ (50 <= UFOV.displayTime UFOV.initial <= 500)%Z.
Proof.
  destruct UFOV_staircase as (Hsubmit & _ & Hbound). split.
  - rewrite (Hsubmit UFOVRun.answered UFOV.car 3%Z
               {| UFOV.centerShape := UFOV.car; UFOV.peripheralPosition := 3;
                  UFOV.t_displayTime := 500 |});
      reflexivity.
  - apply Hbound. apply rtc_refl.
Defined.

(** ** N-Back: no target among the first n positions (C5) *)





Lemma generateSequence_unfold rng fuel n k :
  NBack.generateSequence rng fuel n k
  = NBack.generateFrom rng fuel n NBack.TOTAL_TRIALS 0 [] 0 k.
Proof. unfold NBack.generateSequence. reflexivity. Qed.


Module NBackRun.

Definition rng : JS.Rng := fun k => Z.of_nat ((7 * k + 3) mod 20) # 20.

End NBackRun.


(** ** The puzzle: at least 2^n - 1 moves *)

Section PuzzleBound.
Import Puzzle.

Lemma run_app c l1 l2 : run c (l1 ++ l2) = run (run c l1) l2.
Proof. apply foldl_app. Qed.

Lemma legal_path_app l1 : forall c l2,
  legal_path c (l1 ++ l2) <-> legal_path c l1 /\ legal_path (run c l1) l2.
Proof.
  induction l1 as [|m l1 IH]; intros c l2; simpl.
  - tauto.
  - rewrite IH. tauto.
Qed.

Lemma run_untouched d l : forall c,
  Forall (fun m => m_disk m <> d) l -> run c l d = c d.
Proof.
  induction l as [|m l IH]; intros c Hl; [done |].
  inversion_clear Hl as [|? ? Hm Hl']. simpl.
  unfold run in IH. rewrite IH by done. unfold apply.
  destruct (Nat.eqb_spec d (m_disk m)); [congruence | done].
Qed.

Lemma moved_Exists d l c :
  run c l d <> c d -> Exists (fun m => m_disk m = d) l.
Proof.
  intros Hne.
  destruct (decide (Exists (fun m => m_disk m = d) l)) as [|Hno]; [done |].
  exfalso. apply Hne, run_untouched.
  apply Forall_forall. intros m Hm Hd. apply Hno.
  apply Exists_exists. eauto.
Qed.

Lemma first_occurrence {A} (P : A -> Prop) `{!forall x, Decision (P x)} l :
  Exists P l ->
  exists l1 m l2, l = l1 ++ m :: l2 /\ P m /\ Forall (fun x => ~ P x) l1.
Proof.
  induction l as [|x l IH]; intros HE; [by inversion HE |].
  destruct (decide (P x)) as [Hx|Hx].
  - exists [], x, l. by repeat split.
  - inversion_clear HE as [? ? Hx'|? ? Hl]; [done |].
    destruct (IH Hl) as (l1 & m & l2 & -> & Hm & Hl1).
    exists (x :: l1), m, l2. split; [done |]. split; [done |]. by constructor.
Qed.

Lemma last_occurrence {A} (P : A -> Prop) `{!forall x, Decision (P x)} l :
  Exists P l ->
  exists l1 m l2, l = l1 ++ m :: l2 /\ P m /\ Forall (fun x => ~ P x) l2.
Proof.
  induction l as [|x l IH]; intros HE; [by inversion HE |].
  destruct (decide (Exists P l)) as [Hl|Hl].
  - destruct (IH Hl) as (l1 & m & l2 & -> & Hm & Hl2).
    exists (x :: l1), m, l2. by repeat split.
  - inversion_clear HE as [? ? Hx|? ? Hl']; [| done].
    exists [], x, l. split; [done |]. split; [done |].
    apply Forall_forall. intros y Hy HP. apply Hl. apply Exists_exists. eauto.
Qed.

Lemma third_spec a p x : x <> a -> x <> p -> a <> p -> x = third a p.
Proof. by destruct a, p, x. Qed.

Lemma third_neq a p : a <> p -> third a p <> a /\ third a p <> p.
Proof. by destruct a, p. Qed.

Lemma count_le_app n l1 l2 : count_le n (l1 ++ l2) = count_le n l1 + count_le n l2.
Proof. unfold count_le. by rewrite List.filter_app, length_app. Qed.

Lemma count_le_cons_hit n m l :
  m_disk m <= n -> count_le n (m :: l) = S (count_le n l).
Proof.
  intros H. unfold count_le. simpl.
  destruct (Nat.leb_spec (m_disk m) n); [done | lia].
Qed.

Lemma count_le_S n l : count_le n l <= count_le (S n) l.
Proof.
  unfold count_le. induction l as [|m l IH]; simpl; [lia |].
  destruct (Nat.leb_spec (m_disk m) n), (Nat.leb_spec (m_disk m) (S n));
    simpl; lia.
Qed.

Lemma count_le_length n l : count_le n l <= length l.
Proof.
  unfold count_le. induction l as [|m l IH]; simpl; [lia |].
  destruct (m_disk m <=? n); simpl; lia.
Qed.

(** When the largest of the disks 1..n+1 moves, the n smaller ones are
    stacked on the third tower. *)
Lemma legal_largest c m n :
  legal c m -> m_disk m = S n ->
  forall d, 1 <= d <= n -> c d = third (c (S n)) (m_to m).
Proof.
  intros [Hto Hsmall] Hm d Hd. rewrite Hm in *.
  destruct (Hsmall d) as [H1 H2]; [lia |].
  by apply third_spec.
Qed.

(** Taking a stack of [n] disks from one tower to another costs at least
    2^n - 1 moves of these disks. *)
Theorem puzzle_lower_bound n : forall l c a b,
  a <> b ->
  (forall d, 1 <= d <= n -> c d = a) ->
  (forall d, 1 <= d <= n -> run c l d = b) ->
  legal_path c l ->
  2 ^ n - 1 <= count_le n l.
Proof.
  induction n as [|n IH]; intros l c a b Hab Hstart Hend Hlegal; [simpl; lia |].
  assert (Hca : c (S n) = a) by (apply Hstart; lia).
  assert (Hcb : run c l (S n) = b) by (apply Hend; lia).
  (* the first move of the largest disk *)
  destruct (first_occurrence (fun m => m_disk m = S n) l)
    as (l1 & m1 & l' & -> & Hm1 & Hl1).
  { apply (moved_Exists _ _ c). congruence. }
  apply legal_path_app in Hlegal as [Hlegal1 [Hlegal_m1 Hlegal']].
  set (c1 := run c l1) in *.
  assert (Hc1 : c1 (S n) = a).
  { unfold c1. rewrite run_untouched; [done |]. exact Hl1. }
  assert (Hbefore : 2 ^ n - 1 <= count_le n l1).
  { apply (IH l1 c a (third a (m_to m1))).
    - destruct Hlegal_m1 as [Hto _]. rewrite Hm1, Hc1 in Hto.
      destruct (third_neq a (m_to m1) Hto). congruence.
    - intros d Hd. apply Hstart. lia.
    - intros d Hd. fold c1. rewrite <- Hc1. by apply legal_largest.
    - exact Hlegal1. }
  (* its last move, among the moves from the first one on *)
  destruct (last_occurrence (fun m => m_disk m = S n) (m1 :: l'))
    as (l2 & m2 & l3 & Heq & Hm2 & Hl3).
  { by left. }
  assert (Hlegal23 : legal_path c1 (l2 ++ m2 :: l3)) by (by rewrite <- Heq).
  apply legal_path_app in Hlegal23 as [Hlegal2 [Hlegal_m2 Hlegal3]].
  rewrite Heq in Hend, Hcb |- *.
  set (c2 := run c1 l2) in *.
  assert (Hfinal : forall d,
             run (apply c2 m2) l3 d = run c (l1 ++ l2 ++ m2 :: l3) d).
  { intros d. by rewrite !run_app. }
  assert (Hto2 : m_to m2 = b).
  { rewrite <- Hcb, <- Hfinal, run_untouched by exact Hl3.
    unfold apply. by rewrite Hm2, Nat.eqb_refl. }
  assert (Hafter : 2 ^ n - 1 <= count_le n l3).
  { apply (IH l3 (apply c2 m2) (third (c2 (S n)) b) b).
    - destruct Hlegal_m2 as [Hto _]. rewrite Hm2, Hto2 in Hto.
      by destruct (third_neq (c2 (S n)) b Hto).
    - intros d Hd. unfold apply. rewrite Hm2.
      destruct (Nat.eqb_spec d (S n)); [lia |].
      rewrite <- Hto2. by apply legal_largest.
    - intros d Hd. rewrite Hfinal. apply Hend. lia.
    - exact Hlegal3. }
  rewrite !count_le_app, count_le_cons_hit by lia.
  pose proof (count_le_S n l1). pose proof (count_le_S n l3).
  simpl. lia.
Qed.

End PuzzleBound.

(** ** Tower of Hanoi: the towers of the game and the puzzle *)

Section HanoiTowers.
Import TowerOfHanoi Puzzle.

Lemma tower_setTower_eq i t ts : tower (setTower i t ts) i = t.
Proof. by destruct ts as [[t0 t1] t2], i. Qed.

Lemma tower_setTower_ne i j t ts : i <> j -> tower (setTower i t ts) j = tower ts j.
Proof. by destruct ts as [[t0 t1] t2], i, j. Qed.

Lemma TowerIndex_eqb_spec a b : reflect (a = b) (TowerIndex_eqb a b).
Proof. destruct a, b; by constructor. Qed.

Lemma decreasing_nil : decreasing [].
Proof. intros i j x y _ H. by rewrite lookup_nil in H. Qed.

Lemma decreasing_prefix l r : decreasing (l ++ r) -> decreasing l.
Proof.
  intros H i j x y Hij Hx Hy.
  apply (H i j); [done | |]; by apply lookup_app_l_Some.
Qed.

Lemma decreasing_snoc_lt l k x : decreasing (l ++ [k]) -> x ∈ l -> k < x.
Proof.
  intros H [i Hi]%list_elem_of_lookup.
  apply (H i (length l)).
  - by eapply lookup_lt_Some.
  - by apply lookup_app_l_Some.
  - by rewrite lookup_app_r, Nat.sub_diag.
Qed.

Lemma decreasing_snoc l k :
  decreasing l -> (forall x, x ∈ l -> k < x) -> decreasing (l ++ [k]).
Proof.
  intros H Hk i j x y Hij Hx Hy.
  assert (Hj : j < length (l ++ [k])) by (by eapply lookup_lt_Some).
  rewrite length_app in Hj. simpl in Hj.
  assert (Hxl : l !! i = Some x) by (rewrite lookup_app_l in Hx by lia; done).
  destruct (decide (j = length l)) as [->|Hne].
  - rewrite lookup_app_r, Nat.sub_diag in Hy by lia. simplify_eq/=.
    apply Hk. by eapply list_elem_of_lookup_2.
  - rewrite lookup_app_l in Hy by lia. by apply (H i j).
Qed.

Lemma decreasing_last_le l top x :
  decreasing l -> last l = Some top -> x ∈ l -> top <= x.
Proof.
  intros H [l' ->]%last_Some Hx.
  apply elem_of_app in Hx as [Hx | Hx%list_elem_of_singleton]; [| lia].
  pose proof (decreasing_snoc_lt _ _ _ H Hx). lia.
Qed.

Lemma decreasing_seq_rev n : decreasing (sizes (initialDisks n)).
Proof.
  induction n as [|n IH]; [apply decreasing_nil |].
  assert (Hbound : forall x, x ∈ sizes (initialDisks n) -> x <= n).
  { clear IH. induction n as [|n IHn]; simpl; intros x Hx.
    - by apply elem_of_nil in Hx.
    - apply elem_of_cons in Hx as [-> | Hx]; [lia |]. apply IHn in Hx. lia. }
  intros [|i] [|j] x y Hij Hx Hy; simpl in *; simplify_eq; try lia.
  - apply list_elem_of_lookup_2 in Hy. apply Hbound in Hy. lia.
  - apply (IH i j); [lia | done | done].
Qed.

Lemma sizes_initialDisks n : sizes (initialDisks n) ≡ₚ seq 1 n.
Proof.
  induction n as [|n IH]; [done |].
  rewrite seq_S. cbn [initialDisks sizes map TowerOfHanoi.size].
  fold (sizes (initialDisks n)). rewrite IH.
  apply (Permutation_cons_append (seq 1 n) (S n)).
Qed.

Lemma initializeTowers_ok n : towers_ok n (initializeTowers n).
Proof.
  split.
  - intros [| |]; simpl; [apply decreasing_seq_rev | apply decreasing_nil ..].
  - simpl. rewrite app_nil_r. apply sizes_initialDisks.
Qed.

Lemma towers_ok_NoDup n ts :
  towers_ok n ts ->
  NoDup (sizes (tower ts Start) ++ sizes (tower ts Middle) ++ sizes (tower ts Goal)).
Proof. intros [_ H]. rewrite H. apply NoDup_ListNoDup, List.seq_NoDup. Qed.

Lemma towers_ok_bound n ts i x :
  towers_ok n ts -> x ∈ sizes (tower ts i) -> 1 <= x <= n.
Proof.
  intros [_ H] Hx.
  assert (Hin : x ∈ seq 1 n).
  { rewrite <- H. destruct i; set_solver. }
  apply elem_of_seq in Hin. lia.
Qed.

(** A disk is on the tower whose list holds its size. *)
Lemma positionOf_spec n ts x p :
  towers_ok n ts -> x ∈ sizes (tower ts p) -> positionOf ts x = p.
Proof.
  intros Hok Hx. apply towers_ok_NoDup in Hok.
  apply NoDup_app in Hok as (_ & H01 & Hok).
  apply NoDup_app in Hok as (_ & H12 & _).
  unfold positionOf. destruct p; repeat case_bool_decide; try done.
  - exfalso. eapply H01; [done |]. set_solver.
  - exfalso. eapply H01; [done |]. set_solver.
  - exfalso. by eapply H12.
Qed.

Lemma in_tower_of_position n ts x :
  towers_ok n ts -> 1 <= x <= n -> x ∈ sizes (tower ts (positionOf ts x)).
Proof.
  intros [_ H] Hx.
  assert (Hin : x ∈ seq 1 n) by (apply elem_of_seq; lia).
  rewrite <- H in Hin. unfold positionOf.
  repeat case_bool_decide; [done | done |]. set_solver.
Qed.

Lemma validMove_above d t x :
  decreasing (sizes t) -> validMove d t = true -> x ∈ sizes t ->
  TowerOfHanoi.size d < x.
Proof.
  intros Hdec Hvalid Hx. unfold validMove in Hvalid.
  destruct (last t) as [top|] eqn:Hlast.
  - apply Nat.ltb_lt in Hvalid.
    assert (Hle : TowerOfHanoi.size top <= x).
    { apply (decreasing_last_le (sizes t)); [done | | done].
      unfold sizes. by rewrite fmap_last, Hlast. }
    lia.
  - apply last_None in Hlast. subst t. by apply elem_of_nil in Hx.
Qed.

(** The towers after the move that [handleTowerClick] makes. *)
Definition moved (selected towerIndex : TowerIndex) (d : Disk) (ts : Towers)
  : Towers :=
  ts |> setTower selected (removelast (tower ts selected))
     |> setTower towerIndex (tower ts towerIndex ++ [d]).

Section Move.
Variables (n : nat) (ts : Towers) (selected towerIndex : TowerIndex) (d : Disk).
Hypothesis Hok : towers_ok n ts.
Hypothesis Hne : selected <> towerIndex.
Hypothesis Hlast : last (tower ts selected) = Some d.
Hypothesis Hvalid : validMove d (tower ts towerIndex) = true.

Let src := removelast (tower ts selected).

Lemma source_split : tower ts selected = src ++ [d].
Proof.
  apply last_Some in Hlast as [l Hl]. unfold src. rewrite Hl.
  by rewrite removelast_last.
Qed.

Lemma moved_selected : tower (moved selected towerIndex d ts) selected = src.
Proof.
  unfold moved. rewrite tower_setTower_ne by done. apply tower_setTower_eq.
Qed.

Lemma moved_target :
  tower (moved selected towerIndex d ts) towerIndex = tower ts towerIndex ++ [d].
Proof. unfold moved. apply tower_setTower_eq. Qed.

Lemma moved_other q :
  q <> selected -> q <> towerIndex ->
  tower (moved selected towerIndex d ts) q = tower ts q.
Proof.
  intros H1 H2. unfold moved. by rewrite !tower_setTower_ne.
Qed.

Lemma moved_ok : towers_ok n (moved selected towerIndex d ts).
Proof.
  destruct Hok as [Hdec Hperm]. split.
  - intros q. destruct (decide (q = selected)) as [->|Hq1].
    + rewrite moved_selected. apply (decreasing_prefix _ (sizes [d])).
      unfold sizes. rewrite <- map_app, <- source_split. apply Hdec.
    + destruct (decide (q = towerIndex)) as [->|Hq2].
      * rewrite moved_target. unfold sizes. rewrite map_app.
        apply decreasing_snoc; [apply Hdec |].
        intros x Hx. by eapply validMove_above.
      * rewrite moved_other by done. apply Hdec.
  - rewrite <- Hperm. clear Hperm Hdec.
    pose proof source_split as Hs. pose proof moved_selected as H1.
    pose proof moved_target as H2. pose proof moved_other as H3.
    destruct selected, towerIndex; try done;
      rewrite H1, H2, ?H3, Hs by done;
      unfold sizes; rewrite !map_app; simpl; solve_Permutation.
Qed.

Lemma moved_legal :
  legal (positionOf ts) {| m_disk := TowerOfHanoi.size d; m_to := towerIndex |}.
Proof.
  assert (Hd : TowerOfHanoi.size d ∈ sizes (tower ts selected)).
  { rewrite source_split. unfold sizes. rewrite map_app. set_solver. }
  assert (Hpos : positionOf ts (TowerOfHanoi.size d) = selected)
    by (by eapply positionOf_spec).
  split; simpl; [congruence |].
  intros x Hx. rewrite Hpos.
  pose proof (towers_ok_bound _ _ _ _ Hok Hd) as Hbound.
  assert (Hin : x ∈ sizes (tower ts (positionOf ts x)))
    by (eapply in_tower_of_position; [done | lia]).
  destruct Hok as [Hdec _]. split; intros Hp; rewrite Hp in Hin.
  - rewrite source_split in Hin. unfold sizes in Hin. rewrite map_app in Hin.
    apply elem_of_app in Hin as [Hin | Hin%list_elem_of_singleton]; [| lia].
    assert (TowerOfHanoi.size d < x); [| lia].
    apply (decreasing_snoc_lt (sizes src)); [| done].
    specialize (Hdec selected). rewrite source_split in Hdec.
    unfold sizes in *. by rewrite map_app in Hdec.
  - assert (TowerOfHanoi.size d < x); [| lia].
    by eapply validMove_above.
Qed.

Lemma moved_position x :
  1 <= x <= n ->
  positionOf (moved selected towerIndex d ts) x
  = apply (positionOf ts) {| m_disk := TowerOfHanoi.size d; m_to := towerIndex |} x.
Proof.
  intros Hx. unfold apply. simpl.
  apply (positionOf_spec n); [apply moved_ok |].
  destruct (Nat.eqb_spec x (TowerOfHanoi.size d)) as [->|Hxd].
  - rewrite moved_target. unfold sizes. rewrite map_app. set_solver.
  - pose proof (in_tower_of_position _ _ _ Hok Hx) as Hin.
    set (p := positionOf ts x) in *.
    destruct (decide (p = selected)) as [Hp|Hp1].
    + rewrite Hp in *. rewrite moved_selected.
      rewrite source_split in Hin. unfold sizes in *. rewrite map_app in Hin.
      set_solver.
    + destruct (decide (p = towerIndex)) as [Hp|Hp2].
      * rewrite Hp in *. rewrite moved_target. unfold sizes in *.
        rewrite map_app. set_solver.
      * by rewrite moved_other.
Qed.

End Move.

End HanoiTowers.

(** ** Tower of Hanoi: the invariant of the game *)

Section HanoiGame.
Import TowerOfHanoi Puzzle.

(** Every disk on the start tower. *)
Definition allOnStart : Position := fun _ => Start.

(** What holds while a game is played and once it is won: the towers are
    well formed, a selected tower has a disk to give, the move counter is the
    length of a legal sequence of puzzle moves from the start position to
    the position on screen, and a won game has every disk on the goal. *)
Definition game_inv (s : State) : Prop :=
  towers_ok (numDisks s) (towers s)
  /\ (forall sel, selectedTower s = Some sel -> tower (towers s) sel <> [])
  /\ (exists l, legal_path allOnStart l
                /\ (forall x, 1 <= x <= numDisks s ->
                      run allOnStart l x = positionOf (towers s) x)
                /\ length l = moves s)
  /\ (phase s = Results -> length (tower (towers s) Goal) = numDisks s).

Definition inv (s : State) : Prop :=
  (phase s = Playing \/ phase s = Results -> game_inv s)
  /\ (phase s <> Instructions -> minMoves s = minimumMoves (numDisks s)).

Lemma phase_eqb_spec a b : reflect (a = b) (GamePhase_eqb a b).
Proof. destruct a, b; by constructor. Qed.

Lemma legal_ext n c c' m :
  (forall x, 1 <= x <= n -> c x = c' x) ->
  1 <= m_disk m <= n -> legal c' m -> legal c m.
Proof.
  intros Hext Hm [H1 H2]. split.
  - rewrite Hext by lia. done.
  - intros x Hx. rewrite !Hext by lia. by apply H2.
Qed.

Lemma inv_fresh n s :
  numDisks s = n -> towers s = initializeTowers n -> selectedTower s = None ->
  moves s = 0 -> phase s = Playing -> game_inv s.
Proof.
  intros Hn Ht Hs Hm Hp. unfold game_inv. rewrite Hn, Ht, Hs, Hm, Hp.
  split; [apply initializeTowers_ok |]. split; [done |]. split; [| done].
  exists []. split; [done |]. split; [| done].
  intros x Hx. symmetry. apply (positionOf_spec n); [apply initializeTowers_ok |].
  simpl. rewrite sizes_initialDisks. apply elem_of_seq. lia.
Qed.

Lemma game_inv_same s s' :
  numDisks s' = numDisks s -> towers s' = towers s -> moves s' = moves s ->
  (forall sel, selectedTower s' = Some sel -> tower (towers s) sel <> []) ->
  (phase s' = Results -> phase s = Results) ->
  game_inv s -> game_inv s'.
Proof.
  intros Hn Ht Hm Hsel' Hph (Hok & _ & Hpath & Hwon).
  unfold game_inv. rewrite Hn, Ht, Hm.
  split; [exact Hok |]. split; [exact Hsel' |]. split; [exact Hpath |].
  intros Hr. apply Hwon, Hph, Hr.
Qed.

Lemma game_inv_moved s s' sel i d :
  game_inv s -> sel <> i ->
  last (tower (towers s) sel) = Some d ->
  validMove d (tower (towers s) i) = true ->
  numDisks s' = numDisks s ->
  towers s' = moved sel i d (towers s) ->
  moves s' = moves s + 1 ->
  selectedTower s' = None ->
  (phase s' = Results -> length (tower (towers s') Goal) = numDisks s') ->
  game_inv s'.
Proof.
  intros (Hok & _ & (l & Hlegal & Hpos & Hlen) & _) Hne Hlast Hvalid
    Hn Ht Hm Hsel Hwon.
  unfold game_inv. rewrite Hsel. rewrite Hn, Ht in *. rewrite Hm.
  split; [by apply moved_ok |]. split; [done |]. split; [| done].
  set (m := {| m_disk := TowerOfHanoi.size d; m_to := i |}).
  assert (Hd : 1 <= m_disk m <= numDisks s).
  { apply (towers_ok_bound _ (towers s) sel); [done |].
    apply last_Some in Hlast as [l' ->]. unfold sizes.
    rewrite map_app. simpl. set_solver. }
  exists (l ++ [m]). split; [| split].
  - apply legal_path_app. split; [done |]. split; [| done].
    apply (legal_ext (numDisks s) _ (positionOf (towers s))); [done | done |].
    by apply (moved_legal (numDisks s) (towers s) sel).
  - intros x Hx. rewrite run_app.
    rewrite (moved_position (numDisks s)) by done.
    change (run (run allOnStart l) [m] x) with (apply (run allOnStart l) m x).
    unfold apply. by rewrite Hpos.
  - rewrite length_app. simpl. lia.
Qed.

Lemma inv_click i now s s' :
  handleTowerClick i now s = Some s' -> phase s = Playing -> game_inv s ->
  game_inv s' /\ numDisks s' = numDisks s /\ minMoves s' = minMoves s
  /\ (phase s' = Playing \/ phase s' = Results).
Proof.
  intros Hclick Hp Hinv. pose proof Hinv as (_ & Hsel & _).
  unfold handleTowerClick in Hclick. rewrite Hp in Hclick. simpl in Hclick.
  destruct (selectedTower s) as [sel|] eqn:Hs.
  - destruct (TowerIndex_eqb_spec sel i) as [->|Hne].
    + (* Deselect *)
      simplify_eq. split; [| simpl; auto].
      apply (game_inv_same s); simpl; try done; congruence.
    + destruct (last (tower (towers s) sel)) as [d|] eqn:Hlast; [| done].
      destruct (validMove d (tower (towers s) i)) eqn:Hvalid.
      * fold (moved sel i d (towers s)) in Hclick.
        destruct (Nat.eqb_spec (length (tower (moved sel i d (towers s)) Goal))
                    (numDisks s)) as [Hwin|Hnot]; simplify_eq.
        -- split; [| simpl; auto].
           by apply (game_inv_moved s _ sel i d).
        -- split; [| simpl; auto].
           apply (game_inv_moved s _ sel i d); simpl; try done; congruence.
      * simplify_eq. split; [| simpl; auto].
        apply (game_inv_same s); simpl; try done; congruence.
  - destruct (Nat.ltb_spec 0 (length (tower (towers s) i))) as [Hpos'|Hempty];
      simplify_eq.
    + split; [| simpl; auto].
      apply (game_inv_same s); simpl; try done; try congruence.
      intros sel [= <-] Hnil. rewrite Hnil in Hpos'. simpl in Hpos'. lia.
    + auto.
Qed.

Lemma inv_step s s' : step s s' -> inv s -> inv s'.
Proof.
  intros Hstep [Hgame Hmin].
  destruct Hstep as [n s Hp | s Hp | now s | i now s s' Hclick].
  - split; simpl; rewrite Hp; [intros [|]; done | done].
  - split; simpl; [intros [|]; done | done].
  - unfold countdownEffect.
    destruct (phase_eqb_spec (phase s) Countdown) as [Hp|Hp]; simpl;
      [| by split].
    destruct (Nat.ltb_spec 0 (countdown s)); simpl.
    { split; simpl; rewrite Hp; [intros [|]; done | intros _; apply Hmin; congruence]. }
    destruct (Nat.eqb_spec (countdown s) 0); simpl.
    + split; simpl; [| intros _; apply Hmin; congruence].
      intros _. by apply (inv_fresh (numDisks s)).
    + split; [done | done].
  - destruct (phase_eqb_spec (phase s) Playing) as [Hp|Hp].
    + destruct (inv_click _ _ _ _ Hclick Hp) as (Hg & Hn & Hm & Hph); [auto |].
      split; [done |]. intros _. rewrite Hn, Hm. apply Hmin. congruence.
    + unfold handleTowerClick in Hclick.
      destruct (phase_eqb_spec (phase s) Playing); [done |]. simpl in Hclick.
      simplify_eq. by split.
Qed.

Lemma reachable_inv s : reachable s -> inv s.
Proof.
  unfold reachable. intros H.
  apply rtc_ind_r with (x := initial) (P := inv) in H; [exact H | | clear s H].
  - split; simpl; [intros [|]; done | done].
  - intros y s _ Hstep IH. by eapply inv_step.
Qed.

(** In play a click always has an outcome: the selected tower has a disk. *)
Lemma click_defined i now s :
  reachable s -> is_Some (handleTowerClick i now s).
Proof.
  intros [Hgame _]%reachable_inv. unfold handleTowerClick.
  destruct (phase_eqb_spec (phase s) Playing) as [Hp|Hp]; simpl; [| eauto].
  destruct (Hgame (or_introl Hp)) as (_ & Hsel & _).
  destruct (selectedTower s) as [sel|]; [| by case_match; eauto].
  destruct (TowerIndex_eqb sel i); [eauto |].
  destruct (last (tower (towers s) sel)) eqn:Hlast.
  - case_match; eauto.
  - apply last_None in Hlast. by destruct (Hsel sel).
Qed.

Lemma won_all_on_goal n ts x :
  towers_ok n ts -> length (tower ts Goal) = n -> 1 <= x <= n ->
  positionOf ts x = Goal.
Proof.
  intros Hok Hlen Hx. apply (positionOf_spec n); [done |].
  pose proof Hok as [_ Hperm].
  assert (Hlens := Permutation_length Hperm).
  rewrite !length_app, length_seq in Hlens. unfold sizes in Hlens.
  rewrite !length_map in Hlens.
  assert (H0 : tower ts Start = []) by (apply length_zero_iff_nil; lia).
  assert (H1 : tower ts Middle = []) by (apply length_zero_iff_nil; lia).
  rewrite H0, H1 in Hperm. simpl in Hperm. rewrite Hperm.
  apply elem_of_seq. lia.
Qed.

End HanoiGame.

(** C2. The minimum shown for n disks is 2^n - 1: [startGame] stores it and
    it stays the figure for the current number of disks from then on; and
    whenever a game is completed (the results phase is reached, by whatever
    clicks), the move counter is at least 2^n - 1. *)
Theorem Hanoi_minimum_moves :
  (forall s, TowerOfHanoi.minMoves (TowerOfHanoi.startGame s)
             = 2 ^ TowerOfHanoi.numDisks s - 1)
  /\ (forall s, TowerOfHanoi.reachable s ->
        TowerOfHanoi.phase s <> TowerOfHanoi.Instructions ->
        TowerOfHanoi.minMoves s = 2 ^ TowerOfHanoi.numDisks s - 1)
  /\ (forall s, TowerOfHanoi.reachable s ->
        TowerOfHanoi.phase s = TowerOfHanoi.Results ->
        length (TowerOfHanoi.tower (TowerOfHanoi.towers s) TowerOfHanoi.Goal)
        = TowerOfHanoi.numDisks s
        /\ 2 ^ TowerOfHanoi.numDisks s - 1 <= TowerOfHanoi.moves s).
Proof.
  split; [done |]. split.
  - intros s [_ Hmin]%reachable_inv Hp. by apply Hmin.
  - intros s [Hgame _]%reachable_inv Hp.
    destruct (Hgame (or_intror Hp)) as (Hok & _ & (l & Hlegal & Hpos & Hlen) & Hwon).
    split; [by apply Hwon |].
    rewrite <- Hlen.
    etrans; [| apply (count_le_length (TowerOfHanoi.numDisks s))].
    apply (puzzle_lower_bound _ l allOnStart TowerOfHanoi.Start TowerOfHanoi.Goal);
      [done | done | | done].
    intros x Hx. rewrite Hpos by done.
    apply (won_all_on_goal (TowerOfHanoi.numDisks s)); auto.
Qed.

Module HanoiRun.

(** A game with three disks, solved in the seven moves of the textbook
    solution; every move is a click on the source and one on the target. *)
Definition playing : TowerOfHanoi.State :=
  TowerOfHanoi.initial
    |> TowerOfHanoi.setNumDisks 3
    |> TowerOfHanoi.startGame
    |> TowerOfHanoi.countdownEffect 0 |> TowerOfHanoi.countdownEffect 1000
    |> TowerOfHanoi.countdownEffect 2000 |> TowerOfHanoi.countdownEffect 3000.

Definition click (s : TowerOfHanoi.State) (i : TowerOfHanoi.TowerIndex)
  : TowerOfHanoi.State :=
  default s (TowerOfHanoi.handleTowerClick i 4000 s).

Definition play (s : TowerOfHanoi.State) (clicks : list TowerOfHanoi.TowerIndex)
  : TowerOfHanoi.State :=
  foldl click s clicks.

Definition solution : list TowerOfHanoi.TowerIndex :=
  let S := TowerOfHanoi.Start in
  let M := TowerOfHanoi.Middle in
  let G := TowerOfHanoi.Goal in
  [S; G; S; M; G; M; S; G; M; S; M; G; S; G].

Definition won : TowerOfHanoi.State := play playing solution.

(** After the first move, the start tower is selected again. *)
Definition second_pick : TowerOfHanoi.State :=
  play playing [TowerOfHanoi.Start; TowerOfHanoi.Goal; TowerOfHanoi.Start].

End HanoiRun.

Lemma HanoiRun_playing_reachable : TowerOfHanoi.reachable HanoiRun.playing.
Proof.
  unfold TowerOfHanoi.reachable, HanoiRun.playing.
  do 4 (eapply rtc_r; [| apply TowerOfHanoi.step_countdown]).
  eapply rtc_r; [| apply TowerOfHanoi.step_startGame; by left].
  apply rtc_once. by apply TowerOfHanoi.step_setNumDisks.
Qed.

Lemma HanoiRun_play_reachable clicks : forall s,
  TowerOfHanoi.reachable s -> TowerOfHanoi.reachable (HanoiRun.play s clicks).
Proof.
  induction clicks as [|i clicks IH]; intros s Hs; [done |].
  apply IH. unfold HanoiRun.click.
  destruct (TowerOfHanoi.handleTowerClick i 4000 s) as [s'|] eqn:Hc; [| done].
  eapply rtc_r; [exact Hs |]. by eapply TowerOfHanoi.step_click.
Qed.

Lemma Hanoi_minimum_moves_witness :
  TowerOfHanoi.phase HanoiRun.won = TowerOfHanoi.Results
  /\ TowerOfHanoi.moves HanoiRun.won = 7
  /\ 2 ^ TowerOfHanoi.numDisks HanoiRun.won - 1 <= TowerOfHanoi.moves HanoiRun.won.
Proof.
  split; [vm_compute; reflexivity |]. split; [vm_compute; reflexivity |].
  apply (proj2 (proj2 Hanoi_minimum_moves)).
  - apply HanoiRun_play_reachable, HanoiRun_playing_reachable.
  - vm_compute. reflexivity.
Defined.

(** C9. While a game is played and once it is won, each tower holds its
    disks in strictly decreasing size from bottom to top and the sizes on
    the three towers together are exactly 1, ..., numDisks, each once; a
    click that proposes to put the top disk of the selected tower on a tower
    whose top disk is smaller leaves the towers and the move counter as they
    are. *)
Theorem Hanoi_towers_invariant :
  (forall s, TowerOfHanoi.reachable s ->
     TowerOfHanoi.phase s = TowerOfHanoi.Playing
     \/ TowerOfHanoi.phase s = TowerOfHanoi.Results ->
     (forall i, Puzzle.decreasing
                  (Puzzle.sizes (TowerOfHanoi.tower (TowerOfHanoi.towers s) i)))
     /\ Puzzle.sizes (TowerOfHanoi.tower (TowerOfHanoi.towers s) TowerOfHanoi.Start)
        ++ Puzzle.sizes (TowerOfHanoi.tower (TowerOfHanoi.towers s) TowerOfHanoi.Middle)
        ++ Puzzle.sizes (TowerOfHanoi.tower (TowerOfHanoi.towers s) TowerOfHanoi.Goal)
        ≡ₚ seq 1 (TowerOfHanoi.numDisks s))
  /\ (forall s i now sel d top,
        TowerOfHanoi.phase s = TowerOfHanoi.Playing ->
        TowerOfHanoi.selectedTower s = Some sel ->
        sel <> i ->
        last (TowerOfHanoi.tower (TowerOfHanoi.towers s) sel) = Some d ->
        last (TowerOfHanoi.tower (TowerOfHanoi.towers s) i) = Some top ->
        TowerOfHanoi.size top < TowerOfHanoi.size d ->
        exists s', TowerOfHanoi.handleTowerClick i now s = Some s'
                   /\ TowerOfHanoi.towers s' = TowerOfHanoi.towers s
                   /\ TowerOfHanoi.moves s' = TowerOfHanoi.moves s).
Proof.
  split.
  - intros s [Hgame _]%reachable_inv Hp.
    destruct (Hgame Hp) as (Hok & _). exact Hok.
  - intros s i now sel d top Hp Hsel Hne Hd Htop Hlt.
    unfold TowerOfHanoi.handleTowerClick. rewrite Hp, Hsel. simpl.
    destruct (TowerIndex_eqb_spec sel i) as [?|_]; [done |].
    rewrite Hd. unfold TowerOfHanoi.validMove. rewrite Htop.
    destruct (Nat.ltb_spec (TowerOfHanoi.size d) (TowerOfHanoi.size top)); [lia |].
    by eexists.
Qed.

Lemma Hanoi_towers_invariant_witness :
  TowerOfHanoi.towers HanoiRun.second_pick
  = ([ {| TowerOfHanoi.id := 3; TowerOfHanoi.size := 3 |};
       {| TowerOfHanoi.id := 2; TowerOfHanoi.size := 2 |} ],
     [],
     [ {| TowerOfHanoi.id := 1; TowerOfHanoi.size := 1 |} ])
  /\ (forall i, Puzzle.decreasing
        (Puzzle.sizes (TowerOfHanoi.tower
                         (TowerOfHanoi.towers HanoiRun.second_pick) i)))
  /\ exists s',
       TowerOfHanoi.handleTowerClick TowerOfHanoi.Goal 5000 HanoiRun.second_pick
       = Some s'
       /\ TowerOfHanoi.towers s' = TowerOfHanoi.towers HanoiRun.second_pick
       /\ TowerOfHanoi.moves s' = TowerOfHanoi.moves HanoiRun.second_pick.
Proof.
  destruct Hanoi_towers_invariant as [Hinv Hreject].
  split; [vm_compute; reflexivity |]. split.
  - apply Hinv.
    + apply HanoiRun_play_reachable, HanoiRun_playing_reachable.
    + left. vm_compute. reflexivity.
  - apply (Hreject _ _ _ TowerOfHanoi.Start
             {| TowerOfHanoi.id := 2; TowerOfHanoi.size := 2 |}
             {| TowerOfHanoi.id := 1; TowerOfHanoi.size := 1 |});
      [vm_compute; reflexivity | vm_compute; reflexivity | discriminate
      | vm_compute; reflexivity | vm_compute; reflexivity | simpl; lia].
Defined.

(** ** Unregistered paths (C8) *)

(** C8, as the code behaves.  At /games/unknown-game, the path of a game id
    that does not exist, [App] renders nothing: its routes mount neither a
    fallback nor [GamePage], the one component that has a "Game Not Found"
    view and shows it for the same game id. *)
Theorem App_unknown_game_renders_nothing :
  App.render "/games/unknown-game" = None
  /\ GamePage.GamePage (Some "unknown-game") = GamePage.GameNotFound.
Proof.
  split; vm_compute; reflexivity.
Qed.

(** * Further properties of the games *)

(** ** Go/No-Go: one result per trial *)

Section GoNoGoSession.
Import GoNoGo.

(** While a session runs, the results recorded so far are the results of
    the first trials of the generated sequence, in order. *)
Definition session_inv (s : State) : Prop :=
  (phase s <> Instructions ->
     length (trials s) = TOTAL_TRIALS /\ trials s ≡ₚ unshuffled)
  /\ (phase s = Playing ->
        length (results s) = currentTrial s /\ currentTrial s < TOTAL_TRIALS)
  /\ (phase s = Feedback ->
        length (results s) = currentTrial s + 1 /\ currentTrial s < TOTAL_TRIALS)
  /\ (phase s = Results -> length (results s) = TOTAL_TRIALS)
  /\ (phase s = Playing \/ phase s = Feedback \/ phase s = Results ->
        map r_trial (results s) = take (length (results s)) (trials s)).

Lemma GamePhase_eqb_spec a b : reflect (a = b) (GamePhase_eqb a b).
Proof. destruct a, b; by constructor. Qed.

Lemma record_result s s' trial r :
  session_inv s -> phase s = Playing ->
  trials s !! currentTrial s = Some trial ->
  phase s' = Feedback -> trials s' = trials s ->
  currentTrial s' = currentTrial s -> results s' = results s ++ [r] ->
  r_trial r = trial ->
  session_inv s'.
Proof.
  intros (Htr & Hplay & _ & _ & Hmap) Hp Hlook Hp' Ht' Hc' Hres' Hr.
  destruct (Hplay Hp) as [Hlen Hlt].
  unfold session_inv. rewrite Hp', Ht', Hc', Hres', length_app. simpl.
  split; [intros _; apply Htr; congruence |].
  split; [done |]. split; [intros _; lia |]. split; [done |].
  intros _. rewrite map_app, Hmap by auto. simpl.
  rewrite Hlen, Hr, Nat.add_1_r. symmetry. by apply take_S_r.
Qed.

Lemma session_inv_step s s' : step s s' -> session_inv s -> session_inv s'.
Proof.
  intros Hstep Hinv. pose proof Hinv as (Htr & Hplay & Hfb & Hres & Hmap).
  destruct Hstep as [rng k s s' Hrng Hs | s | now s | s | now s | s].
  - unfold startGame, generateTrials in Hs.
    destruct (shuffle_perm rng Hrng unshuffled k) as (ts & Hrun & Hperm).
    rewrite Hrun in Hs. simplify_eq.
    unfold session_inv; simpl.
    split; [intros _; split; [by rewrite (Permutation_length Hperm) | done] |].
    repeat split; try done. by intros [|[|]].
  - unfold countdownEffect.
    destruct (GamePhase_eqb_spec (phase s) Countdown) as [Hp|Hp]; simpl; [| done].
    destruct (Nat.ltb_spec 0 (countdown s)); simpl.
    { unfold session_inv; simpl. rewrite Hp.
      split; [intros _; apply Htr; congruence |]. repeat split; try done.
      by intros [|[|]]. }
    destruct (Nat.eqb_spec (countdown s) 0); simpl; [| done].
    unfold session_inv; simpl.
    split; [intros _; apply Htr; congruence |].
    split; [intros _; unfold TOTAL_TRIALS; split; [done | lia] |].
    repeat split; done.
  - unfold fixationTimer.
    destruct (GamePhase_eqb_spec (phase s) Playing) as [Hp|Hp]; simpl; [| done].
    destruct (showFixation s); simpl; [| done].
    unfold session_inv; simpl. rewrite Hp.
    split; [intros _; apply Htr; congruence |].
    split; [intros _; by apply Hplay |]. repeat split; try done.
    intros _. apply Hmap. by left.
  - unfold stimulusTimeout.
    destruct (GamePhase_eqb_spec (phase s) Playing) as [Hp|Hp]; simpl; [| done].
    destruct (showStimulus s); simpl; [| done].
    destruct (responded s); simpl; [done |].
    destruct (trials s !! currentTrial s) as [trial|] eqn:Hlook; [| done].
    by eapply (record_result s _ trial).
  - unfold handleResponse.
    destruct (GamePhase_eqb_spec (phase s) Playing) as [Hp|Hp]; simpl; [| done].
    destruct (showStimulus s); simpl; [| done].
    destruct (responded s); simpl; [done |].
    destruct (trials s !! currentTrial s) as [trial|] eqn:Hlook.
    + by eapply (record_result s _ trial).
    + unfold session_inv; simpl. rewrite Hp.
      split; [intros _; apply Htr; congruence |].
      split; [intros _; by apply Hplay |]. repeat split; try done.
      intros _. apply Hmap. by left.
  - unfold feedbackTimer.
    destruct (GamePhase_eqb_spec (phase s) Feedback) as [Hp|Hp]; [| done].
    lazy beta iota zeta.
    destruct (Hfb Hp) as [Hlen Hlt].
    destruct (Nat.leb_spec TOTAL_TRIALS (currentTrial s + 1)).
    + unfold session_inv; simpl.
      split; [intros _; apply Htr; congruence |].
      split; [done |]. split; [done |]. split; [intros _; lia |].
      intros _. apply Hmap. auto.
    + unfold session_inv; simpl.
      split; [intros _; apply Htr; congruence |].
      split; [intros _; lia |]. split; [done |]. split; [done |].
      intros _. apply Hmap. auto.
Qed.

Lemma reachable_session_inv s : reachable s -> session_inv s.
Proof.
  unfold reachable. intros H.
  apply rtc_ind_r with (x := initial) (P := session_inv) in H;
    [exact H | | clear s H].
  - unfold session_inv; simpl. repeat split; try done; by intros [|[|]].
  - intros y s _ Hstep IH. by eapply session_inv_step.
Qed.

End GoNoGoSession.

(** X1. A finished Go/No-Go session holds one result for each of the 30
    generated trials, in the order of presentation; hence 21 of them belong
    to go trials and 9 to no-go trials, and none of the rates of the
    results screen is taken over an empty set. *)
Theorem GoNoGo_session_complete (s : GoNoGo.State) :
  GoNoGo.reachable s -> GoNoGo.phase s = GoNoGo.Results ->
  map GoNoGo.r_trial (GoNoGo.results s) = GoNoGo.trials s
  /\ length (GoNoGo.results s) = 30
  /\ GoNoGo.countType GoNoGo.go (map GoNoGo.r_trial (GoNoGo.results s)) = 21
  /\ GoNoGo.countType GoNoGo.nogo (map GoNoGo.r_trial (GoNoGo.results s)) = 9.
Proof.
  intros (Htr & _ & _ & Hres & Hmap)%reachable_session_inv Hp.
  destruct Htr as [Hlen Hperm]; [congruence |].
  assert (Hm : map GoNoGo.r_trial (GoNoGo.results s) = GoNoGo.trials s).
  { rewrite Hmap by auto. rewrite Hres by done. rewrite <- Hlen. apply firstn_all. }
  split; [exact Hm |]. split; [by apply Hres |].
  rewrite Hm, !(countType_perm _ _ _ Hperm). by split.
Qed.

(** X2. During play the current trial always exists: neither the response
    handler nor the stimulus timer reads past the end of the trial list. *)
Theorem GoNoGo_current_trial_defined (s : GoNoGo.State) :
  GoNoGo.reachable s -> GoNoGo.phase s = GoNoGo.Playing ->
  is_Some (GoNoGo.trials s !! GoNoGo.currentTrial s)
  /\ length (GoNoGo.results s) = GoNoGo.currentTrial s.
Proof.
  intros (Htr & Hplay & _)%reachable_session_inv Hp.
  destruct Htr as [Hlen _]; [congruence |]. destruct (Hplay Hp) as [Hres Hlt].
  split; [| done]. apply lookup_lt_is_Some. by rewrite Hlen.
Qed.

Module GoNoGoFullRun.

(** One trial answered by a key press 400 ms after the stimulus. *)
Definition round (s : GoNoGo.State) : GoNoGo.State :=
  s |> GoNoGo.fixationTimer 0 |> GoNoGo.handleResponse 400 |> GoNoGo.feedbackTimer.

Definition ready : GoNoGo.State :=
  GoNoGoRun.started |> GoNoGo.countdownEffect |> GoNoGo.countdownEffect
                    |> GoNoGo.countdownEffect |> GoNoGo.countdownEffect.

Definition finished : GoNoGo.State := Nat.iter 30 round ready.

End GoNoGoFullRun.

Lemma GoNoGoFullRun_ready_reachable : GoNoGo.reachable GoNoGoFullRun.ready.
Proof.
  unfold GoNoGo.reachable, GoNoGoFullRun.ready.
  do 4 (eapply rtc_r; [| apply GoNoGo.step_countdown]).
  apply rtc_once.
  apply (GoNoGo.step_startGame GoNoGoRun.rng 0); [apply GoNoGoRun_rng01 |].
  vm_compute. reflexivity.
Qed.

Lemma GoNoGoFullRun_reachable n :
  GoNoGo.reachable (Nat.iter n GoNoGoFullRun.round GoNoGoFullRun.ready).
Proof.
  induction n as [|n IH]; [apply GoNoGoFullRun_ready_reachable |].
  simpl. unfold GoNoGoFullRun.round at 1.
  eapply rtc_r; [| apply GoNoGo.step_feedback].
  eapply rtc_r; [| apply GoNoGo.step_response].
  eapply rtc_r; [| apply GoNoGo.step_fixation].
  exact IH.
Qed.

Lemma GoNoGo_session_complete_witness :
  GoNoGo.phase GoNoGoFullRun.finished = GoNoGo.Results
  /\ map GoNoGo.r_trial (GoNoGo.results GoNoGoFullRun.finished)
     = GoNoGo.trials GoNoGoFullRun.finished
  /\ length (GoNoGo.results GoNoGoFullRun.finished) = 30.
Proof.
  split; [vm_compute; reflexivity |].
  destruct (GoNoGo_session_complete GoNoGoFullRun.finished) as (Hm & Hl & _).
  - apply GoNoGoFullRun_reachable.
  - vm_compute. reflexivity.
  - by split.
Defined.

Lemma GoNoGo_current_trial_defined_witness :
  GoNoGo.phase GoNoGoFullRun.ready = GoNoGo.Playing
  /\ is_Some (GoNoGo.trials GoNoGoFullRun.ready
                !! GoNoGo.currentTrial GoNoGoFullRun.ready).
Proof.
  split; [vm_compute; reflexivity |].
  apply GoNoGo_current_trial_defined.
  - apply GoNoGoFullRun_ready_reachable.
  - vm_compute. reflexivity.
Defined.

(** ** Go/No-Go: the figures of the results screen *)

Lemma complementary_rates c n :
  c <= n -> 0 < n ->
  (Qabs (JS.mul (JS.div (JS.num c) (JS.num n)) 100
         + JS.mul (JS.div (JS.num (n - c)) (JS.num n)) 100 - 100)
   <= 2 ^ (-44))%Q.
Proof.
  intros Hc Hn.
  destruct (percentage_spec c n Hc Hn) as (_ & _ & H1).
  destruct (percentage_spec (n - c) n ltac:(lia) Hn) as (_ & _ & H2).
  assert (Hsum : (100 * (JS.num c / JS.num n) + 100 * (JS.num (n - c) / JS.num n)
                  == 100)%Q).
  { unfold JS.num. rewrite Nat2Z.inj_sub by done.
    unfold Z.sub. rewrite inject_Z_plus, inject_Z_opp.
    field. intros H0.
    assert (Hpos := num_pos n Hn). unfold JS.num in Hpos.
    rewrite H0 in Hpos. by apply Qlt_irrefl in Hpos. }
  apply Qabs_Qle_condition in H1, H2. apply Qabs_Qle_condition.
  assert (E45 : (2 ^ (-45) == 1 # 35184372088832)%Q) by reflexivity.
  assert (E44 : (2 ^ (-44) == 1 # 17592186044416)%Q) by reflexivity.
  rewrite E45 in H1, H2. rewrite E44.
  revert H1 H2 Hsum.
  generalize (JS.num c / JS.num n)%Q (JS.num (n - c) / JS.num n)%Q
    (JS.mul (JS.div (JS.num c) (JS.num n)) 100)
    (JS.mul (JS.div (JS.num (n - c)) (JS.num n)) 100).
  intros x y a b H1 H2 Hsum. lra.
Qed.

Module GoNoGoRates.

(** Nine no-go results, three of them correct rejections. *)
Definition result (correct : bool) : GoNoGo.TrialResult :=
  {| GoNoGo.r_trial := {| GoNoGo.type := GoNoGo.nogo; GoNoGo.shape := GoNoGo.square |};
     GoNoGo.r_responded := negb correct; GoNoGo.r_correct := correct;
     GoNoGo.r_responseTime := if correct then None else Some 350%Z |}.

Definition session : list GoNoGo.TrialResult :=
  replicate 3 (result true) ++ replicate 6 (result false).

End GoNoGoRates.

(** X3. On the results screen the inhibition success (correct rejections)
    and the false alarm rate each lie in [0, 100] and are complementary up
    to rounding: whenever at least one no-go result was recorded their sum
    is within 2^-44 of 100, though not always 100 itself (3 correct
    rejections out of 9 give 33.33333333333333 and 66.66666666666666); with
    no no-go result both are 0. *)
Theorem GoNoGo_rejections_and_false_alarms :
  (forall rs : list GoNoGo.TrialResult,
     let stats := GoNoGo.calculateStats rs in
     let nogo := List.filter
                   (fun r => GoNoGo.TrialType_eqb (GoNoGo.type (GoNoGo.r_trial r))
                               GoNoGo.nogo) rs in
     (nogo <> [] ->
        (0 <= GoNoGo.correctRejectionRate stats <= 100)%Q
        /\ (0 <= GoNoGo.falseAlarmRate stats <= 100)%Q
        /\ (Qabs (GoNoGo.correctRejectionRate stats + GoNoGo.falseAlarmRate stats
                  - 100) <= 2 ^ (-44))%Q)
     /\ (nogo = [] ->
        GoNoGo.correctRejectionRate stats = 0%Q
        /\ GoNoGo.falseAlarmRate stats = 0%Q))
  /\ ~ (GoNoGo.correctRejectionRate (GoNoGo.calculateStats GoNoGoRates.session)
        + GoNoGo.falseAlarmRate (GoNoGo.calculateStats GoNoGoRates.session)
        == 100)%Q.
Proof.
  split; [| vm_compute; discriminate].
  intros rs stats nogo. subst stats. unfold GoNoGo.calculateStats.
  cbn [GoNoGo.correctRejectionRate GoNoGo.falseAlarmRate]. fold nogo.
  destruct nogo as [|r nogo'] eqn:Hnogo.
  - split; [done |]. by intros _.
  - split; [| done]. intros _.
    change (0 <? length (r :: nogo')) with true. cbv iota.
    assert (Hle : length (List.filter GoNoGo.r_correct (r :: nogo'))
                  <= length (r :: nogo')) by apply filter_length_le.
    assert (Hpos : 0 < length (r :: nogo')) by (simpl; lia).
    destruct (percentage_spec _ _ Hle Hpos) as (H1 & H2 & _).
    destruct (percentage_spec
                (length (r :: nogo')
                 - length (List.filter GoNoGo.r_correct (r :: nogo')))
                (length (r :: nogo')) (Nat.le_sub_l _ _) Hpos) as (H3 & H4 & _).
    split; [by split |]. split; [by split |].
    by apply complementary_rates.
Qed.

Lemma GoNoGo_rejections_and_false_alarms_witness :
  let rs := GoNoGo.results GoNoGoFullRun.finished in
  let stats := GoNoGo.calculateStats rs in
  (Qabs (GoNoGo.correctRejectionRate stats + GoNoGo.falseAlarmRate stats - 100)
   <= 2 ^ (-44))%Q.
Proof.
  apply (proj1 (proj1 GoNoGo_rejections_and_false_alarms
                  (GoNoGo.results GoNoGoFullRun.finished))).
  vm_compute. discriminate.
Defined.

(** ** N-Back: the number of targets *)

Section NBackTargets.
Import NBack.

Lemma isTarget_prefix n s x j :
  j < length s -> isTarget n (s ++ [x]) j = isTarget n s j.
Proof.
  intros Hj. unfold isTarget.
  rewrite !(lookup_app_l s [x]) by lia. done.
Qed.

Lemma countTargets_snoc n s x :
  countTargets n (s ++ [x])
  = countTargets n s + (if isTarget n (s ++ [x]) (length s) then 1 else 0).
Proof.
  unfold countTargets. rewrite length_app. simpl.
  rewrite Nat.add_1_r, seq_S, List.filter_app, length_app. simpl.
  f_equal.
  - f_equal. apply List.filter_ext_in. intros j Hj.
    apply in_seq in Hj. apply isTarget_prefix. lia.
  - by destruct (isTarget n (s ++ [x]) (length s)).
Qed.

Lemma drawLetter_differs rng fuel n i s : forall k letter k',
  drawLetter rng fuel n i s k = Some (letter, k') ->
  (n <=? i) && same_letter letter (s !! (i - n)) = false.
Proof.
  induction fuel as [|fuel IH]; intros k letter k' H; [done |].
  cbn [drawLetter] in H.
  destruct (JS.get LETTERS _) as [l|]; [| done].
  destruct ((n <=? i) && same_letter l (s !! (i - n))) eqn:Hrep.
  - by apply IH in H.
  - by simplify_eq.
Qed.

Lemma isTarget_repeated n s x :
  1 <= n <= length s -> s !! (length s - n) = Some x ->
  isTarget n (s ++ [x]) (length s) = true.
Proof.
  intros Hn Hx. unfold isTarget.
  destruct (Nat.leb_spec n (length s)); [| lia]. simpl.
  apply bool_decide_eq_true.
  rewrite lookup_app_r, Nat.sub_diag by lia.
  rewrite lookup_app_l by lia. by rewrite Hx.
Qed.

Lemma isTarget_fresh n s letter :
  1 <= n ->
  (n <=? length s) && same_letter letter (s !! (length s - n)) = false ->
  isTarget n (s ++ [letter]) (length s) = false.
Proof.
  intros Hn Hdiff. unfold isTarget.
  destruct (Nat.leb_spec n (length s)) as [Hle|Hlt]; [| done]. simpl in *.
  apply bool_decide_eq_false.
  rewrite lookup_app_r, Nat.sub_diag by lia.
  rewrite lookup_app_l by lia. simpl.
  destruct (s !! (length s - n)) as [l|] eqn:Hl.
  - simpl in Hdiff. apply String.eqb_neq in Hdiff. congruence.
  - apply lookup_ge_None in Hl. lia.
Qed.

Lemma generateFrom_targets rng fuel n todo :
  1 <= n ->
  forall i s ct k out k',
    generateFrom rng fuel n todo i s ct k = Some (out, k') ->
    length s = i -> countTargets n s = ct -> ct <= targetCount ->
    countTargets n out <= targetCount.
Proof.
  intros Hn. induction todo as [|todo IH]; intros i s ct k out k' Hrun Hlen Hct Hle.
  - simpl in Hrun. simplify_eq. done.
  - cbn [generateFrom] in Hrun.
    assert (Hfresh : forall k0,
      match drawLetter rng fuel n i s k0 with
      | Some (letter, k1) =>
          generateFrom rng fuel n todo (S i) (s ++ [letter]) ct k1
      | None => None
      end = Some (out, k') -> countTargets n out <= targetCount).
    { intros k0 H.
      destruct (drawLetter rng fuel n i s k0) as [[letter k1]|] eqn:Hdraw;
        [| done].
      apply drawLetter_differs in Hdraw. rewrite <- Hlen in Hdraw.
      apply IH in H; [done | rewrite length_app; simpl; lia | | done].
      rewrite countTargets_snoc, isTarget_fresh by done. lia. }
    destruct (Nat.leb_spec n i) as [Hni|Hin]; cbn [andb] in Hrun;
      [| by apply (Hfresh k)].
    destruct (Nat.ltb_spec ct targetCount) as [Hlt|Hge];
      [| by apply (Hfresh k)].
    destruct (Qlt_le_dec (rng k) (4 # 10)); [| by apply (Hfresh (S k))].
    destruct (s !! (i - n)) as [x|] eqn:Hx; [| done].
    apply IH in Hrun; [done | rewrite length_app; simpl; lia | | lia].
    rewrite countTargets_snoc, isTarget_repeated; [lia | lia |].
    by rewrite Hlen.
Qed.

End NBackTargets.

(** X4. For a level n >= 1, a sequence that the n-back generator returns
    has at most floor(25 * 0.3) = 7 positions that the game treats as
    targets: a non-matching letter never repeats the letter n positions
    back, so the targets are the repetitions the generator chose. *)
Theorem NBack_at_most_seven_targets (rng : JS.Rng) (fuel n k : nat) out k' :
  1 <= n ->
  NBack.generateSequence rng fuel n k = Some (out, k') ->
  NBack.countTargets n out <= 7.
Proof.
  intros Hn Hrun. rewrite generateSequence_unfold in Hrun.
  change 7 with NBack.targetCount.
  eapply generateFrom_targets; [exact Hn | exact Hrun | reflexivity | reflexivity |].
  vm_compute. lia.
Qed.

Lemma NBack_at_most_seven_targets_witness :
  exists out k', NBack.generateSequence NBackRun.rng 5 2 0 = Some (out, k')
                 /\ NBack.countTargets 2 out <= 7.
Proof.
  eexists _, _. split; [vm_compute; reflexivity |].
  match goal with
  | |- NBack.countTargets 2 ?l <= 7 =>
      apply (NBack_at_most_seven_targets NBackRun.rng 5 2 0 l 34);
        [lia | vm_compute; reflexivity]
  end.
Defined.

(** ** N-Back: key presses and the stimulus timer *)

(** X5. A second key press in the same trial is ignored: applying the
    n-back response handler twice gives the state of applying it once. *)
Theorem NBack_second_press_ignored (s : NBack.State) :
  NBack.handleResponse (NBack.handleResponse s) = NBack.handleResponse s.
Proof.
  destruct (negb (NBack.GamePhase_eqb (NBack.phase s) NBack.Playing)
            || NBack.responded s) eqn:Hguard.
  - assert (H : NBack.handleResponse s = s).
    { unfold NBack.handleResponse. by rewrite Hguard. }
    by rewrite !H.
  - assert (Hr : NBack.responded (NBack.handleResponse s) = true).
    { unfold NBack.handleResponse. by rewrite Hguard. }
    revert Hr. generalize (NBack.handleResponse s). intros s1 Hr.
    unfold NBack.handleResponse. by rewrite Hr, orb_true_r.
Qed.

(** X6. The stimulus timer records an unanswered trial without marking it
    answered, so a key press after the letter has gone is still accepted:
    for a trial on screen without a response, the timer followed by a press
    appends two results for the same position, the first a non-response and
    the second a response, of which exactly one is correct. *)
Theorem NBack_late_press_recorded_twice (s : NBack.State) :
  NBack.phase s = NBack.Playing ->
  NBack.showLetter s = true ->
  NBack.responded s = false ->
  exists r1 r2,
    NBack.results (NBack.handleResponse (NBack.letterTimer s))
    = NBack.results s ++ [r1; r2]
    /\ NBack.r_position r1 = NBack.currentIndex s
    /\ NBack.r_position r2 = NBack.currentIndex s
    /\ NBack.r_responded r1 = false
    /\ NBack.r_responded r2 = true
    /\ NBack.r_correct r1 = negb (NBack.r_correct r2).
Proof.
  intros Hp Hshow Hresp.
  unfold NBack.letterTimer. rewrite Hp, Hshow, Hresp. simpl.
  destruct (NBack.isTarget (NBack.nLevel s) (NBack.sequence s)
              (NBack.currentIndex s)) eqn:Ht;
    unfold NBack.handleResponse; simpl; rewrite Hp, Hresp; simpl;
    rewrite Ht, <- app_assoc; simpl; by eexists _, _.
Qed.

Module NBackLate.

(** The first letter of a 2-back game on screen, not answered. *)
Definition shown : NBack.State := {|
  NBack.phase := NBack.Playing; NBack.nLevel := 2; NBack.countdown := 0;
  NBack.sequence := ["F"; "N"; "G"; "X"; "G"];
  NBack.currentIndex := 0; NBack.currentLetter := Some "F";
  NBack.showLetter := true; NBack.results := []; NBack.responded := false;
  NBack.lastFeedback := None |}.

End NBackLate.

Lemma NBack_late_press_recorded_twice_witness :
  length (NBack.results (NBack.handleResponse (NBack.letterTimer NBackLate.shown)))
  = 2.
Proof.
  destruct (NBack_late_press_recorded_twice NBackLate.shown)
    as (r1 & r2 & Hres & _); [reflexivity | reflexivity | reflexivity |].
  rewrite Hres. reflexivity.
Defined.

(** ** Tower of Hanoi: clicks in play *)

(** X7. In every state the game can reach, a click on a tower has a defined
    outcome: a tower is selected only when it holds a disk and the towers do
    not change while it is selected, so the move never reads the top of an
    empty tower. *)
Theorem Hanoi_click_never_undefined (s : TowerOfHanoi.State) i now :
  TowerOfHanoi.reachable s ->
  is_Some (TowerOfHanoi.handleTowerClick i now s)
  /\ (forall sel, TowerOfHanoi.phase s = TowerOfHanoi.Playing ->
        TowerOfHanoi.selectedTower s = Some sel ->
        TowerOfHanoi.tower (TowerOfHanoi.towers s) sel <> []).
Proof.
  intros Hs. split; [by apply click_defined |].
  intros sel Hp Hsel. apply reachable_inv in Hs as [Hgame _].
  destruct (Hgame (or_introl Hp)) as (_ & Hnonempty & _). by apply Hnonempty.
Qed.

Lemma Hanoi_click_never_undefined_witness :
  is_Some (TowerOfHanoi.handleTowerClick TowerOfHanoi.Goal 5000
             HanoiRun.second_pick).
Proof.
  apply Hanoi_click_never_undefined.
  apply HanoiRun_play_reachable, HanoiRun_playing_reachable.
Defined.

Section HanoiEnd.
Import TowerOfHanoi Puzzle.

(** While the game is on, the goal tower is not complete. *)
Definition not_won (s : State) : Prop :=
  phase s = Playing -> 0 < numDisks s ->
  length (tower (towers s) Goal) <> numDisks s.

Lemma not_won_step s s' : step s s' -> not_won s -> not_won s'.
Proof.
  intros Hstep Hinv.
  destruct Hstep as [n s Hp | s Hp | now s | i now s s' Hclick].
  - intros Hp'. simpl in Hp'. congruence.
  - intros Hp'. simpl in Hp'. done.
  - unfold countdownEffect.
    destruct (phase_eqb_spec (phase s) Countdown) as [Hp|Hp]; simpl; [| done].
    destruct (Nat.ltb_spec 0 (countdown s)); simpl.
    { intros Hp'. simpl in Hp'. congruence. }
    destruct (Nat.eqb_spec (countdown s) 0); simpl; [| done].
    intros _ Hn. simpl in *. lia.
  - unfold handleTowerClick in Hclick.
    destruct (phase_eqb_spec (phase s) Playing) as [Hp|Hp]; simpl in Hclick;
      [| by simplify_eq].
    destruct (selectedTower s) as [sel|].
    + destruct (TowerIndex_eqb sel i); [by simplify_eq |].
      destruct (last (tower (towers s) sel)) as [d|]; [| done].
      destruct (validMove d (tower (towers s) i)); [| by simplify_eq].
      match type of Hclick with
      | context [Nat.eqb ?a ?b] => destruct (Nat.eqb_spec a b) as [Hwin|Hnot]
      end; simplify_eq.
      * intros Hp'. simpl in Hp'. done.
      * intros _ _. simpl. exact Hnot.
    + destruct (0 <? length (tower (towers s) i)); by simplify_eq.
Qed.

Lemma reachable_not_won s : reachable s -> not_won s.
Proof.
  unfold reachable. intros H.
  apply rtc_ind_r with (x := initial) (P := not_won) in H;
    [exact H | | clear s H].
  - intros Hp. simpl in Hp. done.
  - intros y s _ Hstep IH. by eapply not_won_step.
Qed.

End HanoiEnd.

(** X8. The game ends exactly when the goal tower is complete: in the
    results phase the goal tower holds all numDisks disks, and while the
    playing phase lasts (with at least one disk) it holds fewer. *)
Theorem Hanoi_ends_when_goal_complete (s : TowerOfHanoi.State) :
  TowerOfHanoi.reachable s ->
  (TowerOfHanoi.phase s = TowerOfHanoi.Results ->
     length (TowerOfHanoi.tower (TowerOfHanoi.towers s) TowerOfHanoi.Goal)
     = TowerOfHanoi.numDisks s)
  /\ (TowerOfHanoi.phase s = TowerOfHanoi.Playing ->
      0 < TowerOfHanoi.numDisks s ->
      length (TowerOfHanoi.tower (TowerOfHanoi.towers s) TowerOfHanoi.Goal)
      < TowerOfHanoi.numDisks s).
Proof.
  intros Hs. pose proof (reachable_not_won s Hs) as Hnot.
  apply reachable_inv in Hs as [Hgame _]. split.
  - intros Hp. destruct (Hgame (or_intror Hp)) as (_ & _ & _ & Hwon). by apply Hwon.
  - intros Hp Hn. destruct (Hgame (or_introl Hp)) as ([_ Hperm] & _).
    specialize (Hnot Hp Hn).
    apply Permutation_length in Hperm.
    rewrite !length_app, length_seq in Hperm. unfold Puzzle.sizes in Hperm.
    rewrite !length_map in Hperm. lia.
Qed.

Lemma Hanoi_ends_when_goal_complete_witness :
  length (TowerOfHanoi.tower (TowerOfHanoi.towers HanoiRun.won) TowerOfHanoi.Goal)
  = 3
  /\ length (TowerOfHanoi.tower (TowerOfHanoi.towers HanoiRun.second_pick)
               TowerOfHanoi.Goal) < 3.
Proof.
  split.
  - apply (proj1 (Hanoi_ends_when_goal_complete HanoiRun.won
                    (HanoiRun_play_reachable _ _ HanoiRun_playing_reachable))).
    vm_compute. reflexivity.
  - apply (proj2 (Hanoi_ends_when_goal_complete HanoiRun.second_pick
                    (HanoiRun_play_reachable _ _ HanoiRun_playing_reachable)));
      [vm_compute; reflexivity | vm_compute; lia].
Defined.

(** ** UFOV: the trials of a session and the figures of the results screen *)

Section UFOVSession.
Import UFOV.

(** A trial that the game can show: the peripheral target is at one of the
    eight positions and the display time is within the staircase bounds. *)
Definition trial_ok (t : Trial) : Prop :=
  (0 <= peripheralPosition t < Z.of_nat POSITIONS)%Z
  /\ (50 <= t_displayTime t <= 500)%Z.

Definition trials_inv (s : State) : Prop :=
  (50 <= displayTime s <= 500)%Z
  /\ (forall t, trial s = Some t -> trial_ok t)
  /\ Forall (fun r => trial_ok (r_trial r)) (results s).

Lemma trials_inv_step s s' : step s s' -> trials_inv s -> trials_inv s'.
Proof.
  intros Hstep Hinv. pose proof Hinv as (Hd & Ht & Hr).
  destruct Hstep as [s | s | rng k s Hrng | s | s | s | r s | p s | s | s].
  - unfold startGame, trials_inv. cbn -[Z.le].
    unfold INITIAL_DISPLAY_TIME. split; [lia | by split].
  - unfold countdownEffect. repeat case_match; try done;
      unfold trials_inv; simpl; (split; [done |]; split; [done | constructor]).
  - unfold fixationEffect. case_match; [| done].
    unfold trials_inv; simpl. split; [done |]. split; [| done].
    intros t [= <-]. split; simpl; [| done].
    apply (floor_mul_range rng Hrng). unfold POSITIONS. lia.
  - unfold fixationTimer. by case_match.
  - unfold stimulusTimer. by case_match.
  - unfold maskTimer. by case_match.
  - done.
  - done.
  - unfold handleSubmitResponse.
    destruct (centerResponse s) as [c|]; [| done].
    destruct (peripheralResponse s) as [p|]; [| done].
    destruct (trial s) as [t|] eqn:Htrial; [| done].
    assert (Hres : Forall (fun r => trial_ok (r_trial r))
                     (results s ++
                        [{| r_trial := t; r_centerResponse := c;
                            r_peripheralResponse := p;
                            r_centerCorrect := CenterShape_eqb c (centerShape t);
                            r_peripheralCorrect := (p =? peripheralPosition t)%Z |}])).
    { apply Forall_app. split; [done |]. apply Forall_singleton. simpl. by apply Ht. }
    case_match; unfold trials_inv; simpl; rewrite Htrial;
      (split; [lia | split; [exact Ht | exact Hres]]).
  - unfold feedbackTimer. by repeat case_match.
Qed.

Lemma reachable_trials_inv s : reachable s -> trials_inv s.
Proof.
  unfold reachable. intros H.
  apply rtc_ind_r with (x := initial) (P := trials_inv) in H;
    [exact H | | clear s H].
  - unfold trials_inv. cbn [displayTime trial results initial].
    unfold INITIAL_DISPLAY_TIME. split; [lia |]. split; [done | constructor].
  - intros y s _ Hstep IH. by eapply trials_inv_step.
Qed.

End UFOVSession.

(** X9. In every state the UFOV game reaches, the trial on screen and the
    trials of all recorded results have their peripheral target at one of
    the eight positions 0..7 of the response screen and a display time
    between 50 and 500 ms. *)
Theorem UFOV_trials_within_bounds (s : UFOV.State) :
  UFOV.reachable s ->
  (forall t, UFOV.trial s = Some t ->
     (0 <= UFOV.peripheralPosition t < 8)%Z
     /\ (50 <= UFOV.t_displayTime t <= 500)%Z)
  /\ Forall (fun r =>
       (0 <= UFOV.peripheralPosition (UFOV.r_trial r) < 8)%Z
       /\ (50 <= UFOV.t_displayTime (UFOV.r_trial r) <= 500)%Z) (UFOV.results s).
Proof.
  intros (_ & Ht & Hr)%reachable_trials_inv. split.
  - intros t Htrial. by apply Ht.
  - exact Hr.
Qed.

Lemma filter_both_le {A} (p q : A -> bool) (l : list A) :
  length (List.filter (fun x => p x && q x) l) <= length (List.filter p l)
  /\ length (List.filter (fun x => p x && q x) l) <= length (List.filter q l).
Proof.
  induction l as [|x l [IH1 IH2]]; simpl; [lia |].
  destruct (p x), (q x); simpl; lia.
Qed.

Lemma rate_mono a b n :
  a <= b -> 0 < n ->
  (JS.mul (JS.div (JS.num a) (JS.num n)) 100
   <= JS.mul (JS.div (JS.num b) (JS.num n)) 100)%Q.
Proof.
  intros Hab Hn. unfold JS.mul, JS.div.
  apply round_mono. apply Qmult_le_compat_r; [| discriminate].
  apply round_mono.
  apply Qmult_le_compat_r; [by apply num_le |].
  apply Qinv_le_0_compat, Qlt_le_weak, num_pos, Hn.
Qed.

(** X10. On the UFOV results screen the overall accuracy (both answers
    right) never exceeds the centre accuracy nor the peripheral accuracy;
    for a session the game can reach, the average display time lies between
    50 and 500 ms. *)
Theorem UFOV_stats_consistent :
  (forall rs : list UFOV.TrialResult, rs <> [] ->
     (UFOV.overallAccuracy (UFOV.calculateStats rs)
      <= UFOV.centerAccuracy (UFOV.calculateStats rs))%Q
     /\ (UFOV.overallAccuracy (UFOV.calculateStats rs)
         <= UFOV.peripheralAccuracy (UFOV.calculateStats rs))%Q)
  /\ (forall s, UFOV.reachable s -> UFOV.results s <> [] ->
        (50 <= UFOV.avgDisplayTime (UFOV.calculateStats (UFOV.results s)))%Q
        /\ (UFOV.avgDisplayTime (UFOV.calculateStats (UFOV.results s)) <= 500)%Q).
Proof.
  split.
  - intros rs Hne.
    destruct (filter_both_le UFOV.r_centerCorrect UFOV.r_peripheralCorrect rs).
    unfold UFOV.calculateStats.
    cbn [UFOV.overallAccuracy UFOV.centerAccuracy UFOV.peripheralAccuracy].
    split; apply rate_mono; auto using nonempty_length.
  - intros s (_ & _ & Hr)%reachable_trials_inv Hne.
    unfold UFOV.calculateStats. cbn [UFOV.avgDisplayTime].
    rewrite <- (length_map (fun r => UFOV.t_displayTime (UFOV.r_trial r))).
    destruct (mean_bounds 50 500
                (map (fun r => UFOV.t_displayTime (UFOV.r_trial r)) (UFOV.results s)))
      as [Hlo Hhi].
    + destruct (UFOV.results s); [done | discriminate].
    + apply Forall_map. eapply Forall_impl; [exact Hr |].
      intros r [_ H]. exact H.
    + unfold JS.div. split.
      * rewrite <- (round_Z 50) by done. by apply round_mono.
      * rewrite <- (round_Z 500) by done. by apply round_mono.
Qed.

Module UFOVFullRun.

Definition rng : JS.Rng := fun k => Z.of_nat ((3 * k + 1) mod 8) # 8.

(** One trial of a session, answered "car" at position 3. *)
Definition round (k : nat) (s : UFOV.State) : UFOV.State :=
  s |> UFOV.fixationEffect rng k |> UFOV.fixationTimer |> UFOV.stimulusTimer
    |> UFOV.maskTimer |> UFOV.handleCenterResponse UFOV.car
    |> UFOV.handlePeripheralResponse 3 |> UFOV.handleSubmitResponse
    |> UFOV.feedbackTimer.

Definition ready : UFOV.State :=
  UFOV.initial |> UFOV.startGame |> UFOV.countdownEffect |> UFOV.countdownEffect
               |> UFOV.countdownEffect |> UFOV.countdownEffect.

Definition three_trials : UFOV.State := ready |> round 0 |> round 2 |> round 4.

End UFOVFullRun.

Lemma UFOVFullRun_rng01 : JS.in01 UFOVFullRun.rng.
Proof.
  intros k. unfold UFOVFullRun.rng.
  pose proof (Nat.mod_upper_bound (3 * k + 1) 8).
  split; unfold Qle, Qlt; simpl; lia.
Qed.

Lemma UFOVFullRun_round_reachable k s :
  UFOV.reachable s -> UFOV.reachable (UFOVFullRun.round k s).
Proof.
  intros Hs. unfold UFOVFullRun.round, UFOV.reachable.
  eapply rtc_r; [| apply UFOV.step_feedback].
  eapply rtc_r; [| apply UFOV.step_submit].
  eapply rtc_r; [| apply UFOV.step_peripheral].
  eapply rtc_r; [| apply UFOV.step_center].
  eapply rtc_r; [| apply UFOV.step_mask].
  eapply rtc_r; [| apply UFOV.step_stimulus].
  eapply rtc_r; [| apply UFOV.step_fixationTimer].
  eapply rtc_r; [| apply UFOV.step_fixationEffect, UFOVFullRun_rng01].
  exact Hs.
Qed.

Lemma UFOVFullRun_reachable : UFOV.reachable UFOVFullRun.three_trials.
Proof.
  unfold UFOVFullRun.three_trials.
  do 3 apply UFOVFullRun_round_reachable.
  unfold UFOVFullRun.ready, UFOV.reachable.
  do 4 (eapply rtc_r; [| apply UFOV.step_countdown]).
  apply rtc_once, UFOV.step_startGame.
Qed.

Lemma UFOV_trials_within_bounds_witness :
  length (UFOV.results UFOVFullRun.three_trials) = 3
  /\ Forall (fun r =>
       (0 <= UFOV.peripheralPosition (UFOV.r_trial r) < 8)%Z
       /\ (50 <= UFOV.t_displayTime (UFOV.r_trial r) <= 500)%Z)
       (UFOV.results UFOVFullRun.three_trials).
Proof.
  split; [vm_compute; reflexivity |].
  apply (proj2 (UFOV_trials_within_bounds _ UFOVFullRun_reachable)).
Defined.

Lemma UFOV_stats_consistent_witness :
  (50 <= UFOV.avgDisplayTime
           (UFOV.calculateStats (UFOV.results UFOVFullRun.three_trials)))%Q
  /\ (UFOV.overallAccuracy
        (UFOV.calculateStats (UFOV.results UFOVFullRun.three_trials))
      <= UFOV.centerAccuracy
           (UFOV.calculateStats (UFOV.results UFOVFullRun.three_trials)))%Q.
Proof.
  assert (Hne : UFOV.results UFOVFullRun.three_trials <> []).
  { vm_compute. discriminate. }
  destruct UFOV_stats_consistent as [Hacc Havg]. split.
  - exact (proj1 (Havg UFOVFullRun.three_trials UFOVFullRun_reachable Hne)).
  - exact (proj1 (Hacc (UFOV.results UFOVFullRun.three_trials) Hne)).
Defined.

(** ** Task Switching: the generated trials and the judgement *)

Section TaskSwitchingTrials.
Import TaskSwitching.

(** The trials appended from round [i] on, given the task before them. *)
Fixpoint chain_ok (i : nat) (lastTask : TaskType) (l : list Trial) : Prop :=
  match l with
  | [] => True
  | t :: l' =>
      isSwitch t = (0 <? i) && negb (TaskType_eqb (task t) lastTask)
      /\ (0 < i -> i mod 4 = 0 -> isSwitch t = true)
      /\ chain_ok (S i) (task t) l'
  end.

Lemma TaskType_eqb_other t :
  TaskType_eqb (match t with number_task => letter_task | letter_task => number_task end) t
  = false.
Proof. by destruct t. Qed.

Lemma generateFrom_chain rng (Hrng : JS.in01 rng) todo :
  forall i acc lastTask k,
    exists new k',
      generateFrom rng todo i acc lastTask k = Some (acc ++ new, k')
      /\ length new = todo /\ chain_ok i lastTask new.
Proof.
  induction todo as [|todo IH]; intros i acc lastTask k.
  - exists [], k. simpl. by rewrite app_nil_r.
  - cbn [generateFrom].
    set (sw := if 0 <? i then
                 if i mod 4 =? 0 then (true, k)
                 else (if Qlt_le_dec (rng k) (3 # 10) then true else false, S k)
               else (false, k)).
    assert (Hsw : 0 < i -> i mod 4 = 0 -> fst sw = true).
    { intros Hi Hm. unfold sw.
      destruct (Nat.ltb_spec 0 i); [| lia]. by rewrite Hm. }
    destruct sw as [shouldSwitch k1]. simpl in Hsw.
    destruct (floor_mul_range rng Hrng k1 (length NUMBERS)) as [Hn0 Hn1];
      [simpl; lia |].
    destruct (floor_mul_range rng Hrng (S k1) (length (VOWELS ++ CONSONANTS)))
      as [Hl0 Hl1]; [simpl; lia |].
    unfold JS.get.
    destruct (Z.ltb_spec (JS.floor_mul (rng k1) (length NUMBERS)) 0); [lia |].
    destruct (Z.ltb_spec (JS.floor_mul (rng (S k1)) (length (VOWELS ++ CONSONANTS))) 0);
      [lia |].
    destruct (lookup_lt_is_Some_2 NUMBERS
                (Z.to_nat (JS.floor_mul (rng k1) (length NUMBERS)))) as [num Hnum];
      [lia |].
    destruct (lookup_lt_is_Some_2 (VOWELS ++ CONSONANTS)
                (Z.to_nat (JS.floor_mul (rng (S k1)) (length (VOWELS ++ CONSONANTS)))))
      as [let_ Hlet]; [lia |].
    rewrite Hnum, Hlet.
    match goal with
    | |- context [generateFrom rng todo (S i) (acc ++ [?t]) ?task ?k2] =>
        destruct (IH (S i) (acc ++ [t]) task k2) as (new & k' & Hrun & Hlen & Hchain);
        exists (t :: new), k'
    end.
    rewrite Hrun, <- app_assoc. split; [done |]. split; [simpl; lia |].
    split; [done |]. split; [| exact Hchain].
    intros Hi Hm. simpl. rewrite (Hsw Hi Hm), TaskType_eqb_other.
    by destruct (Nat.ltb_spec 0 i); [| lia].
Qed.

Lemma chain_first i lastTask l t :
  chain_ok i lastTask l -> l !! 0 = Some t ->
  isSwitch t = (0 <? i) && negb (TaskType_eqb (task t) lastTask).
Proof. destruct l as [|t' l]; [done |]. intros (H & _) [= <-]. exact H. Qed.

Lemma chain_nth l : forall i lastTask j t,
  chain_ok i lastTask l -> l !! j = Some t ->
  (0 < i + j -> (i + j) mod 4 = 0 -> isSwitch t = true)
  /\ (forall t', l !! S j = Some t' ->
        isSwitch t' = negb (TaskType_eqb (task t') (task t))).
Proof.
  induction l as [|x l IH]; intros i lastTask j t Hchain Hj; [done |].
  destruct Hchain as (Hx & H4 & Hrest). destruct j as [|j]; simpl in Hj.
  - simplify_eq. rewrite Nat.add_0_r. split; [exact H4 |].
    intros t' Ht'. simpl in Ht'. by rewrite (chain_first _ _ _ _ Hrest Ht').
  - destruct (IH (S i) (task x) j t Hrest Hj) as [Ha Hb].
    rewrite Nat.add_succ_r. split; [exact Ha | exact Hb].
Qed.

Lemma generateTrials_unfold rng k :
  generateTrials rng k
  = generateFrom rng TOTAL_TRIALS 0 []
      (if Qlt_le_dec (1 # 2) (rng k) then number_task else letter_task) (S k).
Proof. reflexivity. Qed.

End TaskSwitchingTrials.

(** X11. Whatever the random values, the Task Switching generator returns
    32 trials in which the first trial is no switch, every later trial
    whose index is a multiple of 4 is a switch, and a trial is flagged as a
    switch exactly when its task differs from the task of the trial before
    it; so both the switch and the repeat condition occur in every
    session. *)
Theorem TaskSwitching_generated_switches (rng : JS.Rng) (k : nat) :
  JS.in01 rng ->
  exists trials k',
    TaskSwitching.generateTrials rng k = Some (trials, k')
    /\ length trials = 32
    /\ (forall t, trials !! 0 = Some t -> TaskSwitching.isSwitch t = false)
    /\ (forall j t, trials !! j = Some t -> 0 < j -> j mod 4 = 0 ->
          TaskSwitching.isSwitch t = true)
    /\ (forall j t t', trials !! j = Some t -> trials !! S j = Some t' ->
          TaskSwitching.isSwitch t'
          = negb (TaskSwitching.TaskType_eqb (TaskSwitching.task t')
                    (TaskSwitching.task t))).
Proof.
  intros Hrng. rewrite generateTrials_unfold.
  destruct (generateFrom_chain rng Hrng TaskSwitching.TOTAL_TRIALS 0 []
              (if Qlt_le_dec (1 # 2) (rng k)
               then TaskSwitching.number_task else TaskSwitching.letter_task) (S k))
    as (trials & k' & Hrun & Hlen & Hchain).
  exists trials, k'. split; [exact Hrun |]. split; [exact Hlen |].
  split; [| split].
  - intros t Ht. by rewrite (chain_first _ _ _ _ Hchain Ht).
  - intros j t Ht Hj Hm. by eapply (chain_nth trials 0).
  - intros j t t' Ht Ht'. by eapply (chain_nth trials 0).
Qed.

Lemma TaskSwitching_generated_switches_witness :
  exists trials k',
    TaskSwitching.generateTrials UFOVFullRun.rng 0 = Some (trials, k')
    /\ length trials = 32.
Proof.
  destruct (TaskSwitching_generated_switches UFOVFullRun.rng 0 UFOVFullRun_rng01)
    as (trials & k' & Hrun & Hlen & _).
  exists trials, k'. split; [exact Hrun | exact Hlen].
Defined.

(** X12. On every trial exactly one of the two keys is right: the response
    sent for Z (even or vowel) is judged correct if and only if the
    response sent for M (odd or consonant) is judged incorrect; a response
    that belongs to the other task is never correct. *)
Theorem TaskSwitching_one_key_correct (trial : TaskSwitching.Trial) :
  TaskSwitching.judge trial
    (TaskSwitching.responseFor (TaskSwitching.task trial) TaskSwitching.key_Z)
  = negb (TaskSwitching.judge trial
            (TaskSwitching.responseFor (TaskSwitching.task trial)
               TaskSwitching.key_M))
  /\ (forall key other,
        other <> TaskSwitching.task trial ->
        TaskSwitching.judge trial (TaskSwitching.responseFor other key) = false).
Proof.
  unfold TaskSwitching.judge. split.
  - destruct (TaskSwitching.task trial); simpl.
    + by destruct (Z.rem (TaskSwitching.number trial) 2 =? 0)%Z.
    + by rewrite negb_involutive, !orb_false_r.
  - intros key other Hne.
    destruct (TaskSwitching.task trial), other, key; simpl; done.
Qed.

Lemma TaskSwitching_one_key_correct_witness :
  let trial := {| TaskSwitching.number := 7; TaskSwitching.letter := "E";
                  TaskSwitching.task := TaskSwitching.number_task;
                  TaskSwitching.isSwitch := false |} in
  TaskSwitching.judge trial "vowel" = false.
Proof.
  intros trial.
  apply (proj2 (TaskSwitching_one_key_correct trial)
           TaskSwitching.key_Z TaskSwitching.letter_task).
  discriminate.
Defined.

(** ** Stroop: the generated trial and the judgement *)

Section StroopTrial.
Import StroopTask.

Lemma drawBackground_differs rng fuel wordIndex : forall k b k',
  drawBackground rng fuel wordIndex k = Some (b, k') -> b <> wordIndex.
Proof.
  induction fuel as [|fuel IH]; intros k b k' H; [done |].
  cbn [drawBackground] in H.
  destruct (Z.eqb_spec (JS.floor_mul (rng k) (length COLORS)) wordIndex) as [|Hne].
  - by eapply IH.
  - by simplify_eq.
Qed.

Lemma get_Some {A} (l : list A) j x :
  JS.get l j = Some x -> (0 <= j)%Z /\ l !! Z.to_nat j = Some x.
Proof.
  unfold JS.get. destruct (Z.ltb_spec j 0) as [Hneg|Hpos]; [done |].
  intros Hl. split; [lia | done].
Qed.

Lemma COLORS_names_NoDup : NoDup (map name COLORS).
Proof. apply NoDup_ListNoDup. repeat constructor; simpl; intuition discriminate. Qed.

Lemma COLORS_same_name i j c c' :
  COLORS !! i = Some c -> COLORS !! j = Some c' -> name c = name c' -> i = j.
Proof.
  intros Hi Hj Hn.
  apply (NoDup_lookup (map name COLORS) i j (name c)); [apply COLORS_names_NoDup | |].
  - by rewrite list_lookup_fmap, Hi.
  - by rewrite list_lookup_fmap, Hj, Hn.
Qed.

End StroopTrial.

(** X13. A Stroop trial that the generator returns is flagged as a match
    exactly when the word is the name of the background colour, and its
    background colour is one of the five colours; hence the handler judges
    the answer "match" correct exactly when word and colour agree, and the
    answer "no match" exactly when they differ. *)
Theorem Stroop_match_flag_truthful (rng : JS.Rng) (fuel k : nat) t k' :
  StroopTask.generateTrial rng fuel k = Some (t, k') ->
  (StroopTask.isMatch t = true
   <-> StroopTask.word t = StroopTask.backgroundColorName t)
  /\ (exists c, c ∈ StroopTask.COLORS
                /\ StroopTask.backgroundColorName t = StroopTask.name c
                /\ StroopTask.backgroundColor t = StroopTask.hex c)
  /\ (forall userSaysMatch now s,
        StroopTask.phase s = StroopTask.Playing ->
        StroopTask.trial s = Some t ->
        exists r,
          StroopTask.results (StroopTask.handleResponse userSaysMatch now s)
          = StroopTask.results s ++ [r]
          /\ (StroopTask.r_correct r = true
              <-> (userSaysMatch = true
                   <-> StroopTask.word t = StroopTask.backgroundColorName t))).
Proof.
  intros Hgen. unfold StroopTask.generateTrial in Hgen.
  destruct (JS.get StroopTask.COLORS (JS.floor_mul (rng (S k)) _))
    as [wc|] eqn:Hw; [| done].
  apply get_Some in Hw as [Hw0 Hw].
  set (wi := JS.floor_mul (rng (S k)) (length StroopTask.COLORS)) in *.
  assert (Hflag : forall m bi bc,
    (m = false -> bi <> wi) -> (m = true -> bi = wi) ->
    JS.get StroopTask.COLORS bi = Some bc ->
    (m = true <-> StroopTask.name wc = StroopTask.name bc)).
  { intros m bi bc Hdiff Hsame [Hb0 Hb]%get_Some. split.
    - intros Hm. rewrite (Hsame Hm) in Hb. congruence.
    - intros Hn. destruct m; [done |]. exfalso. apply (Hdiff eq_refl).
      pose proof (COLORS_same_name _ _ _ _ Hw Hb Hn). lia. }
  assert (Hmatch : (StroopTask.isMatch t = true
                    <-> StroopTask.word t = StroopTask.backgroundColorName t)
                   /\ exists c, c ∈ StroopTask.COLORS
                        /\ StroopTask.backgroundColorName t = StroopTask.name c
                        /\ StroopTask.backgroundColor t = StroopTask.hex c).
  { destruct (Qlt_le_dec (1 # 2) (rng k)).
    - destruct (JS.get StroopTask.COLORS wi) as [bc|] eqn:Hb; [| done].
      simplify_eq. simpl. split.
      + by apply (Hflag true wi bc).
      + exists bc. split; [| done]. apply get_Some in Hb as [_ Hb].
        by eapply list_elem_of_lookup_2.
    - destruct (StroopTask.drawBackground rng fuel wi (S (S k)))
        as [[bi kb]|] eqn:Hdraw; [| done].
      apply drawBackground_differs in Hdraw.
      destruct (JS.get StroopTask.COLORS bi) as [bc|] eqn:Hb; [| done].
      simplify_eq. simpl. split.
      + by apply (Hflag false bi bc).
      + exists bc. split; [| done]. apply get_Some in Hb as [_ Hb].
        by eapply list_elem_of_lookup_2. }
  destruct Hmatch as [Hiff Hcol]. split; [exact Hiff |]. split; [exact Hcol |].
  intros b now s Hp Ht. unfold StroopTask.handleResponse. rewrite Hp, Ht. simpl.
  eexists. split; [reflexivity |]. simpl.
  rewrite <- Hiff. destruct b, (StroopTask.isMatch t); simpl; intuition congruence.
Qed.

Module StroopRun.

(** A no-match trial: the word BLUE on a background drawn twice, the first
    draw being BLUE again. *)
Definition rng : JS.Rng :=
  fun k => match k with
           | 0 => 1 # 4 | 1 => 3 # 10 | 2 => 1 # 5 | _ => 9 # 10
           end.

End StroopRun.

Lemma Stroop_match_flag_truthful_witness :
  exists t k',
    StroopTask.generateTrial StroopRun.rng 3 0 = Some (t, k')
    /\ (StroopTask.isMatch t = true
        <-> StroopTask.word t = StroopTask.backgroundColorName t).
Proof.
  eexists _, _. split; [vm_compute; reflexivity |].
  match goal with
  | |- StroopTask.isMatch ?t = true <-> _ =>
      apply (Stroop_match_flag_truthful StroopRun.rng 3 0 t 4)
  end.
  vm_compute. reflexivity.
Defined.

(** ** Flanker: the generated trials *)

Section FlankerTrials.
Import FlankerTask.

(** The number of trials of a type and a target direction. *)
Definition countKind (ty : TrialType) (dir : Direction) (l : list Trial) : nat :=
  length (List.filter
            (fun t => TrialType_eqb (type t) ty
                      && Direction_eqb (targetDirection t) dir) l).

Lemma countKind_perm ty dir l1 l2 :
  l1 ≡ₚ l2 -> countKind ty dir l1 = countKind ty dir l2.
Proof.
  intros H. unfold countKind.
  induction H as [| x l l' _ IH | x y l | l l' l'' _ IH1 _ IH2];
    simpl; try congruence.
  - case_match; simpl; congruence.
  - repeat case_match; reflexivity.
Qed.

End FlankerTrials.

(** X14. Whatever the random values, the Flanker generator returns 24
    trials, balanced over conditions and directions: each of the three trial
    types occurs four times with the target pointing left and four times
    with it pointing right, and the arrow string of every trial is the one
    that belongs to its type and direction. *)
Theorem Flanker_generated_balanced (rng : JS.Rng) (k : nat) :
  JS.in01 rng ->
  exists trials k',
    FlankerTask.generateTrials rng k = Some (trials, k')
    /\ length trials = 24
    /\ (forall ty dir, countKind ty dir trials = 4)
    /\ Forall (fun t => FlankerTask.arrows t
                        = FlankerTask.arrowsFor (FlankerTask.type t)
                            (FlankerTask.targetDirection t)) trials.
Proof.
  intros Hrng. unfold FlankerTask.generateTrials.
  destruct (FlankerTask.fillFrom FlankerTask.TOTAL_TRIALS 0 [])
    as [filled|] eqn:Hfill; [| by vm_compute in Hfill].
  destruct (shuffle_perm rng Hrng filled k) as (trials & Hrun & Hperm).
  exists trials, (k + (length filled - 1)). split; [exact Hrun |].
  assert (Hfilled : length filled = 24
                    /\ (forall ty dir, countKind ty dir filled = 4)
                    /\ Forall (fun t => FlankerTask.arrows t
                                 = FlankerTask.arrowsFor (FlankerTask.type t)
                                     (FlankerTask.targetDirection t)) filled).
  { vm_compute in Hfill. injection Hfill as <-.
    split; [reflexivity |]. split.
    - intros [| |] [|]; reflexivity.
    - repeat constructor. }
  destruct Hfilled as (Hlen & Hcount & Harrows).
  split; [by rewrite (Permutation_length Hperm) |]. split.
  - intros ty dir. rewrite (countKind_perm _ _ _ _ Hperm). apply Hcount.
  - by rewrite Hperm.
Qed.

Lemma Flanker_generated_balanced_witness :
  exists trials k',
    FlankerTask.generateTrials GoNoGoRun.rng 0 = Some (trials, k')
    /\ length trials = 24.
Proof.
  destruct (Flanker_generated_balanced GoNoGoRun.rng 0 GoNoGoRun_rng01)
    as (trials & k' & Hrun & Hlen & _).
  exists trials, k'. split; [exact Hrun | exact Hlen].
Defined.

(** ** Stroop: timeouts *)

Lemma filter_partition_length {A} (p : A -> bool) (l : list A) :
  length (List.filter p l) + length (List.filter (fun x => negb (p x)) l)
  = length l.
Proof. induction l as [|x l IH]; simpl; [done |]. destruct (p x); simpl; lia. Qed.

(** X15. When the clock of a Stroop trial reaches 0, the trial is recorded
    as an incorrect result whose response time is the full trial duration;
    the scorer (for the same speed level) counts such a result as a timeout
    and leaves it out of the average response time.  In general every
    result is counted either as answered or as a timeout, never both. *)
Theorem Stroop_timeouts_accounted :
  (forall s t,
     StroopTask.phase s = StroopTask.Playing ->
     StroopTask.timeLeft s = 0%Z ->
     StroopTask.trial s = Some t ->
     exists r,
       StroopTask.results (StroopTask.timerEffect s) = StroopTask.results s ++ [r]
       /\ StroopTask.phase (StroopTask.timerEffect s) = StroopTask.Feedback
       /\ StroopTask.r_correct r = false
       /\ StroopTask.r_responseTime r = StroopTask.trialDuration (StroopTask.speedLevel s)
       /\ StroopTask.timeouts (StroopTask.calculateStats (StroopTask.speedLevel s) [r]) = 1
       /\ StroopTask.avgResponseTime
            (StroopTask.calculateStats (StroopTask.speedLevel s) [r]) = 0%Q)
  /\ (forall level rs,
        StroopTask.timeouts (StroopTask.calculateStats level rs)
        + length (List.filter
                    (fun r => (StroopTask.r_responseTime r
                               <? StroopTask.trialDuration level)%Z) rs)
        = length rs).
Proof.
  split.
  - intros s t Hp Ht Htrial. unfold StroopTask.timerEffect.
    rewrite Hp, Ht, Htrial. simpl. eexists. split; [reflexivity |].
    split; [reflexivity |]. split; [reflexivity |]. split; [reflexivity |].
    unfold StroopTask.calculateStats. simpl.
    rewrite Z.leb_refl, Z.ltb_irrefl. by split.
  - intros level rs. unfold StroopTask.calculateStats. cbn [StroopTask.timeouts].
    rewrite Nat.add_comm, <- (filter_partition_length
      (fun r => (StroopTask.r_responseTime r <? StroopTask.trialDuration level)%Z) rs).
    f_equal. f_equal. apply List.filter_ext. intros r.
    by rewrite Z.leb_antisym.
Qed.

Module StroopTimeout.

Definition expired : StroopTask.State := {|
  StroopTask.phase := StroopTask.Playing; StroopTask.speedLevel := StroopTask.fast;
  StroopTask.countdown := 0; StroopTask.currentTrial := 0;
  StroopTask.trial :=
    Some {| StroopTask.word := "RED"; StroopTask.backgroundColor := "#3b82f6";
            StroopTask.backgroundColorName := "BLUE"; StroopTask.isMatch := false |};
  StroopTask.trialStart := 0; StroopTask.timeLeft := 0;
  StroopTask.results := []; StroopTask.feedback := None |}.

End StroopTimeout.

Lemma Stroop_timeouts_accounted_witness :
  exists r,
    StroopTask.results (StroopTask.timerEffect StroopTimeout.expired) = [r]
    /\ StroopTask.r_responseTime r = 1200%Z.
Proof.
  destruct (proj1 Stroop_timeouts_accounted StroopTimeout.expired
              {| StroopTask.word := "RED"; StroopTask.backgroundColor := "#3b82f6";
                 StroopTask.backgroundColorName := "BLUE";
                 StroopTask.isMatch := false |})
    as (r & Hres & _ & _ & Hrt & _); [reflexivity | reflexivity | reflexivity |].
  exists r. split; [exact Hres | exact Hrt].
Defined.

(** ** Raven's Matrices: the option marked correct *)

Section RavensPuzzle.
Import RavensMatrices.

Definition mk (sh : Shape) (pt : Pattern) (rot : Z) (sz : Size) : Cell :=
  {| shape := sh; pattern := pt; rotation := rot; size := sz |}.

(** A row in which the size grows, the rest being the same. *)
Definition size_row (row : list Cell) : Prop :=
  exists sh pt, row = [mk sh pt 0 small; mk sh pt 0 medium; mk sh pt 0 large].

(** A row in which the shape turns, the rest being the same. *)
Definition rotation_row (row : list Cell) : Prop :=
  exists sh pt, row = [mk sh pt 0 medium; mk sh pt 45 medium; mk sh pt 90 medium].

(** A matrix with one shape per column and one pattern per row. *)
Definition column_matrix (rows : list (list Cell)) : Prop :=
  exists s0 s1 s2 p0 p1 p2,
    rows = [ [mk s0 p0 0 medium; mk s1 p0 0 medium; mk s2 p0 0 medium];
             [mk s0 p1 0 medium; mk s1 p1 0 medium; mk s2 p1 0 medium];
             [mk s0 p2 0 medium; mk s1 p2 0 medium; mk s2 p2 0 medium] ].

(** The completed matrix obeys the rule that the puzzle announces. *)
Definition follows_rule (rule : string) (rows : list (list Cell)) : Prop :=
  (rule = "Size increases across each row" /\ Forall size_row rows)
  \/ (rule = "Pattern changes down each column" /\ column_matrix rows)
  \/ (rule = "Shape rotates across each row" /\ Forall rotation_row rows).

(** The grid has its hole in the last place, and [answer] completes it. *)
Definition completes (g : list (list (option Cell))) (rule : string) (answer : Cell)
  : Prop :=
  exists c00 c01 c02 c10 c11 c12 c20 c21,
    g = [ [Some c00; Some c01; Some c02];
          [Some c10; Some c11; Some c12];
          [Some c20; Some c21; None] ]
    /\ follows_rule rule [[c00; c01; c02]; [c10; c11; c12]; [c20; c21; answer]].

Lemma sameCell_spec o c : sameCell o c = true <-> o = c.
Proof.
  destruct o as [s1 p1 r1 z1], c as [s2 p2 r2 z2]. unfold sameCell. simpl.
  rewrite !andb_true_iff, Z.eqb_eq. split.
  - intros [[[Hs Hp] ->] Hz].
    destruct s1, s2; try done; destruct p1, p2; try done; by destruct z1, z2.
  - intros [= -> -> -> ->].
    by destruct s2, p2, z2.
Qed.

Lemma layout_completes ruleType baseShape basePattern g answer rule :
  layout ruleType baseShape basePattern = Some (g, answer, rule) ->
  completes g rule answer.
Proof.
  unfold layout, completes, follows_rule.
  destruct (ruleType =? 0)%Z; [| destruct (ruleType =? 1)%Z].
  - destruct baseShape; vm_compute; intros [= <- <- <-];
      do 8 eexists; (split; [reflexivity |]); left; (split; [reflexivity |]);
      repeat constructor; by eexists _, _.
  - vm_compute. intros [= <- <- <-].
    do 8 eexists. split; [reflexivity |]. right; left. split; [reflexivity |].
    by do 6 eexists.
  - vm_compute. intros [= <- <- <-].
    do 8 eexists. split; [reflexivity |]. right; right. split; [reflexivity |].
    repeat constructor; by eexists _, _.
Qed.

Lemma existsb_sameCell options c :
  existsb (fun o => sameCell o c) options = true <-> c ∈ options.
Proof.
  rewrite existsb_exists. split.
  - intros (o & Hin & ->%sameCell_spec). by apply list_elem_of_In.
  - intros Hin. exists c. split; [by apply list_elem_of_In | by apply sameCell_spec].
Qed.

Lemma addDistractors_spec rng fuel : forall options k out k',
  addDistractors rng fuel options k = Some (out, k') ->
  NoDup options -> length options <= 6 ->
  NoDup out /\ length out = 6 /\ (forall c, c ∈ options -> c ∈ out).
Proof.
  induction fuel as [|fuel IH]; intros options k out k' Hrun Hnd Hlen.
  - cbn [addDistractors] in Hrun.
    destruct (Nat.leb_spec 6 (length options)); [| done].
    simplify_eq. split; [done |]. split; [lia | done].
  - cbn [addDistractors] in Hrun.
    destruct (Nat.leb_spec 6 (length options)).
    { simplify_eq. split; [done |]. split; [lia | done]. }
    destruct (JS.get SHAPES _) as [sh|]; [| done].
    destruct (JS.get PATTERNS _) as [pt|]; [| done].
    destruct (JS.get [0; 45; 90]%Z _) as [rot|]; [| done].
    destruct (JS.get SIZES _) as [sz|]; [| done].
    cbn [mbind option_bind] in Hrun.
    destruct (existsb _ options) eqn:Hdup.
    + by apply IH in Hrun.
    + apply IH in Hrun as (Hnd' & Hlen' & Hin).
      * split; [done |]. split; [done |].
        intros c Hc. apply Hin. apply elem_of_app. by left.
      * apply NoDup_app. split; [done |]. split; [| apply NoDup_singleton].
        intros c Hc ->%list_elem_of_singleton.
        apply existsb_sameCell in Hc. congruence.
      * rewrite length_app. simpl. lia.
Qed.

Lemma swap_Some_perm {A} (arr : list A) i j arr' :
  JS.swap arr i j = Some arr' -> arr' ≡ₚ arr.
Proof.
  unfold JS.swap, JS.get.
  destruct (j <? 0)%Z; [done |].
  destruct (arr !! Z.to_nat j) as [aj|] eqn:Hj; [| done].
  destruct (arr !! i) as [ai|] eqn:Hi; [| done].
  intros [= <-]. by apply Permutation_insert_swap.
Qed.

Lemma shuffle_from_Some_perm {A} rng i : forall (arr : list A) k out k',
  JS.shuffle_from rng i arr k = Some (out, k') -> out ≡ₚ arr.
Proof.
  induction i as [|i IH]; intros arr k out k' H; cbn [JS.shuffle_from] in H.
  - by simplify_eq.
  - destruct (JS.swap arr (S i) _) as [arr1|] eqn:Hswap; [| done].
    apply IH in H. rewrite H. by eapply swap_Some_perm.
Qed.

Lemma findIndexFrom_spec {A} (p : A -> bool) l : forall i x,
  x ∈ l -> p x = true -> (forall y, y ∈ l -> p y = true -> y = x) ->
  (i <= findIndexFrom p l i < i + Z.of_nat (length l))%Z
  /\ l !! Z.to_nat (findIndexFrom p l i - i) = Some x.
Proof.
  induction l as [|y l IH]; intros i x Hin Hpx Huniq; [by apply elem_of_nil in Hin |].
  cbn [findIndexFrom length]. destruct (p y) eqn:Hpy.
  - rewrite Z.sub_diag. split; [lia |]. simpl. f_equal. apply Huniq; [by left | done].
  - apply elem_of_cons in Hin as [-> | Hin]; [congruence |].
    destruct (IH (i + 1)%Z x Hin Hpx) as [Hrange Hlook].
    { intros z Hz. apply Huniq. by right. }
    split; [lia |].
    replace (Z.to_nat (findIndexFrom p l (i + 1) - i))
      with (S (Z.to_nat (findIndexFrom p l (i + 1) - (i + 1)))) by lia.
    exact Hlook.
Qed.

End RavensPuzzle.

(** X16. In every puzzle that the Raven's generator returns there are six
    pairwise different options, and [correctIndex] points at one of them:
    the cell that completes the matrix according to the rule the puzzle
    announces (sizes small, medium, large across a row; one shape per column
    and one pattern per row; rotations 0, 45, 90 across a row).  No other
    option is that cell. *)
Theorem Ravens_correct_option (rng : JS.Rng) (fuel d k : nat) p k' :
  RavensMatrices.generatePuzzle rng fuel d k = Some (p, k') ->
  length (RavensMatrices.options p) = 6
  /\ NoDup (RavensMatrices.options p)
  /\ (0 <= RavensMatrices.correctIndex p < 6)%Z
  /\ exists answer,
       RavensMatrices.options p !! Z.to_nat (RavensMatrices.correctIndex p)
       = Some answer
       /\ completes (RavensMatrices.grid p) (RavensMatrices.rule p) answer.
Proof.
  unfold RavensMatrices.generatePuzzle. intros Hgen.
  destruct (JS.get RavensMatrices.SHAPES _) as [baseShape|]; [| done].
  destruct (JS.get RavensMatrices.PATTERNS _) as [basePattern|]; [| done].
  cbn [mbind option_bind] in Hgen.
  destruct (RavensMatrices.layout _ baseShape basePattern)
    as [[[g answer] rule]|] eqn:Hlayout; [| done].
  cbn [mbind option_bind] in Hgen.
  destruct (RavensMatrices.addDistractors rng fuel [answer] (k + 3))
    as [[opts k1]|] eqn:Hadd; [| done].
  cbn [mbind option_bind] in Hgen.
  destruct (JS.shuffle rng opts k1) as [[shuffled k2]|] eqn:Hshuffle; [| done].
  cbn [mbind option_bind] in Hgen. simplify_eq. simpl.
  apply addDistractors_spec in Hadd as (Hnd & Hlen & Hin);
    [| apply NoDup_singleton | simpl; lia].
  apply shuffle_from_Some_perm in Hshuffle.
  assert (Hans : answer ∈ shuffled).
  { rewrite Hshuffle. apply Hin. by apply list_elem_of_singleton. }
  destruct (findIndexFrom_spec (fun o => RavensMatrices.sameCell o answer)
              shuffled 0 answer Hans) as [Hrange Hlook].
  { by apply sameCell_spec. }
  { intros y _ Hy. by apply sameCell_spec. }
  rewrite (Permutation_length Hshuffle), Hlen in Hrange.
  rewrite Z.sub_0_r in Hlook.
  split; [by rewrite (Permutation_length Hshuffle) |].
  split; [by rewrite Hshuffle |]. split; [exact Hrange |].
  exists answer. split; [exact Hlook |].
  by eapply layout_completes.
Qed.

Module RavensRun.

Definition rng : JS.Rng := fun k => Z.of_nat ((k * k + 3 * k + 1) mod 13) # 13.

End RavensRun.

Lemma Ravens_correct_option_witness :
  exists p k',
    RavensMatrices.generatePuzzle RavensRun.rng 50 0 0 = Some (p, k')
    /\ RavensMatrices.correctIndex p = 5%Z
    /\ NoDup (RavensMatrices.options p).
Proof.
  eexists _, _. split; [vm_compute; reflexivity |].
  split; [reflexivity |].
  match goal with
  | |- NoDup (RavensMatrices.options ?p) =>
      apply (Ravens_correct_option RavensRun.rng 50 0 0 p 28)
  end.
  vm_compute. reflexivity.
Defined.

(** ** Tower of Hanoi: the minimum can be reached *)

Section HanoiOptimal.
Import TowerOfHanoi HanoiSolve.

Definition disk (k : nat) : Disk := {| id := k; size := k |}.

(** Every disk of [t] is larger than [n]. *)
Definition above (n : nat) (t : list Disk) : Prop :=
  Forall (fun d => n < TowerOfHanoi.size d) t.

Lemma solve_length n a b c : length (solve n a b c) = 2 ^ n - 1.
Proof.
  revert a b c. induction n as [|n IH]; intros a b c; [done |].
  cbn [solve]. rewrite !length_app, !IH. simpl.
  pose proof (Nat.pow_nonzero 2 n). lia.
Qed.

Lemma run_moves_app l1 : forall l2 ts,
  run_moves (l1 ++ l2) ts = run_moves l1 ts ≫= run_moves l2.
Proof.
  induction l1 as [|[x y] l1 IH]; intros l2 ts; [done |].
  cbn [app run_moves]. repeat case_match; try done.
Qed.

Lemma validMove_above_top n t :
  above (S n) t -> validMove (disk (S n)) t = true.
Proof.
  intros Ht. unfold validMove.
  destruct (last t) as [top|] eqn:Hlast; [| done].
  apply last_Some_elem_of in Hlast.
  unfold above in Ht. rewrite Forall_forall in Ht.
  apply Nat.ltb_lt. simpl. by apply Ht.
Qed.

Lemma above_weaken n t : above (S n) t -> above n t.
Proof.
  intros H. eapply Forall_impl; [exact H |]. intros d Hd. simpl in Hd. lia.
Qed.

(** The solution moves the [n] smallest disks from the top of [a] to the
    top of [b] and leaves everything else in place. *)
Lemma solve_towers n : forall a b c ts base,
  a <> b -> a <> c -> b <> c ->
  tower ts a = base ++ initialDisks n ->
  above n base -> above n (tower ts b) -> above n (tower ts c) ->
  exists ts',
    run_moves (solve n a b c) ts = Some ts'
    /\ tower ts' a = base
    /\ tower ts' b = tower ts b ++ initialDisks n
    /\ tower ts' c = tower ts c.
Proof.
  induction n as [|n IH]; intros a b c ts base Hab Hac Hbc Ha Hbase Hb Hc.
  - exists ts. simpl in *. rewrite !app_nil_r in *. done.
  - cbn [solve]. rewrite !run_moves_app.
    (* the n smaller disks go to c *)
    destruct (IH a c b ts (base ++ [disk (S n)])) as (ts1 & Hrun1 & H1a & H1c & H1b);
      try done.
    { rewrite Ha. cbn [initialDisks]. by rewrite <- app_assoc. }
    { apply Forall_app. split; [by apply above_weaken |].
      apply Forall_singleton. simpl. lia. }
    { by apply above_weaken. }
    { by apply above_weaken. }
    rewrite Hrun1. cbn [mbind option_bind app run_moves].
    (* the largest disk goes to b *)
    destruct (TowerIndex_eqb_spec a b) as [|_]; [done |].
    rewrite H1a, last_snoc, H1b, validMove_above_top by done.
    rewrite removelast_last.
    set (ts2 := ts1 |> setTower a base |> setTower b (tower ts b ++ [disk (S n)])).
    assert (H2a : tower ts2 a = base).
    { unfold ts2. rewrite tower_setTower_ne by done. apply tower_setTower_eq. }
    assert (H2b : tower ts2 b = tower ts b ++ [disk (S n)]).
    { unfold ts2. apply tower_setTower_eq. }
    assert (H2c : tower ts2 c = tower ts c ++ initialDisks n).
    { unfold ts2. rewrite !tower_setTower_ne by done. exact H1c. }
    (* the n smaller disks go from c to b *)
    destruct (IH c b a ts2 (tower ts c)) as (ts3 & Hrun3 & H3c & H3b & H3a);
      try done.
    { by apply above_weaken. }
    { rewrite H2b. apply Forall_app. split; [by apply above_weaken |].
      apply Forall_singleton. simpl. lia. }
    { rewrite H2a. by apply above_weaken. }
    exists ts3. split; [exact Hrun3 |]. split; [by rewrite H3a |].
    split; [| exact H3c].
    rewrite H3b, H2b. cbn [initialDisks]. by rewrite <- app_assoc.
Qed.

(** A won game took at least the minimum number of moves. *)
Lemma won_moves_bound s :
  reachable s -> phase s = Results -> 2 ^ numDisks s - 1 <= moves s.
Proof.
  intros [Hgame _]%reachable_inv Hp.
  destruct (Hgame (or_intror Hp)) as (Hok & _ & (l & Hlegal & Hpos & Hlen) & Hwon).
  rewrite <- Hlen.
  etrans; [| apply (count_le_length (numDisks s))].
  apply (puzzle_lower_bound _ l allOnStart Start Goal); [done | done | | done].
  intros x Hx. rewrite Hpos by done.
  apply (won_all_on_goal (numDisks s)); auto.
Qed.

Lemma click_reachable s i :
  reachable s -> reachable (HanoiRun.click s i).
Proof.
  intros Hs. unfold HanoiRun.click.
  destruct (handleTowerClick i 4000 s) as [s'|] eqn:Hc; [| done].
  eapply rtc_r; [exact Hs |]. by eapply step_click.
Qed.

(** Two clicks make one move. *)
Lemma play_move s x y d :
  phase s = Playing -> selectedTower s = None -> x <> y ->
  last (tower (towers s) x) = Some d ->
  validMove d (tower (towers s) y) = true ->
  let ts' := towers s |> setTower x (removelast (tower (towers s) x))
                      |> setTower y (tower (towers s) y ++ [d]) in
  let s' := HanoiRun.play s [x; y] in
  towers s' = ts' /\ moves s' = moves s + 1 /\ numDisks s' = numDisks s
  /\ minMoves s' = minMoves s /\ selectedTower s' = None
  /\ phase s' = (if length (tower ts' Goal) =? numDisks s then Results else Playing).
Proof.
  intros Hp Hsel Hxy Hlast Hvalid ts' s'. subst s'.
  unfold HanoiRun.play. cbn [foldl].
  assert (Hne : tower (towers s) x <> []).
  { intros Hnil. by rewrite Hnil in Hlast. }
  assert (H1 : HanoiRun.click s x = setSelectedTower (Some x) s).
  { unfold HanoiRun.click, handleTowerClick. rewrite Hp, Hsel. simpl.
    destruct (tower (towers s) x); [done | reflexivity]. }
  rewrite H1. unfold HanoiRun.click, handleTowerClick. cbn [phase setSelectedTower
    selectedTower towers numDisks moves startTime].
  rewrite Hp. cbn [GamePhase_eqb negb].
  destruct (TowerIndex_eqb_spec x y) as [|_]; [done |].
  rewrite Hlast, Hvalid. fold ts'.
  destruct (length (tower ts' Goal) =? numDisks s); simpl; by repeat split.
Qed.

Lemma clicksOf_cons x y l : clicksOf ((x, y) :: l) = [x; y] ++ clicksOf l.
Proof. reflexivity. Qed.

Lemma play_app s l1 l2 :
  HanoiRun.play s (l1 ++ l2) = HanoiRun.play (HanoiRun.play s l1) l2.
Proof. apply foldl_app. Qed.

(** Playing a list of checked moves, as long as the game does not end
    before the last of them. *)
Lemma play_moves l : forall s ts',
  reachable s -> phase s = Playing -> selectedTower s = None ->
  run_moves l (towers s) = Some ts' ->
  moves s + length l <= 2 ^ numDisks s - 1 ->
  let s' := HanoiRun.play s (clicksOf l) in
  towers s' = ts' /\ moves s' = moves s + length l
  /\ numDisks s' = numDisks s /\ minMoves s' = minMoves s
  /\ (l <> [] ->
      phase s' = (if length (tower ts' Goal) =? numDisks s then Results else Playing)).
Proof.
  induction l as [|[x y] l IH]; intros s ts' Hs Hp Hsel Hrun Hbound.
  - simpl in *. simplify_eq. repeat split; try done; lia.
  - cbn [run_moves] in Hrun.
    destruct (TowerIndex_eqb_spec x y) as [|Hxy]; [done |].
    destruct (last (tower (towers s) x)) as [d|] eqn:Hlast; [| done].
    destruct (validMove d (tower (towers s) y)) eqn:Hvalid; [| done].
    destruct (play_move s x y d Hp Hsel Hxy Hlast Hvalid)
      as (Ht1 & Hm1 & Hn1 & Hmin1 & Hsel1 & Hp1).
    set (s1 := HanoiRun.play s [x; y]) in *.
    assert (Hs1 : reachable s1).
    { unfold s1, HanoiRun.play. cbn [foldl]. by do 2 apply click_reachable. }
    intros s'. subst s'. rewrite clicksOf_cons, play_app. fold s1.
    destruct l as [|m l'].
    + simpl in Hrun. simplify_eq. cbn [clicksOf flat_map HanoiRun.play foldl].
      split; [done |]. split; [simpl; lia |]. split; [done |]. split; [done |].
      intros _. exact Hp1.
    + assert (Hplaying : phase s1 = Playing).
      { destruct (_ =? _) in Hp1; [| done]. exfalso.
        pose proof (won_moves_bound s1 Hs1 Hp1) as Hb.
        rewrite Hn1, Hm1 in Hb. simpl in Hbound. lia. }
      rewrite <- Ht1 in Hrun.
      destruct (IH s1 ts' Hs1 Hplaying Hsel1 Hrun) as (Ht & Hm & Hn & Hmin & Hph).
      { rewrite Hn1, Hm1. simpl in Hbound |- *. lia. }
      split; [exact Ht |]. split; [rewrite Hm, Hm1; simpl; lia |].
      split; [congruence |]. split; [congruence |].
      intros _. rewrite Hph by done. by rewrite Hn1.
Qed.

Lemma start_reachable n : reachable (start n).
Proof.
  unfold reachable, start.
  do 4 (eapply rtc_r; [| apply step_countdown]).
  eapply rtc_r; [| apply step_startGame; by left].
  apply rtc_once. by apply step_setNumDisks.
Qed.

Lemma length_initialDisks n : length (initialDisks n) = n.
Proof. induction n as [|n IH]; simpl; [done | by rewrite IH]. Qed.

End HanoiOptimal.

(** X17. The minimum that the game shows can be reached: for every number
    of disks n >= 1, clicking through the classical recursive solution from
    the start of play ends the game with all disks on the goal tower after
    exactly 2^n - 1 counted moves, the figure stored as the minimum (the
    case the results screen calls "Perfect!"). *)
Theorem Hanoi_minimum_attainable (n : nat) :
  0 < n ->
  let s := HanoiRun.play (HanoiSolve.start n)
             (HanoiSolve.clicksOf
                (HanoiSolve.solve n TowerOfHanoi.Start TowerOfHanoi.Goal
                   TowerOfHanoi.Middle)) in
  TowerOfHanoi.phase s = TowerOfHanoi.Results
  /\ TowerOfHanoi.towers s = ([], [], TowerOfHanoi.initialDisks n)
  /\ TowerOfHanoi.moves s = 2 ^ n - 1
  /\ TowerOfHanoi.moves s = TowerOfHanoi.minMoves s.
Proof.
  intros Hn.
  destruct (solve_towers n TowerOfHanoi.Start TowerOfHanoi.Goal TowerOfHanoi.Middle
              (TowerOfHanoi.initializeTowers n) [])
    as (ts' & Hrun & Ha & Hb & Hc); [done | done | done | done | | | |];
    [by apply Forall_nil .. |].
  assert (Hts : ts' = ([], [], TowerOfHanoi.initialDisks n)).
  { destruct ts' as [[t0 t1] t2]. simpl in Ha, Hb, Hc. by subst. }
  subst ts'.
  assert (Hbound : TowerOfHanoi.moves (HanoiSolve.start n)
                   + length (HanoiSolve.solve n TowerOfHanoi.Start
                               TowerOfHanoi.Goal TowerOfHanoi.Middle)
                   <= 2 ^ TowerOfHanoi.numDisks (HanoiSolve.start n) - 1).
  { rewrite solve_length. simpl. lia. }
  pose proof (play_moves _ (HanoiSolve.start n) _ (start_reachable n)
                eq_refl eq_refl Hrun Hbound) as Hplay.
  cbv zeta in Hplay. destruct Hplay as (Ht & Hm & Hnum & Hmin & Hph).
  intros s. subst s. rewrite solve_length in Hm.
  split; [| split; [exact Ht | split; [exact Hm |]]].
  - rewrite Hph.
    + simpl. by rewrite length_initialDisks, Nat.eqb_refl.
    + intros Hnil. pose proof (solve_length n TowerOfHanoi.Start
        TowerOfHanoi.Goal TowerOfHanoi.Middle) as Hl.
      rewrite Hnil in Hl. simpl in Hl.
      pose proof (Nat.pow_gt_lin_r 2 n). lia.
  - rewrite Hm, Hmin. reflexivity.
Qed.

Lemma Hanoi_minimum_attainable_witness :
  TowerOfHanoi.moves
    (HanoiRun.play (HanoiSolve.start 4)
       (HanoiSolve.clicksOf
          (HanoiSolve.solve 4 TowerOfHanoi.Start TowerOfHanoi.Goal
             TowerOfHanoi.Middle))) = 15.
Proof.
  apply (Hanoi_minimum_attainable 4). lia.
Defined.

(** ** The catalog: categories and routes *)

Section Catalog.
Import Games.

Definition inCategory (c : string) (g : GameMetadata) : bool :=
  String.eqb (category g) c.

(** What the [reduce] of [getCategoriesWithCounts] leaves under a key, over
    any list of games and from any accumulator. *)
Lemma countCategory_foldl gs : forall acc c,
  foldl countCategory acc gs !! c =
  match acc !! c with
  | Some e =>
      Some {| label := label e;
              count := count e + length (List.filter (inCategory c) gs) |}
  | None =>
      match List.filter (inCategory c) gs with
      | [] => None
      | g :: rest =>
          Some {| label := categoryLabel g; count := length (g :: rest) |}
      end
  end.
Proof.
  induction gs as [|g gs IH]; intros acc c.
  - simpl. destruct (acc !! c) as [[l n]|]; [| done].
    simpl. by rewrite Nat.add_0_r.
  - cbn [foldl List.filter]. rewrite IH. unfold countCategory, inCategory.
    destruct (String.eqb_spec (category g) c) as [->|Hne].
    + destruct (acc !! c) as [e|] eqn:Hacc; cbn [JS.defined negb].
      * rewrite lookup_alter_eq, Hacc. cbn [fmap option_fmap option_map label count length].
        do 2 f_equal. lia.
      * rewrite lookup_alter_eq, lookup_insert_eq.
        cbn [fmap option_fmap option_map label count length].
        do 2 f_equal.
    + rewrite lookup_alter_ne by done.
      destruct (acc !! category g); cbn [JS.defined negb]; [done |].
      by rewrite lookup_insert_ne.
Qed.

(** Games of one category carry one label. *)
Definition sameLabel (g g' : GameMetadata) : bool :=
  negb (String.eqb (category g) (category g'))
  || String.eqb (categoryLabel g) (categoryLabel g').

Lemma games_sameLabel g g' :
  g ∈ games -> g' ∈ games -> category g = category g' ->
  categoryLabel g = categoryLabel g'.
Proof.
  intros Hg Hg' Hcat.
  assert (Hall : forallb (fun a => forallb (sameLabel a) games) games = true)
    by (vm_compute; reflexivity).
  rewrite forallb_forall in Hall.
  apply list_elem_of_In, Hall in Hg. rewrite forallb_forall in Hg.
  apply list_elem_of_In, Hg in Hg'. unfold sameLabel in Hg'.
  rewrite Hcat, String.eqb_refl in Hg'. by apply String.eqb_eq in Hg'.
Qed.

End Catalog.

(** X18. The category buttons agree with the category filter: the object
    that getCategoriesWithCounts builds has an entry for a category exactly
    when getGamesByCategory finds a game of it, the entry's count is the
    number of games found, its label is the label of every one of them, and
    the entries are as many as the "Categories" card of the marketplace
    says. *)
Theorem Games_category_counts :
  size Games.getCategoriesWithCounts = Marketplace.categoriesShown
  /\ forall c : string,
       match Games.getCategoriesWithCounts !! c with
       | None => Games.getGamesByCategory c = []
       | Some info =>
           Games.count info = length (Games.getGamesByCategory c)
           /\ 0 < Games.count info
           /\ Forall (fun g => Games.categoryLabel g = Games.label info)
                (Games.getGamesByCategory c)
       end.
Proof.
  split; [vm_compute; reflexivity |].
  intros c. unfold Games.getCategoriesWithCounts.
  rewrite countCategory_foldl, lookup_empty.
  unfold Games.getGamesByCategory. fold (inCategory c).
  destruct (List.filter (inCategory c) Games.games) as [|g rest] eqn:Hf; [done |].
  cbn [Games.count Games.label]. split; [done |]. split; [simpl; lia |].
  assert (Hin : forall g', g' ∈ g :: rest ->
                  g' ∈ Games.games /\ Games.category g' = c).
  { intros g' Hg'. rewrite <- Hf in Hg'.
    apply list_elem_of_In, filter_In in Hg' as [Hg' Hc].
    split; [by apply list_elem_of_In | by apply String.eqb_eq in Hc]. }
  apply Forall_forall. intros g' Hg'.
  destruct (Hin g' Hg') as [Hg'in Hg'c].
  destruct (Hin g (list_elem_of_here _ _)) as [Hgin Hgc].
  apply games_sameLabel; congruence.
Qed.

(** X19. Every card of the marketplace opens its game: the location that a
    click on the card of a catalog game navigates to is /games/ followed by
    the game's id, the application has a route for it that mounts a game
    (not the marketplace), and the cards of two different games mount
    different components. *)
Theorem Marketplace_card_opens_game (g : Games.GameMetadata) :
  g ∈ Games.games ->
  Marketplace.handleGameClick g = "/games/" +:+ Games.id g
  /\ (exists e, App.render (Marketplace.handleGameClick g) = Some e
                /\ e <> App.E_Marketplace)
  /\ (forall g', g' ∈ Games.games ->
        App.render (Marketplace.handleGameClick g')
        = App.render (Marketplace.handleGameClick g) -> g' = g).
Proof.
  intros Hg. unfold Games.games in Hg.
  repeat (apply elem_of_cons in Hg as [-> | Hg]);
    [.. | by apply elem_of_nil in Hg];
    (split; [reflexivity |]; split;
     [eexists; split; [vm_compute; reflexivity | discriminate] |];
     intros g' Hg'; unfold Games.games in Hg';
     repeat (apply elem_of_cons in Hg' as [-> | Hg']);
     [.. | by apply elem_of_nil in Hg'];
     vm_compute; intros Heq; (reflexivity || discriminate Heq)).
Qed.

Lemma Marketplace_card_opens_game_witness :
  exists e,
    App.render "/games/n-back" = Some e /\ e <> App.E_Marketplace.
Proof.
  exact (proj1 (proj2
           (Marketplace_card_opens_game _
              (list_elem_of_lookup_2 Games.games 3 _ eq_refl)))).
Defined.

(** ** N-Back: the counts of the results screen *)

Section NBackStats.
Import NBack.

(** A recorded result is marked correct exactly when the answer (a press or
    none) agrees with the trial being a target. *)
Definition consistent (r : TrialResult) : Prop :=
  r_correct r = Bool.eqb (r_responded r) (r_isTarget r).

Lemma results_isiTimer s : results (isiTimer s) = results s.
Proof. unfold isiTimer. by repeat case_match. Qed.

Lemma results_letterTimer s :
  results (letterTimer s) = results s
  \/ exists r, results (letterTimer s) = results s ++ [r] /\ consistent r.
Proof.
  unfold letterTimer.
  destruct (GamePhase_eqb (phase s) Playing && showLetter s); [| by left].
  destruct (responded s); cbn [negb]; [by left |]. right.
  exists {| r_position := currentIndex s;
            r_isTarget := isTarget (nLevel s) (sequence s) (currentIndex s);
            r_responded := false;
            r_correct := negb (isTarget (nLevel s) (sequence s) (currentIndex s)) |}.
  split.
  - destruct (isTarget (nLevel s) (sequence s) (currentIndex s)); reflexivity.
  - unfold consistent. cbn [r_correct r_responded r_isTarget].
    by destruct (isTarget _ _ _).
Qed.

Lemma results_handleResponse s :
  results (handleResponse s) = results s
  \/ exists r, results (handleResponse s) = results s ++ [r] /\ consistent r.
Proof.
  unfold handleResponse.
  destruct (negb (GamePhase_eqb (phase s) Playing) || responded s); [by left |].
  right. eexists. split; [reflexivity |].
  unfold consistent. cbn [r_correct r_responded r_isTarget].
  by destruct (isTarget _ _ _).
Qed.

Lemma results_countdownEffect s :
  results (countdownEffect s) = results s \/ results (countdownEffect s) = [].
Proof.
  unfold countdownEffect.
  destruct (GamePhase_eqb (phase s) Countdown && (0 <? countdown s)); [by left |].
  destruct (GamePhase_eqb (phase s) Countdown && (countdown s =? 0));
    [by right | by left].
Qed.

Lemma results_startGame rng fuel k s s' :
  startGame rng fuel k s = Some s' -> results s' = results s.
Proof.
  unfold startGame.
  destruct (generateSequence rng fuel (nLevel s) k) as [[seq k']|]; [| done].
  by intros [= <-].
Qed.

Lemma consistent_step s s' :
  step s s' -> Forall consistent (results s) -> Forall consistent (results s').
Proof.
  intros Hstep Hinv.
  destruct Hstep as [s level _ _ | s rng fuel k s' _ Hstart | s | s | s | s].
  - exact Hinv.
  - by rewrite (results_startGame _ _ _ _ _ Hstart).
  - destruct (results_countdownEffect s) as [-> | ->]; [exact Hinv | constructor].
  - destruct (results_letterTimer s) as [-> | (r & -> & Hr)]; [exact Hinv |].
    apply Forall_app. split; [exact Hinv | by apply Forall_singleton].
  - by rewrite results_isiTimer.
  - destruct (results_handleResponse s) as [-> | (r & -> & Hr)]; [exact Hinv |].
    apply Forall_app. split; [exact Hinv | by apply Forall_singleton].
Qed.

Lemma reachable_consistent s : reachable s -> Forall consistent (results s).
Proof.
  unfold reachable. intros H.
  apply rtc_ind_r with (x := initial)
    (P := fun s => Forall consistent (results s)) in H;
    [exact H | constructor | clear s H].
  intros y s _ Hstep IH. by eapply consistent_step.
Qed.

(** The counts over a list of consistent results. *)
Lemma counts_consistent rs :
  Forall consistent rs ->
  let st := calculateStats rs in
  hits st + misses st = length (List.filter r_isTarget rs)
  /\ falseAlarms st + correctRejections st
     = length (List.filter (fun r => negb (r_isTarget r)) rs)
  /\ hits st + misses st + falseAlarms st + correctRejections st = length rs
  /\ length (List.filter r_correct rs) = hits st + correctRejections st.
Proof.
  intros Hrs. cbn [calculateStats hits misses falseAlarms correctRejections].
  induction Hrs as [| r rs Hr _ IH]; [done |].
  destruct IH as (IH1 & IH2 & IH3 & IH4).
  unfold consistent in Hr. cbn [List.filter].
  destruct r as [p t d c]. cbn [r_isTarget r_responded r_correct] in *. subst c.
  destruct t, d; cbn [Bool.eqb negb andb List.filter r_isTarget r_responded
                      r_correct length]; lia.
Qed.

End NBackStats.

(** X20. In every state the n-back game can reach, the four counts of the
    results screen add up: hits and misses account for the results recorded
    on target letters, false alarms and correct rejections for those on
    other letters, the four together for all recorded results, and the
    correct results, which the accuracy counts, are the hits and the correct
    rejections. *)
Theorem NBack_counts_add_up (s : NBack.State) :
  NBack.reachable s ->
  let st := NBack.calculateStats (NBack.results s) in
  NBack.hits st + NBack.misses st
  = length (List.filter NBack.r_isTarget (NBack.results s))
  /\ NBack.falseAlarms st + NBack.correctRejections st
     = length (List.filter (fun r => negb (NBack.r_isTarget r)) (NBack.results s))
  /\ NBack.hits st + NBack.misses st + NBack.falseAlarms st
     + NBack.correctRejections st = length (NBack.results s)
  /\ length (List.filter NBack.r_correct (NBack.results s))
     = NBack.hits st + NBack.correctRejections st.
Proof.
  intros Hs st. exact (counts_consistent _ (reachable_consistent s Hs)).
Qed.

(** ** N-Back: every letter is scored *)

Section NBackSession.
Import NBack.

(** The number of recorded results for the letter at position [i]. *)
Definition scored (i : nat) (rs : list TrialResult) : nat :=
  length (List.filter (fun r => r_position r =? i) rs).

Lemma scored_snoc i rs r :
  scored i (rs ++ [r]) = scored i rs + (if r_position r =? i then 1 else 0).
Proof.
  unfold scored. rewrite List.filter_app, length_app. cbn [List.filter].
  by destruct (r_position r =? i).
Qed.

(** In play the letters before the current one have one or two results,
    the later ones none, and the current one as the timer and the handler
    leave it; at the end all 25 letters have one or two. *)
Definition letters_inv (s : State) : Prop :=
  (phase s = Playing ->
     currentIndex s < TOTAL_TRIALS
     /\ (forall i, currentIndex s < i -> scored i (results s) = 0)
     /\ (forall i, i < currentIndex s -> 1 <= scored i (results s) <= 2)
     /\ (showLetter s = true ->
           scored (currentIndex s) (results s) = if responded s then 1 else 0)
     /\ (showLetter s = false ->
           1 <= scored (currentIndex s) (results s) <= 2
           /\ (responded s = false -> scored (currentIndex s) (results s) = 1)))
  /\ (phase s = Results ->
        (forall i, i < TOTAL_TRIALS -> 1 <= scored i (results s) <= 2)
        /\ (forall i, TOTAL_TRIALS <= i -> scored i (results s) = 0)).

Lemma GamePhase_eqb_eq a b : GamePhase_eqb a b = true <-> a = b.
Proof. destruct a, b; simpl; split; (done || congruence). Qed.

Lemma letters_inv_countdownEffect s : letters_inv s -> letters_inv (countdownEffect s).
Proof.
  intros Hinv. unfold countdownEffect.
  destruct (GamePhase_eqb (phase s) Countdown && (0 <? countdown s)) eqn:H1.
  { apply andb_true_iff in H1 as [Hp%GamePhase_eqb_eq _].
    split; cbn [phase setCountdown]; congruence. }
  destruct (GamePhase_eqb (phase s) Countdown && (countdown s =? 0)) eqn:H2;
    [| exact Hinv].
  split; cbn [phase setPhase setCurrentIndex setResults setShowLetter
              setCurrentLetter setResponded]; [| done].
  intros _.
  cbn [currentIndex results showLetter responded setPhase setCurrentIndex
       setResults setShowLetter setCurrentLetter setResponded].
  unfold TOTAL_TRIALS.
  split; [lia |]. split; [done |]. split; [lia |]. split; done.
Qed.

Lemma letters_inv_letterTimer s : letters_inv s -> letters_inv (letterTimer s).
Proof.
  intros [Hplay Hres]. unfold letterTimer.
  destruct (GamePhase_eqb (phase s) Playing && showLetter s) eqn:H1;
    [| by split].
  apply andb_true_iff in H1 as [Hp%GamePhase_eqb_eq Hshow].
  destruct (Hplay Hp) as (Hci & Hlater & Hearlier & Hshown & _).
  specialize (Hshown Hshow).
  destruct (responded s) eqn:Hresp; cbn [negb].
  - split; cbn [phase setShowLetter]; [| congruence]. intros _.
    cbn [currentIndex results showLetter responded setShowLetter].
    rewrite Hresp.
    split; [done |]. split; [done |]. split; [done |].
    split; [done |]. intros _. split; [lia | done].
  - assert (Hs' : forall s' r,
              r_position r = currentIndex s ->
              phase s' = phase s -> currentIndex s' = currentIndex s ->
              results s' = results s ++ [r] -> showLetter s' = false ->
              responded s' = false -> letters_inv s').
    { intros s' r Hr Hp' Hci' Hres' Hshow' Hresp'.
      split; rewrite Hp'; [| congruence]. intros _.
      rewrite Hci', Hres', Hshow', Hresp'.
      split; [done |]. split; [| split; [| split; [done |]]].
      - intros i Hi. rewrite scored_snoc, Hlater, Hr by done.
        destruct (Nat.eqb_spec (currentIndex s) i); [lia | done].
      - intros i Hi. rewrite scored_snoc, Hr.
        destruct (Nat.eqb_spec (currentIndex s) i); [lia |].
        rewrite Nat.add_0_r. by apply Hearlier.
      - intros _. rewrite scored_snoc, Hshown, Hr.
        rewrite Nat.eqb_refl. split; [lia | done]. }
    destruct (isTarget (nLevel s) (sequence s) (currentIndex s));
      (eapply Hs';
       [| reflexivity | reflexivity | reflexivity | reflexivity | exact Hresp];
       reflexivity).
Qed.

Lemma letters_inv_isiTimer s : letters_inv s -> letters_inv (isiTimer s).
Proof.
  intros [Hplay Hres]. unfold isiTimer.
  destruct (GamePhase_eqb (phase s) Playing && negb (showLetter s)) eqn:H1;
    [| by split].
  apply andb_true_iff in H1 as [Hp%GamePhase_eqb_eq Hshow%negb_true_iff].
  destruct (Hplay Hp) as (Hci & Hlater & Hearlier & _ & Hhidden).
  destruct (Hhidden Hshow) as [Hcur _].
  destruct (Nat.leb_spec TOTAL_TRIALS (currentIndex s + 1)) as [Hlast | Hmore].
  - split; cbn [phase setPhase setLastFeedback]; [done |]. intros _.
    cbn [results setPhase setLastFeedback].
    split.
    + intros i Hi. destruct (Nat.eq_dec i (currentIndex s)) as [-> | Hne];
        [done | apply Hearlier; lia].
    + intros i Hi. apply Hlater. lia.
  - split; cbn [phase setCurrentIndex setCurrentLetter setShowLetter
                setResponded setLastFeedback]; [| congruence].
    intros _.
    cbn [currentIndex results showLetter responded setCurrentIndex
         setCurrentLetter setShowLetter setResponded setLastFeedback].
    split; [lia |]. split; [intros i Hi; apply Hlater; lia |]. split.
    + intros i Hi. destruct (Nat.eq_dec i (currentIndex s)) as [-> | Hne];
        [done | apply Hearlier; lia].
    + split; [| done]. intros _. apply Hlater. lia.
Qed.

Lemma letters_inv_handleResponse s : letters_inv s -> letters_inv (handleResponse s).
Proof.
  intros [Hplay Hres]. unfold handleResponse.
  destruct (negb (GamePhase_eqb (phase s) Playing) || responded s) eqn:H1;
    [by split |].
  apply orb_false_iff in H1 as [Hp%negb_false_iff%GamePhase_eqb_eq Hresp].
  destruct (Hplay Hp) as (Hci & Hlater & Hearlier & Hshown & Hhidden).
  split; cbn [phase setResponded setResults setLastFeedback]; [| congruence].
  intros _.
  cbn [currentIndex results showLetter responded setResponded setResults
       setLastFeedback].
  split; [done |]. split; [| split; [| split]].
  - intros i Hi. rewrite scored_snoc, Hlater by done. cbn [r_position].
    destruct (Nat.eqb_spec (currentIndex s) i); [lia | done].
  - intros i Hi. rewrite scored_snoc. cbn [r_position].
    destruct (Nat.eqb_spec (currentIndex s) i); [lia |].
    rewrite Nat.add_0_r. by apply Hearlier.
  - intros Hshow. rewrite scored_snoc, (Hshown Hshow), Hresp. cbn [r_position].
    by rewrite Nat.eqb_refl.
  - intros Hshow. destruct (Hhidden Hshow) as [_ Hone].
    rewrite scored_snoc, (Hone Hresp). cbn [r_position].
    rewrite Nat.eqb_refl. split; [lia | done].
Qed.

Lemma phase_startGame rng fuel k s s' :
  startGame rng fuel k s = Some s' -> phase s' = Countdown.
Proof.
  unfold startGame.
  destruct (generateSequence rng fuel (nLevel s) k) as [[seq k']|]; [| done].
  by intros [= <-].
Qed.

Lemma letters_inv_step s s' : step s s' -> letters_inv s -> letters_inv s'.
Proof.
  intros Hstep Hinv.
  destruct Hstep as [s level Hp _ | s rng fuel k s' _ Hstart | s | s | s | s].
  - split; cbn [phase setNLevel]; congruence.
  - pose proof (phase_startGame _ _ _ _ _ Hstart) as Hp'.
    split; congruence.
  - by apply letters_inv_countdownEffect.
  - by apply letters_inv_letterTimer.
  - by apply letters_inv_isiTimer.
  - by apply letters_inv_handleResponse.
Qed.

Lemma reachable_letters_inv s : reachable s -> letters_inv s.
Proof.
  unfold reachable. intros H.
  apply rtc_ind_r with (x := initial) (P := letters_inv) in H;
    [exact H | | clear s H].
  - split; cbn [phase initial]; congruence.
  - intros y s _ Hstep IH. by eapply letters_inv_step.
Qed.

(** Results whose positions are below [n], each position scored between
    [a] and [b] times, are between [a * n] and [b * n]. *)
Lemma scored_length a b n : forall rs,
  (forall i, i < n -> a <= scored i rs <= b) ->
  (forall i, n <= i -> scored i rs = 0) ->
  a * n <= length rs <= b * n.
Proof.
  induction n as [|n IH]; intros rs Hin Hout.
  - assert (Hnil : rs = []).
    { destruct rs as [|r rs]; [done |]. exfalso.
      specialize (Hout (r_position r) (Nat.le_0_l _)).
      unfold scored in Hout. cbn [List.filter] in Hout.
      rewrite Nat.eqb_refl in Hout. done. }
    subst rs. simpl. lia.
  - pose proof (filter_partition_length (fun r => r_position r =? n) rs) as Hsplit.
    set (rest := List.filter (fun r => negb (r_position r =? n)) rs) in *.
    assert (Hrest : forall i, i <> n -> scored i rest = scored i rs).
    { intros i Hi. unfold scored, rest. clear -Hi.
      induction rs as [|r rs IHrs]; [done |]. cbn [List.filter].
      destruct (Nat.eqb_spec (r_position r) n) as [Hn | Hn]; cbn [negb List.filter].
      - destruct (Nat.eqb_spec (r_position r) i); [lia | done].
      - destruct (r_position r =? i); cbn [length]; by rewrite IHrs. }
    assert (Hrest_n : scored n rest = 0).
    { unfold scored, rest. clear.
      induction rs as [|r rs IHrs]; [done |]. cbn [List.filter].
      destruct (Nat.eqb_spec (r_position r) n) as [Hn | Hn]; cbn [negb List.filter];
        [done |].
      destruct (Nat.eqb_spec (r_position r) n); [done | exact IHrs]. }
    destruct (IH rest) as [Hlo Hhi].
    + intros i Hi. rewrite Hrest by lia. apply Hin. lia.
    + intros i Hi. destruct (Nat.eq_dec i n) as [-> | Hne]; [done |].
      rewrite Hrest by done. apply Hout. lia.
    + specialize (Hin n (Nat.lt_succ_diag_r n)). unfold scored in Hin. lia.
Qed.

End NBackSession.

(** X21. When an n-back game has ended, each of the 25 letters has a
    recorded result and none has more than two, so the results screen is
    computed from at least 25 and at most 50 results. *)
Theorem NBack_every_letter_scored (s : NBack.State) :
  NBack.reachable s -> NBack.phase s = NBack.Results ->
  (forall i, i < NBack.TOTAL_TRIALS -> 1 <= scored i (NBack.results s) <= 2)
  /\ Forall (fun r => NBack.r_position r < NBack.TOTAL_TRIALS) (NBack.results s)
  /\ 25 <= length (NBack.results s) <= 50.
Proof.
  intros Hs Hp.
  destruct (reachable_letters_inv s Hs) as [_ Hres].
  destruct (Hres Hp) as [Hin Hout].
  split; [exact Hin |]. split.
  - apply Forall_forall. intros r Hr.
    destruct (Nat.lt_ge_cases (NBack.r_position r) NBack.TOTAL_TRIALS) as [|Hge];
      [done |].
    specialize (Hout _ Hge). unfold scored in Hout.
    apply length_zero_iff_nil in Hout.
    assert (Hmem : r ∈ List.filter (fun r' => NBack.r_position r' =? NBack.r_position r)
                         (NBack.results s)).
    { apply list_elem_of_In, filter_In. split; [by apply list_elem_of_In |].
      apply Nat.eqb_refl. }
    rewrite Hout in Hmem. by apply elem_of_nil in Hmem.
  - pose proof (scored_length 1 2 NBack.TOTAL_TRIALS (NBack.results s) Hin Hout) as H.
    unfold NBack.TOTAL_TRIALS in H. lia.
Qed.

Module NBackFullRun.

(** The state after the start button and the countdown, with the sequence
    drawn from [NBackRun.rng]. *)
Definition ready : NBack.State :=
  default NBack.initial (NBack.startGame NBackRun.rng 5 0 NBack.initial)
    |> NBack.countdownEffect |> NBack.countdownEffect
    |> NBack.countdownEffect |> NBack.countdownEffect.

(** A letter answered while it is on screen. *)
Definition round (s : NBack.State) : NBack.State :=
  s |> NBack.handleResponse |> NBack.letterTimer |> NBack.isiTimer.

(** A letter answered after it has gone. *)
Definition late (s : NBack.State) : NBack.State :=
  s |> NBack.letterTimer |> NBack.handleResponse |> NBack.isiTimer.

Definition finished : NBack.State :=
  round (Nat.iter 12 (fun s => late (round s)) ready).

End NBackFullRun.

Lemma NBackFullRun_ready_reachable : NBack.reachable NBackFullRun.ready.
Proof.
  unfold NBack.reachable, NBackFullRun.ready.
  do 4 (eapply rtc_r; [| apply NBack.step_countdown]).
  apply rtc_once.
  apply (NBack.step_startGame _ NBackRun.rng 5 0); [by left |].
  vm_compute. reflexivity.
Qed.

Lemma NBackFullRun_round_reachable s :
  NBack.reachable s -> NBack.reachable (NBackFullRun.round s).
Proof.
  intros Hs. unfold NBackFullRun.round.
  eapply rtc_r; [| apply NBack.step_isiTimer].
  eapply rtc_r; [| apply NBack.step_letterTimer].
  eapply rtc_r; [| apply NBack.step_response].
  exact Hs.
Qed.

Lemma NBackFullRun_late_reachable s :
  NBack.reachable s -> NBack.reachable (NBackFullRun.late s).
Proof.
  intros Hs. unfold NBackFullRun.late.
  eapply rtc_r; [| apply NBack.step_isiTimer].
  eapply rtc_r; [| apply NBack.step_response].
  eapply rtc_r; [| apply NBack.step_letterTimer].
  exact Hs.
Qed.

Lemma NBackFullRun_finished_reachable : NBack.reachable NBackFullRun.finished.
Proof.
  unfold NBackFullRun.finished. apply NBackFullRun_round_reachable.
  generalize 12. intros n. induction n as [|n IH];
    [apply NBackFullRun_ready_reachable |].
  cbn [Nat.iter]. by apply NBackFullRun_late_reachable, NBackFullRun_round_reachable.
Qed.

Lemma NBack_every_letter_scored_witness :
  length (NBack.results NBackFullRun.finished) = 37
  /\ 25 <= length (NBack.results NBackFullRun.finished) <= 50.
Proof.
  split; [vm_compute; reflexivity |].
  apply (NBack_every_letter_scored NBackFullRun.finished).
  - apply NBackFullRun_finished_reachable.
  - vm_compute. reflexivity.
Defined.

Lemma NBack_counts_add_up_witness :
  NBack.hits (NBack.calculateStats (NBack.results NBackFullRun.finished))
  + NBack.misses (NBack.calculateStats (NBack.results NBackFullRun.finished))
  + NBack.falseAlarms (NBack.calculateStats (NBack.results NBackFullRun.finished))
  + NBack.correctRejections (NBack.calculateStats (NBack.results NBackFullRun.finished))
  = length (NBack.results NBackFullRun.finished).
Proof.
  exact (proj1 (proj2 (proj2
           (NBack_counts_add_up NBackFullRun.finished
              NBackFullRun_finished_reachable)))).
Defined.
